(** * Apollo Engine sidecar supervisor (src/index.ts): a shallow embedding

    The class [Engine] of src/index.ts assembles a configuration document,
    spawns the engine proxy binary, feeds it the document over stdin, watches
    its JSON log stream for the start-up record and respawns it when it dies.

    The embedding keeps the shape of the source:
    - the configuration objects live in a store of cells addressed by
      references, because the constructor shares the caller's nested objects
      ([Object.assign({}, sourceConfig)] is a shallow copy) and the log-level
      handling mutates the logging object in place;
    - the closures created by [spawnChild] (one per spawned process) are the
      per-process records [Proc];
    - Node's event loop is a step function: an event arrives after some
      elapsed time, the timers that are due fire first, then the handler that
      the source registered for the event runs to completion. *)

From Stdlib Require Import ZArith NArith Lia Ascii DecimalString.
From Stdlib Require Import DecimalPos.
From Stdlib Require String.
From stdpp Require Import base list strings.

(** ** JavaScript values the source relies on *)

(** A JavaScript number, as far as this program uses them (ports, exit codes,
    delays): an integer or NaN. *)
Inductive JSNum :=
| NaN
| Num (z : Z).

Definition num_truthy (n : JSNum) : bool :=
  match n with
  | NaN => false
  | Num z => negb (z =? 0)%Z
  end.

(** [x || d] on an optional number. *)
Definition num_or (x : option JSNum) (d : JSNum) : JSNum :=
  match x with
  | Some n => if num_truthy n then n else d
  | None => d
  end.

Definition str_truthy (s : string) : bool :=
  match s with
  | EmptyString => false
  | String _ _ => true
  end.

(** [x || d] on an optional string. *)
Definition str_or (x : option string) (d : string) : string :=
  match x with
  | Some s => if str_truthy s then s else d
  | None => d
  end.

Definition bool_or (x : option bool) (d : bool) : bool :=
  match x with
  | Some true => true
  | _ => d
  end.

(** Number to string conversion, as string concatenation performs it: the
    decimal numeral (JavaScript turns to exponent notation from 1e21 on). *)
Definition num_to_string (n : JSNum) : string :=
  match n with
  | NaN => "NaN"
  | Num z => NilZero.string_of_int (Z.to_int z)
  end.

(** Template-literal conversion of an optional string field:
    an absent field prints as [undefined]. *)
Definition show_field (x : option string) : string :=
  match x with
  | Some s => s
  | None => "undefined"
  end.

Definition is_digit (c : ascii) : bool :=
  let n := nat_of_ascii c in (48 <=? n) && (n <=? 57).

Definition digit_val (c : ascii) : option Z :=
  if is_digit c then Some (Z.of_nat (nat_of_ascii c) - 48)%Z else None.

(** White space skipped by [parseInt] and removed by [trim] (the ASCII part). *)
Definition is_js_space (c : ascii) : bool :=
  let n := nat_of_ascii c in
  (n =? 32) || ((9 <=? n) && (n <=? 13)).

Fixpoint skip_ws (s : string) : string :=
  match s with
  | String c r => if is_js_space c then skip_ws r else s
  | EmptyString => EmptyString
  end.

(** Value of the longest prefix of decimal digits, [None] when it is empty. *)
Fixpoint digits_prefix (s : string) (acc : option Z) : option Z :=
  match s with
  | String c r =>
      match digit_val c with
      | Some d => digits_prefix r (Some (10 * default 0%Z acc + d)%Z)
      | None => acc
      end
  | EmptyString => acc
  end.

(** [parseInt(s, 10)]: the integer that the numeral denotes. JavaScript
    rounds it to a double, so the two agree up to 2^53. *)
Definition parseInt10 (s : string) : JSNum :=
  let s1 := skip_ws s in
  let '(neg, s2) :=
    match s1 with
    | String "-"%char r => (true, r)
    | String "+"%char r => (false, r)
    | _ => (false, s1)
    end in
  match digits_prefix s2 None with
  | Some v => Num (if neg then - v else v)%Z
  | None => NaN
  end.

(** ASCII case folding, which is what the [i] flag of the level patterns
    amounts to on their all-ASCII alternatives. *)
Definition lower_ascii (c : ascii) : ascii :=
  let n := nat_of_ascii c in
  if (65 <=? n) && (n <=? 90) then ascii_of_nat (n + 32) else c.

Fixpoint lower (s : string) : string :=
  match s with
  | String c r => String (lower_ascii c) (lower r)
  | EmptyString => EmptyString
  end.

(** ** Data model *)

Record ExtensionsConfig := {
  strip : option (list string);
  blacklist : option (list string)
}.

Record FrontendParams := {
  extensions : option ExtensionsConfig
}.

Record FrontendConfig := {
  fe_extensions : option ExtensionsConfig;
  fe_host : string;
  fe_endpoint : string;
  fe_port : JSNum
}.

Record OriginParams := {
  requestTimeout : option string;
  maxConcurrentRequests : option JSNum;
  supportsBatch : option bool
}.

(** The [http] sub-object of an origin. *)
Record HttpObj := {
  url : string;
  headerSecret : option string
}.

(** A reference into the store. *)
Abbreviation loc := nat.

(** An origin object. Its [http] field refers to an object of its own, which
    the constructor updates in place; an origin of another transport has no
    [http] field and carries its description in [o_other]. *)
Record OriginObj := {
  o_params : OriginParams;
  o_http : option loc;
  o_other : option string
}.

Record LoggingObj := {
  level : option string;
  format : option string;
  destination : option string
}.

(** The top-level [EngineConfig] object: the fields the supervisor reads or
    writes. [stores], [sessionAuth], [reporting] and [queryCache] are never
    touched by src/index.ts and are left out. *)
Record ConfigObj := {
  apiKey : string;
  origins : option loc;
  frontends : option loc;
  logging : option loc
}.

Inductive Cell :=
| CConfig (c : ConfigObj)
| COrigins (l : list OriginObj)
| CFrontends (l : list FrontendConfig)
| CHttp (h : HttpObj)
| CLogging (g : LoggingObj).

Abbreviation Heap := (list Cell).

Definition alloc (c : Cell) (h : Heap) : loc * Heap := (length h, h ++ [c]).

(** A configuration document as a value: what [JSON.parse] reads and what
    [JSON.stringify] prints. A written document is represented by this value
    rather than by its text. *)
Record OriginVal := {
  ov_params : OriginParams;
  ov_http : option HttpObj;
  ov_other : option string
}.

Record DocVal := {
  d_apiKey : string;
  d_origins : option (list OriginVal);
  d_frontends : option (list FrontendConfig);
  d_logging : option LoggingObj
}.

(** [JSON.parse]: build a fresh object graph for a document. *)
Definition alloc_origin (o : OriginVal) (h : Heap) : OriginObj * Heap :=
  match ov_http o with
  | Some ht =>
      let '(l, h1) := alloc (CHttp ht) h in
      ({| o_params := ov_params o; o_http := Some l; o_other := ov_other o |}, h1)
  | None =>
      ({| o_params := ov_params o; o_http := None; o_other := ov_other o |}, h)
  end.

Fixpoint alloc_origins (os : list OriginVal) (h : Heap) : list OriginObj * Heap :=
  match os with
  | [] => ([], h)
  | o :: r =>
      let '(obj, h1) := alloc_origin o h in
      let '(objs, h2) := alloc_origins r h1 in
      (obj :: objs, h2)
  end.

Definition alloc_opt {A : Type} (mk : A -> Cell) (x : option A) (h : Heap)
  : option loc * Heap :=
  match x with
  | Some a => let '(l, h1) := alloc (mk a) h in (Some l, h1)
  | None => (None, h)
  end.

Definition alloc_doc (d : DocVal) (h : Heap) : loc * Heap :=
  let '(lo, h1) :=
    match d_origins d with
    | Some os =>
        let '(objs, h') := alloc_origins os h in
        let '(l, h'') := alloc (COrigins objs) h' in (Some l, h'')
    | None => (None, h)
    end in
  let '(lf, h2) := alloc_opt CFrontends (d_frontends d) h1 in
  let '(lg, h3) := alloc_opt CLogging (d_logging d) h2 in
  alloc (CConfig {| apiKey := d_apiKey d; origins := lo;
                    frontends := lf; logging := lg |}) h3.

(** [JSON.stringify]: read the object graph below a configuration object.
    A field whose reference does not lead to an object of the expected kind
    prints as absent. *)
Definition read_http (h : Heap) (l : loc) : option HttpObj :=
  match h !! l with
  | Some (CHttp ht) => Some ht
  | _ => None
  end.

Definition read_origin (h : Heap) (o : OriginObj) : OriginVal :=
  {| ov_params := o_params o;
     ov_http := o_http o ≫= read_http h;
     ov_other := o_other o |}.

Definition read_origins (h : Heap) (l : loc) : option (list OriginVal) :=
  match h !! l with
  | Some (COrigins os) => Some (map (read_origin h) os)
  | _ => None
  end.

Definition read_frontends (h : Heap) (l : loc) : option (list FrontendConfig) :=
  match h !! l with
  | Some (CFrontends fs) => Some fs
  | _ => None
  end.

Definition read_logging (h : Heap) (l : loc) : option LoggingObj :=
  match h !! l with
  | Some (CLogging g) => Some g
  | _ => None
  end.

Definition read_config (h : Heap) (l : loc) : option ConfigObj :=
  match h !! l with
  | Some (CConfig c) => Some c
  | _ => None
  end.

Definition stringify (h : Heap) (l : loc) : option DocVal :=
  c ← read_config h l;
  Some {| d_apiKey := apiKey c;
          d_origins := origins c ≫= read_origins h;
          d_frontends := frontends c ≫= read_frontends h;
          d_logging := logging c ≫= read_logging h |}.

(** ** The supervisor's state *)

(** The parameters shared with the middleware ([MiddlewareParams] of
    ./middleware). *)
Record MiddlewareParams := {
  mp_endpoint : string;
  mp_psk : string;
  mp_uri : string;
  mp_dumpTraffic : bool
}.

(** Modelled from the spec: the class [MiddlewareParams] is declared in
    ./middleware, which is not among the sources; the spec describes its
    [uri] as "the live base URL of the running child, empty when no child is
    reachable", so [new MiddlewareParams()] starts with the empty [uri]. The
    constructor of [Engine] assigns the other three fields. *)
Definition MiddlewareParams_new : MiddlewareParams :=
  {| mp_endpoint := ""; mp_psk := ""; mp_uri := ""; mp_dumpTraffic := false |}.

(** [this.child]: the field is declared without an initialiser and the
    constructor does not assign it, so it is [undefined] until [start],
    [stop] or the start-up timer writes it. *)
Inductive ChildRef :=
| CUndefined
| CNull
| CHandle (pid : nat).

Inductive Signal := SIGTERM | SIGKILL.

(** The three filter patterns of [spawnChild]:
    [/^(warn(ing)?|error|fatal)$/], [/^(error|fatal)$/] and [/^fatal$/]. *)
Inductive LevelFilter := FWarn | FError | FFatal.

(** The closure variable [logLevelFilter]: declared without a value, set to
    a pattern by the level handling, set to [null] by the grace timer. *)
Inductive FilterVar :=
| FltUndefined
| FltNull
| FltRegex (f : LevelFilter).

(** A decoded log record: the three fields the supervisor inspects. *)
Record LogRecord := {
  msg : option string;
  address : option string;
  rec_level : option string
}.

(** One spawned process together with the closure [spawnChild] created for
    it: the constant [logLevel], the variable [logLevelFilter], what was
    written to its stdin, the signals sent to it, and the promises of
    [stop()] calls that wait for its exit. [p_alive] holds until the exit
    event of the process has been delivered. *)
Record Proc := {
  p_alive : bool;
  p_stdin : list (option DocVal);
  p_signals : list Signal;
  p_logLevel : option string;
  p_filter : FilterVar;
  p_exit_waiters : list nat
}.

Inductive JSVal :=
| VUndefined
| VNum (n : JSNum)
| VStr (s : string)
| VError (message : string)
| VTypeError.

Inductive PState :=
| Pending
| Resolved (v : JSVal)
| Rejected (v : JSVal).

Inductive TimerAction :=
| StartupTimeout (promise : nat)
| ClearFilter (pid : nat).

Record Timer := {
  t_id : nat;
  t_due : N;
  t_action : TimerAction
}.

(** The fields of the [Engine] object. *)
Record Engine := {
  child : ChildRef;
  graphqlPort : JSNum;
  binary : string;
  engineConfig : loc;
  middlewareParams : MiddlewareParams;
  running : bool;
  startupTimeout : JSNum;
  originParams : OriginParams;
  frontendParams : FrontendParams
}.

(** The engine object and the world it acts on: the store, the clock and
    the pending timers, the spawned processes, the listeners of the [start]
    event (each clears a timer and settles a promise), the promises handed
    out by [start()] and [stop()], the [error] events emitted, and what went
    to [console.log] and [console.error]. *)
Record State := {
  this : Engine;
  heap : Heap;
  now : N;
  procs : list Proc;
  timers : list Timer;
  next_timer : nat;
  start_listeners : list (nat * nat);
  promises : list PState;
  error_events : list string;
  console_log : list LogRecord;
  console_error : list string
}.

Definition eng_set_child (v : ChildRef) (e : Engine) : Engine :=
  {| child := v; graphqlPort := graphqlPort e; binary := binary e;
     engineConfig := engineConfig e; middlewareParams := middlewareParams e;
     running := running e; startupTimeout := startupTimeout e;
     originParams := originParams e; frontendParams := frontendParams e |}.

Definition eng_set_middlewareParams (v : MiddlewareParams) (e : Engine) : Engine :=
  {| child := child e; graphqlPort := graphqlPort e; binary := binary e;
     engineConfig := engineConfig e; middlewareParams := v;
     running := running e; startupTimeout := startupTimeout e;
     originParams := originParams e; frontendParams := frontendParams e |}.

Definition eng_set_running (v : bool) (e : Engine) : Engine :=
  {| child := child e; graphqlPort := graphqlPort e; binary := binary e;
     engineConfig := engineConfig e; middlewareParams := middlewareParams e;
     running := v; startupTimeout := startupTimeout e;
     originParams := originParams e; frontendParams := frontendParams e |}.

Definition set_this (v : Engine) (s : State) : State :=
  {| this := v; heap := heap s; now := now s; procs := procs s;
     timers := timers s; next_timer := next_timer s;
     start_listeners := start_listeners s; promises := promises s;
     error_events := error_events s; console_log := console_log s;
     console_error := console_error s |}.

Definition set_heap (v : Heap) (s : State) : State :=
  {| this := this s; heap := v; now := now s; procs := procs s;
     timers := timers s; next_timer := next_timer s;
     start_listeners := start_listeners s; promises := promises s;
     error_events := error_events s; console_log := console_log s;
     console_error := console_error s |}.

Definition set_now (v : N) (s : State) : State :=
  {| this := this s; heap := heap s; now := v; procs := procs s;
     timers := timers s; next_timer := next_timer s;
     start_listeners := start_listeners s; promises := promises s;
     error_events := error_events s; console_log := console_log s;
     console_error := console_error s |}.

Definition set_procs (v : list Proc) (s : State) : State :=
  {| this := this s; heap := heap s; now := now s; procs := v;
     timers := timers s; next_timer := next_timer s;
     start_listeners := start_listeners s; promises := promises s;
     error_events := error_events s; console_log := console_log s;
     console_error := console_error s |}.

Definition set_timers (v : list Timer) (s : State) : State :=
  {| this := this s; heap := heap s; now := now s; procs := procs s;
     timers := v; next_timer := next_timer s;
     start_listeners := start_listeners s; promises := promises s;
     error_events := error_events s; console_log := console_log s;
     console_error := console_error s |}.

Definition set_next_timer (v : nat) (s : State) : State :=
  {| this := this s; heap := heap s; now := now s; procs := procs s;
     timers := timers s; next_timer := v;
     start_listeners := start_listeners s; promises := promises s;
     error_events := error_events s; console_log := console_log s;
     console_error := console_error s |}.

Definition set_start_listeners (v : list (nat * nat)) (s : State) : State :=
  {| this := this s; heap := heap s; now := now s; procs := procs s;
     timers := timers s; next_timer := next_timer s; start_listeners := v;
     promises := promises s; error_events := error_events s;
     console_log := console_log s; console_error := console_error s |}.

Definition set_promises (v : list PState) (s : State) : State :=
  {| this := this s; heap := heap s; now := now s; procs := procs s;
     timers := timers s; next_timer := next_timer s;
     start_listeners := start_listeners s; promises := v;
     error_events := error_events s; console_log := console_log s;
     console_error := console_error s |}.

Definition set_error_events (v : list string) (s : State) : State :=
  {| this := this s; heap := heap s; now := now s; procs := procs s;
     timers := timers s; next_timer := next_timer s;
     start_listeners := start_listeners s; promises := promises s;
     error_events := v; console_log := console_log s;
     console_error := console_error s |}.

Definition set_console_log (v : list LogRecord) (s : State) : State :=
  {| this := this s; heap := heap s; now := now s; procs := procs s;
     timers := timers s; next_timer := next_timer s;
     start_listeners := start_listeners s; promises := promises s;
     error_events := error_events s; console_log := v;
     console_error := console_error s |}.

Definition set_console_error (v : list string) (s : State) : State :=
  {| this := this s; heap := heap s; now := now s; procs := procs s;
     timers := timers s; next_timer := next_timer s;
     start_listeners := start_listeners s; promises := promises s;
     error_events := error_events s; console_log := console_log s;
     console_error := v |}.

Definition proc_set_p_alive (v : bool) (p : Proc) : Proc :=
  {| p_alive := v; p_stdin := p_stdin p; p_signals := p_signals p;
     p_logLevel := p_logLevel p; p_filter := p_filter p;
     p_exit_waiters := p_exit_waiters p |}.

Definition proc_set_p_stdin (v : list (option DocVal)) (p : Proc) : Proc :=
  {| p_alive := p_alive p; p_stdin := v; p_signals := p_signals p;
     p_logLevel := p_logLevel p; p_filter := p_filter p;
     p_exit_waiters := p_exit_waiters p |}.

Definition proc_set_p_signals (v : list Signal) (p : Proc) : Proc :=
  {| p_alive := p_alive p; p_stdin := p_stdin p; p_signals := v;
     p_logLevel := p_logLevel p; p_filter := p_filter p;
     p_exit_waiters := p_exit_waiters p |}.

Definition proc_set_p_filter (v : FilterVar) (p : Proc) : Proc :=
  {| p_alive := p_alive p; p_stdin := p_stdin p; p_signals := p_signals p;
     p_logLevel := p_logLevel p; p_filter := v;
     p_exit_waiters := p_exit_waiters p |}.

Definition proc_set_p_exit_waiters (v : list nat) (p : Proc) : Proc :=
  {| p_alive := p_alive p; p_stdin := p_stdin p; p_signals := p_signals p;
     p_logLevel := p_logLevel p; p_filter := p_filter p; p_exit_waiters := v |}.

(** ** The constructor *)

Record SideloadConfig := {
  sc_engineConfig : string + loc;
  sc_endpoint : option string;
  sc_graphqlPort : option JSNum;
  sc_dumpTraffic : option bool;
  sc_startupTimeout : option JSNum;
  sc_origin : option OriginParams;
  sc_frontend : option FrontendParams
}.

(** What the constructor takes from the host: [process.env.PORT], the
    built-in [isFinite] on strings, [process.platform], [require.resolve]
    (which fails for a package that is not installed), [readFileSync]
    followed by [JSON.parse], and the 48 random bytes in hexadecimal. *)
Record Host := {
  env_PORT : option string;
  isFinite : string -> bool;
  platform : string;
  require_resolve : string -> option string;
  readConfigFile : string -> option DocVal;
  randomBytes48_hex : string
}.

(** The constructor returns an engine or throws; the store is returned in
    both cases, since objects of the caller may have been written before the
    throw. *)
Inductive Outcome :=
| Constructed (s : State)
| Threw (message : string) (h : Heap).

Definition missing_port_message : string :=
  "Neither 'graphqlPort' nor process.env.PORT is set. " +:+
  "In order for Apollo Engine to act as a proxy for your GraphQL server, " +:+
  "it needs to know which port your GraphQL server is listening on (this is " +:+
  "the port number that comes before '/graphql'). If you see this error, you " +:+
  "should make sure to add e.g. 'graphqlPort: 1234' wherever you call new Engine(...).".

Definition with_frontends (v : option loc) (c : ConfigObj) : ConfigObj :=
  {| apiKey := apiKey c; origins := origins c; frontends := v;
     logging := logging c |}.

Definition with_origins (v : option loc) (c : ConfigObj) : ConfigObj :=
  {| apiKey := apiKey c; origins := v; frontends := frontends c;
     logging := logging c |}.

Definition with_logging (v : option loc) (c : ConfigObj) : ConfigObj :=
  {| apiKey := apiKey c; origins := origins c; frontends := frontends c;
     logging := v |}.

(** "Inject frontend, that we will route": a new array on the engine's copy
    when there was none, otherwise [push] on the array that is there. *)
Definition inject_frontend (fe : FrontendConfig) (cfg : loc) (h : Heap)
  : option Heap :=
  c ← read_config h cfg;
  match frontends c with
  | None =>
      let '(l, h1) := alloc (CFrontends [fe]) h in
      Some (<[cfg := CConfig (with_frontends (Some l) c)]> h1)
  | Some l =>
      fs ← read_frontends h l;
      Some (<[l := CFrontends (fs ++ [fe])]> h)
  end.

(** [Object.assign(origin.http, { headerSecret: psk })] when
    [typeof origin.http === 'object']. *)
Definition assign_secret (psk : string) (h : Heap) (o : OriginObj) : Heap :=
  match o_http o with
  | Some l =>
      match read_http h l with
      | Some ht => <[l := CHttp {| url := url ht; headerSecret := Some psk |}]> h
      | None => h
      end
  | None => h
  end.

Definition inject_origins (psk : string) (port : JSNum) (endpoint : string)
    (params : OriginParams) (cfg : loc) (h : Heap) : option Heap :=
  c ← read_config h cfg;
  match origins c with
  | None =>
      let '(lh, h1) :=
        alloc (CHttp {| url := "http://127.0.0.1:" +:+ num_to_string port +:+ endpoint;
                        headerSecret := Some psk |}) h in
      let '(lo, h2) :=
        alloc (COrigins [ {| o_params := params; o_http := Some lh;
                             o_other := None |} ]) h1 in
      Some (<[cfg := CConfig (with_origins (Some lo) c)]> h2)
  | Some l =>
      match h !! l with
      | Some (COrigins os) => Some (foldl (assign_secret psk) h os)
      | _ => None
      end
  end.

Definition format_warning (g : LoggingObj) : list string :=
  match format g with
  | Some f =>
      if str_truthy f && negb (String.eqb f "JSON")
      then ["Invalid logging format: " +:+ f +:+ ", overridden to JSON."]
      else []
  | None => []
  end.

(** The second warning prints [logging.format], as the source does. *)
Definition destination_warning (g : LoggingObj) : list string :=
  match destination g with
  | Some d =>
      if str_truthy d && negb (String.eqb d "STDOUT")
      then ["Invalid logging destination: " +:+ show_field (format g)
              +:+ ", overridden to STDOUT."]
      else []
  | None => []
  end.

(** "Logging format _must_ be JSON to stdout". *)
Definition force_logging (cfg : loc) (h : Heap) : option (Heap * list string) :=
  c ← read_config h cfg;
  match logging c with
  | None =>
      let '(l, h1) :=
        alloc (CLogging {| level := None; format := Some "JSON";
                           destination := Some "STDOUT" |}) h in
      Some (<[cfg := CConfig (with_logging (Some l) c)]> h1, [])
  | Some l =>
      g ← read_logging h l;
      Some (<[l := CLogging {| level := level g; format := Some "JSON";
                               destination := Some "STDOUT" |}]> h,
            format_warning g ++ destination_warning g)
  end.

Definition binary_package (pf : string) : option string :=
  if String.eqb pf "darwin"
  then Some "apollo-engine-binary-darwin/engineproxy_darwin_amd64"
  else if String.eqb pf "linux"
  then Some "apollo-engine-binary-linux/engineproxy_linux_amd64"
  else if String.eqb pf "win32"
  then Some "apollo-engine-binary-windows/engineproxy_windows_amd64.exe"
  else None.

(** [process.env.PORT] when [isFinite] accepts it
    ([isFinite(undefined)] is false). *)
Definition port_from_env (host : Host) : option JSNum :=
  match env_PORT host with
  | Some p => if isFinite host p then Some (parseInt10 p) else None
  | None => None
  end.

(** [sideloadConfig.graphqlPort] when it is truthy, else the port of the
    environment; [None] stands for the error the constructor throws. *)
Definition resolve_graphqlPort (host : Host) (sc : SideloadConfig) : option JSNum :=
  match sc_graphqlPort sc with
  | Some n => if num_truthy n then Some n else port_from_env host
  | None => port_from_env host
  end.

Definition type_error : string := "TypeError".

(** "Ensure that engineConfig is EngineConfig and not string": a path is
    read and parsed into objects of its own, an object is taken as it is. *)
Definition load_source (host : Host) (sc : SideloadConfig) (h0 : Heap)
  : option (loc * Heap) :=
  match sc_engineConfig sc with
  | inl path =>
      match readConfigFile host path with
      | Some d => Some (alloc_doc d h0)
      | None => None
      end
  | inr l => Some (l, h0)
  end.

(** [new Engine(sideloadConfig)], statement by statement. *)
Definition construct (host : Host) (sc : SideloadConfig) (h0 : Heap) : Outcome :=
  match load_source host sc h0 with
  | None => Threw "ENOENT" h0
  | Some (src, h1) =>
  (* this.engineConfig = Object.assign({}, sourceConfig) *)
  match read_config h1 src with
  | None => Threw type_error h1
  | Some c =>
  let '(cfg, h2) := alloc (CConfig c) h1 in
  let endpoint := str_or (sc_endpoint sc) "/graphql" in
  let psk := randomBytes48_hex host in
  let mp := {| mp_endpoint := endpoint; mp_psk := psk;
               mp_uri := mp_uri MiddlewareParams_new;
               mp_dumpTraffic := bool_or (sc_dumpTraffic sc) false |} in
  let oparams := default {| requestTimeout := None; maxConcurrentRequests := None;
                            supportsBatch := None |} (sc_origin sc) in
  let fparams := default {| extensions := None |} (sc_frontend sc) in
  match resolve_graphqlPort host sc with
  | None => Threw missing_port_message h2
  | Some port =>
  let fe := {| fe_extensions := extensions fparams; fe_host := "127.0.0.1";
               fe_endpoint := endpoint; fe_port := Num 0 |} in
  match inject_frontend fe cfg h2 with
  | None => Threw type_error h2
  | Some h3 =>
  match inject_origins psk port endpoint oparams cfg h3 with
  | None => Threw type_error h3
  | Some h4 =>
  match force_logging cfg h4 with
  | None => Threw type_error h4
  | Some (h5, warnings) =>
  match binary_package (platform host) with
  | None => Threw "Unsupported platform" h5
  | Some pkg =>
  match require_resolve host pkg with
  | None => Threw "Cannot find module" h5
  | Some bin =>
      Constructed
        {| this := {| child := CUndefined; graphqlPort := port; binary := bin;
                      engineConfig := cfg; middlewareParams := mp;
                      running := false;
                      startupTimeout := num_or (sc_startupTimeout sc) (Num 1000);
                      originParams := oparams; frontendParams := fparams |};
           heap := h5; now := 0%N; procs := []; timers := []; next_timer := 0;
           start_listeners := []; promises := []; error_events := [];
           console_log := []; console_error := warnings |}
  end end end end end end end end.

(** ** Port of a URL

    [url.parse(uri).port] of Node's [url] module, for the strings the
    supervisor builds ([http://] followed by the address of the start-up
    record): the URL is trimmed, the host part ends at the first of the
    characters that cannot be part of a host (a backslash counts as a
    slash), credentials up to the last [@] are dropped, and the port is what
    follows the last colon of the host when that is a non-empty run of
    digits ([/:[0-9]*$/]). *)

Definition ascii_in (cs : list ascii) (c : ascii) : bool :=
  existsb (Ascii.eqb c) cs.

Definition host_ending_chars : list ascii :=
  ["/"; "?"; "#"; "\"]%char.

Definition non_host_chars : list ascii :=
  ["%"; "/"; "?"; ";"; "#"; "'"; "{"; "}"; "|"; "\"; "^"; "`"; "<"; ">";
   "034"; " "; "013"; "010"; "009"]%char.

Fixpoint take_until (p : ascii -> bool) (s : string) : string :=
  match s with
  | String c r => if p c then EmptyString else String c (take_until p r)
  | EmptyString => EmptyString
  end.

(** What follows the last occurrence of [a], if there is one. *)
Fixpoint after_last (a : ascii) (s : string) : option string :=
  match s with
  | String c r =>
      match after_last a r with
      | Some t => Some t
      | None => if Ascii.eqb c a then Some r else None
      end
  | EmptyString => None
  end.

Fixpoint all_digits (s : string) : bool :=
  match s with
  | String c r => is_digit c && all_digits r
  | EmptyString => true
  end.

Definition trim (s : string) : string :=
  String.rev (skip_ws (String.rev (skip_ws s))).

Fixpoint strip_prefix (p s : string) : option string :=
  match p, s with
  | EmptyString, _ => Some s
  | String a p', String b s' => if Ascii.eqb a b then strip_prefix p' s' else None
  | String _ _, EmptyString => None
  end.

Definition url_host (u : string) : option string :=
  rest ← strip_prefix "http://" (trim u);
  let region := take_until (ascii_in host_ending_chars) rest in
  Some (take_until (ascii_in non_host_chars)
          (default region (after_last "@" region))).

Definition url_port (u : string) : option string :=
  hst ← url_host u;
  digits ← after_last ":" hst;
  if str_truthy digits && all_digits digits then Some digits else None.

(** ** The supervisor *)

Definition sentinel : string := "Started HTTP server.".

(** The level patterns of [spawnChild], tried in the order of the source:
    [/^warn(ing)?$/i], [/^error$/i], [/^fatal$/i]. *)
Definition hack_filter (lvl : string) : option LevelFilter :=
  let l := lower lvl in
  if String.eqb l "warn" || String.eqb l "warning" then Some FWarn
  else if String.eqb l "error" then Some FError
  else if String.eqb l "fatal" then Some FFatal
  else None.

(** [level.match(logLevelFilter)]: the filter patterns carry no [i] flag. *)
Definition filter_matches (f : LevelFilter) (l : string) : bool :=
  match f with
  | FWarn => String.eqb l "warn" || String.eqb l "warning"
             || String.eqb l "error" || String.eqb l "fatal"
  | FError => String.eqb l "error" || String.eqb l "fatal"
  | FFatal => String.eqb l "fatal"
  end.

(** [this.engineConfig.logging.level], read and written through the store. *)
Definition logging_loc (s : State) : option loc :=
  read_config (heap s) (engineConfig (this s)) ≫= logging.

Definition get_level (s : State) : option string :=
  g ← logging_loc s ≫= read_logging (heap s); level g.

Definition set_level (v : option string) (s : State) : State :=
  match logging_loc s with
  | Some l =>
      match read_logging (heap s) l with
      | Some g =>
          set_heap (<[l := CLogging {| level := v; format := format g;
                                       destination := destination g |}]> (heap s)) s
      | None => s
      end
  | None => s
  end.

Definition set_uri (u : string) (s : State) : State :=
  let mp := middlewareParams (this s) in
  set_this (eng_set_middlewareParams
              {| mp_endpoint := mp_endpoint mp; mp_psk := mp_psk mp;
                 mp_uri := u; mp_dumpTraffic := mp_dumpTraffic mp |} (this s)) s.
Arguments set_uri _ _ /.

Definition uri (s : State) : string := mp_uri (middlewareParams (this s)).

Definition update_proc (pid : nat) (f : Proc -> Proc) (s : State) : State :=
  match procs s !! pid with
  | Some p => set_procs (<[pid := f p]> (procs s)) s
  | None => s
  end.

Definition alive (pid : nat) (s : State) : bool :=
  match procs s !! pid with
  | Some p => p_alive p
  | None => false
  end.

(** [child.kill(signal)]: nothing is sent to a process that has exited. *)
Definition kill (pid : nat) (sig : Signal) (s : State) : State :=
  update_proc pid
    (fun p => if p_alive p then proc_set_p_signals (p_signals p ++ [sig]) p else p) s.

Definition stdin_write (pid : nat) (doc : option DocVal) (s : State) : State :=
  update_proc pid (fun p => proc_set_p_stdin (p_stdin p ++ [doc]) p) s.

(** [setTimeout(action, delay)] *)
Definition setTimeout (a : TimerAction) (delay : N) (s : State) : State :=
  set_next_timer (S (next_timer s))
    (set_timers (timers s ++ [ {| t_id := next_timer s;
                                  t_due := (now s + delay)%N;
                                  t_action := a |} ]) s).

Definition clearTimeout (tid : nat) (s : State) : State :=
  set_timers (filter (fun t => t_id t ≠ tid) (timers s)) s.

(** A timer delay outside [1 .. 2^31-1] (or NaN) is replaced by 1. *)
Definition timer_delay (d : JSNum) : N :=
  match d with
  | Num z => if (1 <=? z)%Z && (z <=? 2147483647)%Z then Z.to_N z else 1%N
  | NaN => 1%N
  end.

(** [resolve] and [reject]: only a pending promise changes. *)
Definition settle (pr : nat) (v : PState) (s : State) : State :=
  match promises s !! pr with
  | Some Pending => set_promises (<[pr := v]> (promises s)) s
  | _ => s
  end.

(** The closure [spawnChild] of [start]. *)
Definition spawnChild (s : State) : State :=
  let logLevel := get_level s in
  let '(flt, s1) :=
    match logLevel with
    | Some l =>
        if str_truthy l then
          match hack_filter l with
          | Some f => (FltRegex f, set_level (Some "info") s)
          | None => (FltUndefined, s)
          end
        else (FltUndefined, s)
    | None => (FltUndefined, s)
    end in
  let childConfigJson := stringify (heap s1) (engineConfig (this s1)) in
  let pid := length (procs s1) in
  set_this (eng_set_child (CHandle pid) (this s1))
    (set_procs (procs s1 ++ [ {| p_alive := true; p_stdin := [childConfigJson];
                                 p_signals := []; p_logLevel := logLevel;
                                 p_filter := flt; p_exit_waiters := [] |} ]) s1).

(** What the listener of [start] does to its promise: reject with
    ['unknown url'] when the URL has no port, resolve with the parsed port
    otherwise. *)
Definition start_outcome (u : string) : PState :=
  match url_port u with
  | Some port => Resolved (VNum (parseInt10 port))
  | None => Rejected (VStr "unknown url")
  end.

(** The listener registered by [start] on the [start] event. *)
Definition start_listener (s : State) (l : nat * nat) : State :=
  let s1 := clearTimeout l.1 s in
  settle l.2 (start_outcome (uri s1)) s1.

Definition emit_start (s : State) : State :=
  foldl start_listener s (start_listeners s).

Definition proc_filter (pid : nat) (s : State) : FilterVar :=
  match procs s !! pid with
  | Some p => p_filter p
  | None => FltUndefined
  end.

(** [!logLevelFilter || !logRecord.level || logRecord.level.match(logLevelFilter)] *)
Definition should_print (flt : FilterVar) (r : LogRecord) : bool :=
  match flt with
  | FltRegex f =>
      match rec_level r with
      | Some l => negb (str_truthy l) || filter_matches f l
      | None => true
      end
  | _ => true
  end.

Definition is_ready (r : LogRecord) : bool :=
  match msg r with
  | Some m => String.eqb m sentinel
  | None => false
  end.

(** The handler of decoded log records of the process [pid]. *)
Definition on_log (pid : nat) (r : LogRecord) (s : State) : State :=
  let s1 :=
    if is_ready r then
      let s2 := emit_start (set_uri ("http://" +:+ show_field (address r)) s) in
      match procs s2 !! pid with
      | Some p =>
          match p_filter p with
          | FltRegex _ =>
              let s3 := set_level (p_logLevel p) s2 in
              let childConfigJson := stringify (heap s3) (engineConfig (this s3)) in
              setTimeout (ClearFilter pid) 1000 (stdin_write pid childConfigJson s3)
          | _ => s2
          end
      | None => s2
      end
    else s in
  if should_print (proc_filter pid s1) r
  then set_console_log (console_log s1 ++ [r]) s1
  else s1.

Definition crash_messages (code : option Z) (signal : option string) : list string :=
  match code with
  | Some c => ["Engine crashed unexpectedly with code: " +:+ num_to_string (Num c)]
  | None => []
  end ++
  match signal with
  | Some sg => ["Engine was killed unexpectedly by signal: " +:+ sg]
  | None => []
  end.

(** The [exit] handler that [spawnChild] connects to the process. The
    [error] event it emits is recorded; the engine is taken to have a
    listener for it (without one [emit] throws out of the handler). *)
Definition on_exit (code : option Z) (signal : option string) (s : State) : State :=
  let s1 := set_uri "" s in
  if negb (running (this s1)) then s1
  else if bool_decide (code = Some 78%Z) then
    set_error_events
      (error_events s1 ++ ["Engine crashed due to invalid configuration."]) s1
  else
    spawnChild
      (set_console_error (console_error s1 ++ crash_messages code signal) s1).

(** The start-up timer of [start] and the grace timer of the log handler. *)
Definition fire_timer (s : State) (t : Timer) : State :=
  match t_action t with
  | StartupTimeout pr =>
      let s1 := set_this (eng_set_running false (this s)) s in
      let s2 :=
        match child (this s1) with
        | CHandle pid =>
            set_this (eng_set_child CNull (this (kill pid SIGKILL s1)))
                     (kill pid SIGKILL s1)
        | _ => s1
        end in
      settle pr (Rejected (VError "timed out")) s2
  | ClearFilter pid =>
      update_proc pid (proc_set_p_filter FltNull) s
  end.

Inductive Completion (A : Type) :=
| Return (a : A)
| Throw (message : string).
Arguments Return {A} a.
Arguments Throw {A} message.

(** [start()]: the returned promise is named by its index. *)
Definition start (s : State) : Completion nat * State :=
  if running (this s) then (Throw "Only call start() on an engine object once", s)
  else
    let s1 := spawnChild (set_this (eng_set_running true (this s)) s) in
    let pr := length (promises s1) in
    let tid := next_timer s1 in
    let s2 := set_promises (promises s1 ++ [Pending]) s1 in
    let s3 := setTimeout (StartupTimeout pr)
                (timer_delay (startupTimeout (this s2))) s2 in
    (Return pr, set_start_listeners (start_listeners s3 ++ [(tid, pr)]) s3).

(** [stop()]. With [this.child] still [undefined] the test against [null]
    fails, and [childRef.on] throws inside the promise executor, which
    rejects the promise. *)
Definition stop (s : State) : Completion nat * State :=
  match child (this s) with
  | CNull => (Throw "No engine instance running...", s)
  | CUndefined =>
      let s1 := set_this (eng_set_running false (eng_set_child CNull (this s))) s in
      (Return (length (promises s1)),
       set_promises (promises s1 ++ [Rejected VTypeError]) s1)
  | CHandle pid =>
      let s1 := set_this (eng_set_running false (eng_set_child CNull (this s))) s in
      let pr := length (promises s1) in
      let s2 := set_promises (promises s1 ++ [Pending]) s1 in
      let s3 := update_proc pid
                  (fun p => proc_set_p_exit_waiters (p_exit_waiters p ++ [pr]) p) s2 in
      (Return pr, kill pid SIGTERM s3)
  end.

(** ** The event loop *)

Inductive Event :=
| CallStart
| CallStop
| StdoutRecord (pid : nat) (r : LogRecord)
| StdoutGarbage (pid : nat) (buffer : string)
| Exit (pid : nat) (code : option Z) (signal : option string).

Definition is_due (t : N) (tm : Timer) : bool := (t_due tm <=? t)%N.

(** Time passes: the timers that are due leave the timer list and fire, in
    the order in which they were set. *)
Definition advance (dt : N) (s : State) : State :=
  let t := (now s + dt)%N in
  let due := filter (fun tm => is_due t tm = true) (timers s) in
  let rest := filter (fun tm => is_due t tm = false) (timers s) in
  foldl fire_timer (set_timers rest (set_now t s)) due.

(** The [exit] event of a process: the handler of [spawnChild] first, then
    the listeners that [stop()] added. A process exits once. *)
Definition deliver_exit (pid : nat) (code : option Z) (signal : option string)
    (s : State) : State :=
  match procs s !! pid with
  | Some p =>
      if p_alive p then
        let s1 := on_exit code signal (update_proc pid (proc_set_p_alive false) s) in
        foldl (fun st pr => settle pr (Resolved VUndefined) st) s1 (p_exit_waiters p)
      else s
  | None => s
  end.

(** The process [pid] has been spawned: its handlers are connected. *)
Definition spawned (pid : nat) (s : State) : bool :=
  match procs s !! pid with
  | Some _ => true
  | None => false
  end.

(** A call that throws leaves the state as it was. The handlers of the
    output of a process are connected when it is spawned and test nothing:
    what the process wrote before it died may be delivered after its [exit]
    event. A [StdoutRecord] is a record that the JSON stream of the process
    has decoded, a [StdoutGarbage] an error of that stream; the sequences of
    events range over more than a run produces (the stream decodes nothing
    after an error). *)
Definition handle (ev : Event) (s : State) : State :=
  match ev with
  | CallStart => (start s).2
  | CallStop => (stop s).2
  | StdoutRecord pid r => if spawned pid s then on_log pid r s else s
  | StdoutGarbage pid buffer =>
      if spawned pid s then set_console_error (console_error s ++ [buffer]) s else s
  | Exit pid code signal => deliver_exit pid code signal s
  end.

Definition step (s : State) (e : N * Event) : State :=
  handle e.2 (advance e.1 s).

Definition run (tr : list (N * Event)) (s : State) : State :=
  foldl step s tr.

(** ** A concrete host and engine, used to exercise the definitions *)

Definition example_host : Host :=
  {| env_PORT := Some "3000";
     isFinite := fun p => str_truthy p && all_digits p;
     platform := "linux";
     require_resolve := fun pkg => Some ("/node_modules/" +:+ pkg);
     readConfigFile := fun _ => None;
     randomBytes48_hex := "5ec2e7" |}.

(** The field updates unfold under [simpl]. *)
Arguments eng_set_child _ _ /.
Arguments eng_set_middlewareParams _ _ /.
Arguments eng_set_running _ _ /.
Arguments set_this _ _ /.
Arguments set_heap _ _ /.
Arguments set_now _ _ /.
Arguments set_procs _ _ /.
Arguments set_timers _ _ /.
Arguments set_next_timer _ _ /.
Arguments set_start_listeners _ _ /.
Arguments set_promises _ _ /.
Arguments set_error_events _ _ /.
Arguments set_console_log _ _ /.
Arguments set_console_error _ _ /.
Arguments proc_set_p_alive _ _ /.
Arguments proc_set_p_stdin _ _ /.
Arguments proc_set_p_signals _ _ /.
Arguments proc_set_p_filter _ _ /.
Arguments proc_set_p_exit_waiters _ _ /.


Definition example_doc (lvl : option string) : DocVal :=
  {| d_apiKey := "service:example";
     d_origins := None;
     d_frontends := None;
     d_logging := Some {| level := lvl; format := None; destination := None |} |}.

Definition example_sideload (src : loc) : SideloadConfig :=
  {| sc_engineConfig := inr src; sc_endpoint := None;
     sc_graphqlPort := Some (Num 4000); sc_dumpTraffic := None;
     sc_startupTimeout := None; sc_origin := None; sc_frontend := None |}.

Definition example_outcome (lvl : option string) : Outcome :=
  let '(src, h) := alloc_doc (example_doc lvl) [] in
  construct example_host (example_sideload src) h.

(** The engine built from [example_doc] with the logging level "error". *)
Definition example_engine : State :=
  ltac:(let r := eval vm_compute in (example_outcome (Some "error")) in
        match r with Constructed ?s => exact s end).

Definition ready_record (a : string) : LogRecord :=
  {| msg := Some sentinel; address := Some a; rec_level := Some "info" |}.

Definition info_record (m : string) : LogRecord :=
  {| msg := Some m; address := None; rec_level := Some "info" |}.

(** ** Vocabulary for the statements below *)

(** [uri] is empty or some spawned process is alive. *)
Definition live_or_empty (s : State) : Prop :=
  uri s = "" ∨ ∃ pid, alive pid s = true.

(** Events that come from a child process, as opposed to calls of the API. *)
Definition from_child (ev : Event) : bool :=
  match ev with
  | CallStart | CallStop => false
  | StdoutRecord _ _ | StdoutGarbage _ _ | Exit _ _ _ => true
  end.

(** Events of a child that has not announced its start-up. *)
Definition quiet_event (ev : Event) : bool :=
  match ev with
  | CallStart | CallStop => false
  | StdoutRecord _ r => negb (is_ready r)
  | StdoutGarbage _ _ | Exit _ _ _ => true
  end.

(** The state between [start()] and the first of start-up record and
    time-out, as long as only the children act: the promise [pr] is
    pending, its timer [tid] is the only timer, every process but the last
    has exited, the last one is [this.child], no signal was sent and no
    [stop()] waits for an exit. *)
Definition starting (pr tid : nat) (due : N) (s : State) : Prop :=
  running (this s) = true ∧
  promises s !! pr = Some Pending ∧
  timers s = [ {| t_id := tid; t_due := due; t_action := StartupTimeout pr |} ] ∧
  start_listeners s = [(tid, pr)] ∧
  (now s < due)%N ∧
  Forall (λ q, p_exit_waiters q = [] ∧ p_signals q = []) (procs s) ∧
  ∃ ps p, procs s = ps ++ [p] ∧ Forall (λ q, p_alive q = false) ps ∧
          child (this s) = CHandle (length ps).

(** No start-up timer is pending and no process was sent SIGKILL. *)
Definition unthreatened (s : State) : Prop :=
  running (this s) = true ∧
  Forall (λ t, ∃ pid, t_action t = ClearFilter pid) (timers s) ∧
  Forall (λ sg, SIGKILL ∉ sg) (p_signals <$> procs s).

Definition keeps_settled (s s' : State) : Prop :=
  ∀ i v, promises s !! i = Some v → v ≠ Pending → promises s' !! i = Some v.

(** A document with its logging level replaced. *)
Definition with_level (lv : option string) (d : DocVal) : DocVal :=
  {| d_apiKey := d_apiKey d; d_origins := d_origins d;
     d_frontends := d_frontends d;
     d_logging := (λ g, {| level := lv; format := format g;
                           destination := destination g |}) <$> d_logging d |}.

(** The store of [s] is the store of [s0] up to the level of the logging
    object of the engine's configuration. *)
Definition level_only (s0 s : State) : Prop :=
  engineConfig (this s) = engineConfig (this s0) ∧
  ∃ lg g lv,
    logging_loc s0 = Some lg ∧ read_logging (heap s0) lg = Some g ∧
    heap s = <[lg := CLogging {| level := lv; format := format g;
                                 destination := destination g |}]> (heap s0).

(** A field of the process [k], if it has been spawned. *)
Definition field_at {A : Type} (g : Proc → A) (k : nat) (s : State) : option A :=
  g <$> procs s !! k.

(** The start-up record of the process [k]. *)
Definition ready_from (k : nat) (ev : Event) : bool :=
  match ev with
  | StdoutRecord pid r => bool_decide (pid = k) && is_ready r
  | _ => false
  end.

(** The grace timer of the process [k]. *)
Definition clears (k : nat) (t : Timer) : Prop := t_action t = ClearFilter k.

#[global] Instance TimerAction_eq_dec : EqDecision TimerAction.
Proof. solve_decision. Defined.

#[global] Instance clears_dec k t : Decision (clears k t).
Proof. unfold clears. apply _. Defined.

(** Timer identifiers are issued in increasing order, and the timer a
    listener of [start] clears is a start-up timer. *)
Definition ids_ok (s : State) : Prop :=
  Forall (λ t, t_id t < next_timer s) (timers s) ∧
  Forall (λ l : nat * nat, l.1 < next_timer s) (start_listeners s) ∧
  Forall (λ t, ∀ l : nat * nat, l ∈ start_listeners s → t_id t = l.1 →
               ∃ p, t_action t = StartupTimeout p) (timers s).

(** The process [k] was spawned with a filter for the requested level [lvl]
    and has not yet announced its start-up: [docs] is what was written to
    it, and no grace timer is set for it. *)
Definition hacked (k : nat) (F : LevelFilter) (lvl : string)
    (docs : list (option DocVal)) (s : State) : Prop :=
  field_at p_filter k s = Some (FltRegex F) ∧
  field_at p_logLevel k s = Some (Some lvl) ∧
  field_at p_stdin k s = Some docs ∧
  Forall (λ t, ¬ clears k t) (timers s).

(** After the start-up record of [k]: until [T1] the filter is in place and
    a grace timer due at [T1] is pending, none for [k] is due earlier; from
    [T1] on the filter is null. *)
Definition grace (k : nat) (F : LevelFilter) (T1 : N) (s : State) : Prop :=
  ids_ok s ∧ (T1 ≤ now s + 1000)%N ∧
  if (now s <? T1)%N
  then field_at p_filter k s = Some (FltRegex F) ∧
       (∃ t, t ∈ timers s ∧ clears k t ∧ t_due t = T1) ∧
       Forall (λ t, clears k t → (T1 ≤ t_due t)%N) (timers s)
  else field_at p_filter k s = Some FltNull.

(** Cells other than [http] objects and arrays of origins. *)
Definition plain (c : Cell) : bool :=
  match c with
  | CHttp _ | COrigins _ => false
  | _ => true
  end.

(** [h'] has the [http] objects and the arrays of origins of [h], no more
    and no less. *)
Definition keeps_origins (h h' : Heap) : Prop :=
  (∀ l, read_http h' l = read_http h l) ∧
  (∀ l os, h' !! l = Some (COrigins os) ↔ h !! l = Some (COrigins os)).

(** [Object.assign(http, { headerSecret: psk })] on a value. *)
Definition with_secret (psk : string) (ht : HttpObj) : HttpObj :=
  {| url := url ht; headerSecret := Some psk |}.

(** Whether a process is alive, and the promises waiting for its exit. *)
Definition exit_view (p : Proc) : bool * list nat := (p_alive p, p_exit_waiters p).

(** The promise [pr] is pending and nothing will ever settle it: no listener
    of [start], no start-up timer and no live process refers to it. *)
Definition abandoned (pr : nat) (s : State) : Prop :=
  promises s !! pr = Some Pending ∧
  (pr ∉ snd <$> start_listeners s) ∧
  Forall (λ t, t_action t ≠ StartupTimeout pr) (timers s) ∧
  Forall (λ x : bool * list nat, x.1 = true → pr ∉ x.2) (exit_view <$> procs s).

(** ** Concrete inputs *)

(** The document of [example_engine] in a store of its own. *)
Definition example_source : loc * Heap :=
  alloc_doc (example_doc (Some "error")) [].

(** A document of a caller with an origin and a frontend of its own. *)
Definition caller_doc : DocVal :=
  {| d_apiKey := "service:example";
     d_origins := Some
       [ {| ov_params := {| requestTimeout := None; maxConcurrentRequests := None;
                            supportsBatch := None |};
            ov_http := Some {| url := "http://origin.example/graphql";
                               headerSecret := Some "caller-secret" |};
            ov_other := None |} ];
     d_frontends := Some
       [ {| fe_extensions := None; fe_host := "0.0.0.0"; fe_endpoint := "/api";
            fe_port := Num 8080 |} ];
     d_logging := Some {| level := Some "info"; format := None;
                          destination := None |} |}.

Definition caller_source : loc * Heap := alloc_doc caller_doc [].

(** The engine built from the caller's object. *)
Definition caller_engine : State :=
  ltac:(let r := eval vm_compute in
          (construct example_host (example_sideload caller_source.1) caller_source.2) in
        match r with Constructed ?s => exact s end).

(** The caller's object as it reads after the construction. *)
Definition caller_doc_after : DocVal :=
  {| d_apiKey := "service:example";
     d_origins := Some
       [ {| ov_params := {| requestTimeout := None; maxConcurrentRequests := None;
                            supportsBatch := None |};
            ov_http := Some {| url := "http://origin.example/graphql";
                               headerSecret := Some "5ec2e7" |};
            ov_other := None |} ];
     d_frontends := Some
       [ {| fe_extensions := None; fe_host := "0.0.0.0"; fe_endpoint := "/api";
            fe_port := Num 8080 |};
         {| fe_extensions := None; fe_host := "127.0.0.1"; fe_endpoint := "/graphql";
            fe_port := Num 0 |} ];
     d_logging := Some {| level := Some "info"; format := Some "JSON";
                          destination := Some "STDOUT" |} |}.

(** The levels of the documents written to the process [k]. *)
Definition doc_level (d : option DocVal) : option string :=
  match d with
  | Some {| d_logging := Some g |} => level g
  | _ => None
  end.

Definition stdin_levels (k : nat) (s : State) : option (list (option string)) :=
  map doc_level <$> field_at p_stdin k s.

(** A crash of the first child before and after its start-up record, each
    followed by the start-up record of the replacement. *)
Definition crash_before_ready : list (N * Event) :=
  [ (0%N, CallStart);
    (10%N, Exit 0 (Some 1%Z) None);
    (10%N, StdoutRecord 1 (ready_record "127.0.0.1:54321")) ].

Definition crash_after_ready : list (N * Event) :=
  [ (0%N, CallStart);
    (10%N, StdoutRecord 0 (ready_record "127.0.0.1:54321"));
    (10%N, Exit 0 (Some 1%Z) None);
    (10%N, StdoutRecord 1 (ready_record "127.0.0.1:54322")) ].

(** The first child exits with the code for an invalid configuration. *)
Definition fatal_exit : list (N * Event) :=
  [ (0%N, CallStart); (5%N, Exit 0 (Some 78%Z) None) ].

(** A promise settles once: the list of promises after [settle]. *)
Definition settle_in (pr : nat) (v : PState) (l : list PState) : list PState :=
  alter (fun x => match x with Pending => v | _ => x end) pr l.


(** ** Vocabulary for the constructor *)

(** The cells by kind. *)
Definition as_frontends (c : Cell) : option (list FrontendConfig) :=
  match c with CFrontends fs => Some fs | _ => None end.

Definition as_logging (c : Cell) : option LoggingObj :=
  match c with CLogging g => Some g | _ => None end.

Definition as_http (c : Cell) : option HttpObj :=
  match c with CHttp ht => Some ht | _ => None end.

Definition as_config (c : Cell) : option ConfigObj :=
  match c with CConfig c => Some c | _ => None end.

(** The frontend the constructor adds for the engine [s]. *)
Definition injected_frontend (s : State) : FrontendConfig :=
  {| fe_extensions := extensions (frontendParams (this s));
     fe_host := "127.0.0.1";
     fe_endpoint := mp_endpoint (middlewareParams (this s));
     fe_port := Num 0 |}.

(** The platforms for which a binary package exists. *)
Definition supported_platforms : list string := ["darwin"; "linux"; "win32"].

(** A host without [PORT] in its environment, and one of another platform. *)
Definition portless_host : Host :=
  {| env_PORT := None;
     isFinite := isFinite example_host;
     platform := "linux";
     require_resolve := require_resolve example_host;
     readConfigFile := fun _ => None;
     randomBytes48_hex := "5ec2e7" |}.

Definition portless_sideload (src : loc) : SideloadConfig :=
  {| sc_engineConfig := inr src; sc_endpoint := None;
     sc_graphqlPort := Some (Num 0); sc_dumpTraffic := None;
     sc_startupTimeout := None; sc_origin := None; sc_frontend := None |}.

(** ** Vocabulary for the runs of the supervisor *)

(** What was written to a process, sent to it and registered on it is kept;
    its closure constant is kept; a process that exited stays so. *)
Definition proc_grows (p p' : Proc) : Prop :=
  p_stdin p `prefix_of` p_stdin p' ∧
  p_signals p `prefix_of` p_signals p' ∧
  p_exit_waiters p `prefix_of` p_exit_waiters p' ∧
  p_logLevel p' = p_logLevel p ∧
  (p_alive p = false → p_alive p' = false).

(** [s'] continues [s]: the three output channels and the clock only grow,
    every process of [s] is a process of [s'] with the same number. *)
Definition grows (s s' : State) : Prop :=
  console_log s `prefix_of` console_log s' ∧
  console_error s `prefix_of` console_error s' ∧
  error_events s `prefix_of` error_events s' ∧
  (now s ≤ now s')%N ∧
  length (promises s) ≤ length (promises s') ∧
  ∀ k p, procs s !! k = Some p → ∃ p', procs s' !! k = Some p' ∧ proc_grows p p'.

(** The engine [s0] asks for no level that [spawnChild] rewrites, and [s]
    is as such an engine runs: the store is that of [s0], only start-up
    timers are pending, and every process was spawned without a filter and
    has been written the one document of [s0]. *)
Definition unfiltered (s0 s : State) : Prop :=
  heap s = heap s0 ∧ engineConfig (this s) = engineConfig (this s0) ∧
  Forall (λ t, ∃ pr, t_action t = StartupTimeout pr) (timers s) ∧
  Forall (λ p, p_filter p = FltUndefined ∧ p_logLevel p = get_level s0 ∧
               p_stdin p = [stringify (heap s0) (engineConfig (this s0))])
         (procs s).

(** Every promise that a listener, a timer or a process refers to exists. *)
Definition refs_ok (s : State) : Prop :=
  Forall (λ l : nat * nat, l.2 < length (promises s)) (start_listeners s) ∧
  Forall (λ t, ∀ pr, t_action t = StartupTimeout pr → pr < length (promises s))
         (timers s) ∧
  Forall (λ p, Forall (λ w, w < length (promises s)) (p_exit_waiters p)) (procs s).

(** Among the live processes, [pid] and no other has the promise [pr]
    waiting for its exit. *)
Definition waits_on (pr pid : nat) (ps : list Proc) : Prop :=
  (∃ p, ps !! pid = Some p ∧ p_alive p = true ∧ pr ∈ p_exit_waiters p) ∧
  ∀ q p, ps !! q = Some p → p_alive p = true → pr ∈ p_exit_waiters p → q = pid.

(** The promise [pr] of a [stop()] is pending and waits for the exit of the
    live process [pid], and for nothing else. *)
Definition awaited (pr pid : nat) (s : State) : Prop :=
  promises s !! pr = Some Pending ∧
  (pr ∉ snd <$> start_listeners s) ∧
  Forall (λ t, t_action t ≠ StartupTimeout pr) (timers s) ∧
  waits_on pr pid (procs s).

(** The promise [pr] of a [stop()] of the process [pid]: pending while the
    process lives, resolved once it has exited. *)
Definition stop_promise (pr pid : nat) (s : State) : Prop :=
  awaited pr pid s ∨
  ((∃ p, procs s !! pid = Some p ∧ p_alive p = false) ∧
   promises s !! pr = Some (Resolved VUndefined)).

(** Calls of [start()] apart. *)
Definition not_start (ev : Event) : bool :=
  match ev with
  | CallStart => false
  | _ => true
  end.

(** ** Vocabulary for addresses and ports *)

(** The value of a decimal numeral read from the left, [a] being the value
    of the digits already read. *)
Fixpoint uint_val (d : Decimal.uint) (a : Z) : Z :=
  match d with
  | Decimal.Nil => a
  | Decimal.D0 l => uint_val l (10 * a + 0)
  | Decimal.D1 l => uint_val l (10 * a + 1)
  | Decimal.D2 l => uint_val l (10 * a + 2)
  | Decimal.D3 l => uint_val l (10 * a + 3)
  | Decimal.D4 l => uint_val l (10 * a + 4)
  | Decimal.D5 l => uint_val l (10 * a + 5)
  | Decimal.D6 l => uint_val l (10 * a + 6)
  | Decimal.D7 l => uint_val l (10 * a + 7)
  | Decimal.D8 l => uint_val l (10 * a + 8)
  | Decimal.D9 l => uint_val l (10 * a + 9)
  end%Z.

Fixpoint string_forall (P : ascii → bool) (s : string) : bool :=
  match s with
  | String c r => P c && string_forall P r
  | EmptyString => true
  end.

(** Characters of a host name: no white space, no colon, and none of the
    characters that end the host part of a URL. *)
Definition host_char (c : ascii) : bool :=
  negb (ascii_in non_host_chars c) && negb (Ascii.eqb c ":")
  && negb (is_js_space c).

(** At most the process spawned last is alive, and it is [this.child]
    while the supervisor is running. *)
Definition last_only (s : State) : Prop :=
  ∃ n b, p_alive <$> procs s = replicate n false ++ [b] ∧
         (running (this s) = true → child (this s) = CHandle n).

(** ** More concrete inputs *)

(** No option [graphqlPort]: the port comes from the environment. *)
Definition env_sideload (src : loc) : SideloadConfig :=
  {| sc_engineConfig := inr src; sc_endpoint := None;
     sc_graphqlPort := None; sc_dumpTraffic := None;
     sc_startupTimeout := None; sc_origin := None; sc_frontend := None |}.

(** A host with one configuration file. *)
Definition file_host : Host :=
  {| env_PORT := env_PORT example_host;
     isFinite := isFinite example_host;
     platform := "linux";
     require_resolve := require_resolve example_host;
     readConfigFile := fun p =>
       if String.eqb p "engine.json" then Some caller_doc else None;
     randomBytes48_hex := "5ec2e7" |}.

Definition file_sideload : SideloadConfig :=
  {| sc_engineConfig := inl "engine.json"; sc_endpoint := None;
     sc_graphqlPort := Some (Num 4000); sc_dumpTraffic := None;
     sc_startupTimeout := None; sc_origin := None; sc_frontend := None |}.

(** [start()], the start-up record, [stop()] and [start()] again at once:
    a grace timer and a start-up timer are due at the same time. *)
Definition two_timers : State :=
  run [ (0%N, CallStart);
        (10%N, StdoutRecord 0 (ready_record "127.0.0.1:54321"));
        (0%N, CallStop);
        (0%N, CallStart) ] example_engine.

(** The level of the configuration and the level each closure read at
    spawn time are the requested level [lvl] or "info". *)
Definition levels_ok (lvl : string) (s : State) : Prop :=
  (get_level s = Some lvl ∨ get_level s = Some "info") ∧
  Forall (λ p, p_logLevel p = Some lvl ∨ p_logLevel p = Some "info") (procs s).

(** ** Vocabulary for late output *)

(** The event [e], arriving in [s], is not the start-up record of a process
    that has exited. *)
Definition timely (s : State) (e : N * Event) : bool :=
  match e.2 with
  | StdoutRecord pid r => negb (is_ready r) || alive pid s
  | _ => true
  end.

(** No start-up record of [tr] arrives after the exit of its process. *)
Fixpoint punctual (tr : list (N * Event)) (s : State) : bool :=
  match tr with
  | [] => true
  | e :: tr' => timely s e && punctual tr' (step s e)
  end.

(** [start()], the start-up time-out after 1000 ms, and the exit of the
    process it killed. *)
Definition killed_at_timeout : list (N * Event) :=
  [ (0%N, CallStart); (1000%N, Exit 0 None (Some "SIGKILL")) ].

(** [stop()] and [start()] at once, then the exit of the stopped process. *)
Definition restart_race : list (N * Event) :=
  [ (0%N, CallStart); (10%N, CallStop); (0%N, CallStart);
    (5%N, Exit 0 None (Some "SIGTERM")) ].

(** The first child exits with code 1 before its start-up record. *)
Definition early_crash : list (N * Event) :=
  [ (0%N, CallStart); (10%N, Exit 0 (Some 1%Z) None) ].

(** ** Frame lemmas: what each operation leaves alone *)

Ltac break_match := repeat (case_match; simpl in *; try done).

(** Rewrite the goal with every conjunct of a frame lemma. *)
Ltac rw_conj H :=
  lazymatch type of H with
  | _ ∧ _ =>
      let H1 := fresh in
      destruct H as [H1 H]; try rewrite !H1; clear H1; rw_conj H
  | _ => try rewrite !H; clear H
  end.

Ltac rw_frame L :=
  let H := fresh in pose proof L as H; cbv zeta in H; rw_conj H.

Lemma alive_spawned pid s : alive pid s = true → spawned pid s = true.
Proof. unfold alive, spawned. by destruct (procs s !! pid). Qed.

Lemma spawned_length pid s s' :
  length (procs s') = length (procs s) → spawned pid s' = spawned pid s.
Proof.
  intros Hl. unfold spawned.
  destruct (procs s' !! pid) eqn:H1, (procs s !! pid) eqn:H2; try done.
  - apply lookup_lt_Some in H1. apply lookup_ge_None in H2. lia.
  - apply lookup_lt_Some in H2. apply lookup_ge_None in H1. lia.
Qed.

Lemma settle_frame pr v s :
  this (settle pr v s) = this s ∧ heap (settle pr v s) = heap s ∧
  now (settle pr v s) = now s ∧ procs (settle pr v s) = procs s ∧
  timers (settle pr v s) = timers s ∧
  next_timer (settle pr v s) = next_timer s ∧
  start_listeners (settle pr v s) = start_listeners s ∧
  error_events (settle pr v s) = error_events s ∧
  console_log (settle pr v s) = console_log s ∧
  console_error (settle pr v s) = console_error s ∧
  length (promises (settle pr v s)) = length (promises s).
Proof. unfold settle. break_match. by rewrite length_insert. Qed.

Lemma set_level_frame v s :
  this (set_level v s) = this s ∧
  now (set_level v s) = now s ∧ procs (set_level v s) = procs s ∧
  timers (set_level v s) = timers s ∧
  next_timer (set_level v s) = next_timer s ∧
  start_listeners (set_level v s) = start_listeners s ∧
  promises (set_level v s) = promises s ∧
  error_events (set_level v s) = error_events s ∧
  console_log (set_level v s) = console_log s ∧
  console_error (set_level v s) = console_error s.
Proof. unfold set_level. break_match. Qed.

Lemma update_proc_frame pid f s :
  this (update_proc pid f s) = this s ∧ heap (update_proc pid f s) = heap s ∧
  now (update_proc pid f s) = now s ∧
  timers (update_proc pid f s) = timers s ∧
  next_timer (update_proc pid f s) = next_timer s ∧
  start_listeners (update_proc pid f s) = start_listeners s ∧
  promises (update_proc pid f s) = promises s ∧
  error_events (update_proc pid f s) = error_events s ∧
  console_log (update_proc pid f s) = console_log s ∧
  console_error (update_proc pid f s) = console_error s ∧
  length (procs (update_proc pid f s)) = length (procs s).
Proof. unfold update_proc. break_match. by rewrite length_insert. Qed.

Lemma update_proc_lookup pid f s q :
  procs (update_proc pid f s) !! q =
  if decide (q = pid) then f <$> procs s !! q else procs s !! q.
Proof.
  unfold update_proc. destruct (procs s !! pid) as [p|] eqn:Hp; simpl.
  - case_decide; subst.
    + rewrite list_lookup_insert_eq by (by eapply lookup_lt_Some). by rewrite Hp.
    + by rewrite list_lookup_insert_ne.
  - case_decide; subst; [by rewrite Hp|done].
Qed.

Lemma setTimeout_frame a d s :
  this (setTimeout a d s) = this s ∧ heap (setTimeout a d s) = heap s ∧
  now (setTimeout a d s) = now s ∧ procs (setTimeout a d s) = procs s ∧
  start_listeners (setTimeout a d s) = start_listeners s ∧
  promises (setTimeout a d s) = promises s ∧
  error_events (setTimeout a d s) = error_events s ∧
  console_log (setTimeout a d s) = console_log s ∧
  console_error (setTimeout a d s) = console_error s.
Proof. done. Qed.

Lemma clearTimeout_frame tid s :
  this (clearTimeout tid s) = this s ∧ heap (clearTimeout tid s) = heap s ∧
  now (clearTimeout tid s) = now s ∧ procs (clearTimeout tid s) = procs s ∧
  next_timer (clearTimeout tid s) = next_timer s ∧
  start_listeners (clearTimeout tid s) = start_listeners s ∧
  promises (clearTimeout tid s) = promises s ∧
  error_events (clearTimeout tid s) = error_events s ∧
  console_log (clearTimeout tid s) = console_log s ∧
  console_error (clearTimeout tid s) = console_error s.
Proof. done. Qed.

Lemma spawnChild_frame s :
  this (spawnChild s) = eng_set_child (CHandle (length (procs s))) (this s) ∧
  now (spawnChild s) = now s ∧
  timers (spawnChild s) = timers s ∧
  next_timer (spawnChild s) = next_timer s ∧
  start_listeners (spawnChild s) = start_listeners s ∧
  promises (spawnChild s) = promises s ∧
  error_events (spawnChild s) = error_events s ∧
  console_log (spawnChild s) = console_log s ∧
  console_error (spawnChild s) = console_error s.
Proof.
  unfold spawnChild.
  destruct (set_level_frame (Some "info") s) as (?&?&?&?&?&?&?&?&?&?).
  break_match; simplify_eq; simpl; repeat split; congruence.
Qed.

(** [spawnChild] appends one live process and touches no other. *)
Lemma spawnChild_procs s :
  ∃ p, procs (spawnChild s) = procs s ++ [p] ∧ p_alive p = true ∧
       p_signals p = [] ∧ p_exit_waiters p = [] ∧ p_logLevel p = get_level s.
Proof.
  unfold spawnChild.
  destruct (set_level_frame (Some "info") s) as (?&?&Hp&?).
  break_match; simplify_eq; simpl; rewrite ?Hp; eauto 10.
Qed.

Lemma start_listener_frame s l :
  this (start_listener s l) = this s ∧ heap (start_listener s l) = heap s ∧
  now (start_listener s l) = now s ∧ procs (start_listener s l) = procs s ∧
  next_timer (start_listener s l) = next_timer s ∧
  start_listeners (start_listener s l) = start_listeners s ∧
  error_events (start_listener s l) = error_events s ∧
  console_log (start_listener s l) = console_log s ∧
  console_error (start_listener s l) = console_error s ∧
  length (promises (start_listener s l)) = length (promises s).
Proof.
  unfold start_listener.
  rw_frame (settle_frame l.2 (start_outcome (uri (clearTimeout l.1 s)))
              (clearTimeout l.1 s)). done.
Qed.

Lemma fold_listeners_frame ls s :
  let s' := foldl start_listener s ls in
  this s' = this s ∧ heap s' = heap s ∧ now s' = now s ∧ procs s' = procs s ∧
  next_timer s' = next_timer s ∧ start_listeners s' = start_listeners s ∧
  error_events s' = error_events s ∧ console_log s' = console_log s ∧
  console_error s' = console_error s ∧
  length (promises s') = length (promises s).
Proof.
  revert s. induction ls as [|l ls IH]; intros s; simpl; [done|].
  specialize (IH (start_listener s l)). simpl in IH.
  rw_conj IH. apply start_listener_frame.
Qed.

Lemma emit_start_frame s :
  this (emit_start s) = this s ∧ heap (emit_start s) = heap s ∧
  now (emit_start s) = now s ∧ procs (emit_start s) = procs s ∧
  next_timer (emit_start s) = next_timer s ∧
  start_listeners (emit_start s) = start_listeners s ∧
  error_events (emit_start s) = error_events s ∧
  console_log (emit_start s) = console_log s ∧
  console_error (emit_start s) = console_error s ∧
  length (promises (emit_start s)) = length (promises s).
Proof. apply fold_listeners_frame. Qed.

Lemma settle_all_frame v ws s :
  let s' := foldl (λ st pr, settle pr v st) s ws in
  this s' = this s ∧ heap s' = heap s ∧ now s' = now s ∧ procs s' = procs s ∧
  timers s' = timers s ∧ next_timer s' = next_timer s ∧
  start_listeners s' = start_listeners s ∧
  error_events s' = error_events s ∧ console_log s' = console_log s ∧
  console_error s' = console_error s ∧
  length (promises s') = length (promises s).
Proof.
  revert s. induction ws as [|w ws IH]; intros s; simpl; [done|].
  specialize (IH (settle w v s)). simpl in IH.
  rw_conj IH. apply settle_frame.
Qed.

Lemma uri_set_uri u s : uri (set_uri u s) = u.
Proof. done. Qed.

(** ** Exit of a child *)


(** Every operation of the supervisor is traced back to the frame lemmas of
    the primitives it is made of. *)
Lemma kill_frame pid sg s :
  this (kill pid sg s) = this s ∧ heap (kill pid sg s) = heap s ∧
  now (kill pid sg s) = now s ∧
  timers (kill pid sg s) = timers s ∧
  next_timer (kill pid sg s) = next_timer s ∧
  start_listeners (kill pid sg s) = start_listeners s ∧
  promises (kill pid sg s) = promises s ∧
  error_events (kill pid sg s) = error_events s ∧
  console_log (kill pid sg s) = console_log s ∧
  console_error (kill pid sg s) = console_error s ∧
  length (procs (kill pid sg s)) = length (procs s).
Proof. apply update_proc_frame. Qed.

Lemma stdin_write_frame pid d s :
  this (stdin_write pid d s) = this s ∧ heap (stdin_write pid d s) = heap s ∧
  now (stdin_write pid d s) = now s ∧
  timers (stdin_write pid d s) = timers s ∧
  next_timer (stdin_write pid d s) = next_timer s ∧
  start_listeners (stdin_write pid d s) = start_listeners s ∧
  promises (stdin_write pid d s) = promises s ∧
  error_events (stdin_write pid d s) = error_events s ∧
  console_log (stdin_write pid d s) = console_log s ∧
  console_error (stdin_write pid d s) = console_error s ∧
  length (procs (stdin_write pid d s)) = length (procs s).
Proof. apply update_proc_frame. Qed.

Ltac frame_step :=
  match goal with
  | |- context [settle ?a ?b ?c] => progress rw_frame (settle_frame a b c)
  | |- context [set_level ?a ?b] => progress rw_frame (set_level_frame a b)
  | |- context [kill ?a ?b ?c] => progress rw_frame (kill_frame a b c)
  | |- context [stdin_write ?a ?b ?c] => progress rw_frame (stdin_write_frame a b c)
  | |- context [update_proc ?a ?b ?c] => progress rw_frame (update_proc_frame a b c)
  | |- context [setTimeout ?a ?b ?c] => progress rw_frame (setTimeout_frame a b c)
  | |- context [clearTimeout ?a ?b] => progress rw_frame (clearTimeout_frame a b)
  | |- context [emit_start ?a] => progress rw_frame (emit_start_frame a)
  | |- context [spawnChild ?a] => progress rw_frame (spawnChild_frame a)
  end.

Ltac frames := simpl; repeat (frame_step; simpl).

Lemma update_proc_fmap {A} (g : Proc → A) pid f s :
  (∀ p, g (f p) = g p) →
  g <$> procs (update_proc pid f s) = g <$> procs s.
Proof.
  intros Hg. unfold update_proc. destruct (procs s !! pid) as [p|] eqn:Hp; [|done].
  simpl. rewrite list_fmap_insert, Hg. apply list_insert_id.
  by rewrite list_lookup_fmap, Hp.
Qed.

Lemma kill_fmap {A} (g : Proc → A) pid sg s :
  (∀ l p, g (proc_set_p_signals l p) = g p) →
  g <$> procs (kill pid sg s) = g <$> procs s.
Proof.
  intros Hg. unfold kill. apply update_proc_fmap. intros p.
  destruct (p_alive p); [apply Hg|done].
Qed.

Lemma stdin_write_fmap {A} (g : Proc → A) pid d s :
  (∀ l p, g (proc_set_p_stdin l p) = g p) →
  g <$> procs (stdin_write pid d s) = g <$> procs s.
Proof. intros Hg. unfold stdin_write. apply update_proc_fmap. intros p. apply Hg. Qed.

Lemma settle_lookup pr v s i :
  promises (settle pr v s) !! i =
  match promises s !! i with
  | Some Pending => if decide (i = pr) then Some v else Some Pending
  | x => x
  end.
Proof.
  unfold settle. destruct (decide (i = pr)) as [->|Hne].
  - destruct (promises s !! pr) as [[]|] eqn:Hp; simpl; rewrite ?Hp; try done.
    rewrite list_lookup_insert_eq; [done|]. by eapply lookup_lt_Some.
  - destruct (promises s !! pr) as [[]|] eqn:Hp; simpl;
      rewrite ?list_lookup_insert_ne by done; by repeat case_match.
Qed.

Lemma start_listener_uri s l : uri (start_listener s l) = uri s.
Proof. unfold uri. by rw_frame (start_listener_frame s l). Qed.

Lemma start_listener_promise s l i :
  promises (start_listener s l) !! i =
  match promises s !! i with
  | Some Pending => if decide (i = l.2) then Some (start_outcome (uri s)) else Some Pending
  | x => x
  end.
Proof. unfold start_listener. by rewrite settle_lookup. Qed.

Lemma start_outcome_settled u : start_outcome u ≠ Pending.
Proof. unfold start_outcome. by case_match. Qed.

Lemma fold_listeners_promise ls s i :
  promises (foldl start_listener s ls) !! i =
  match promises s !! i with
  | Some Pending =>
      if bool_decide (i ∈ ls.*2) then Some (start_outcome (uri s)) else Some Pending
  | x => x
  end.
Proof.
  revert s. induction ls as [|[tid pr] ls IH]; intros s; simpl.
  - by repeat case_match.
  - rewrite IH, start_listener_uri, start_listener_promise. simpl.
    destruct (promises s !! i) as [[]|]; try done.
    destruct (decide (i = pr)) as [->|Hne].
    + pose proof (start_outcome_settled (uri s)).
      destruct (start_outcome (uri s)); [done|..];
        by rewrite bool_decide_eq_true_2 by constructor.
    + destruct (bool_decide (i ∈ ls.*2)) eqn:Hin.
      * apply bool_decide_eq_true_1 in Hin.
        rewrite bool_decide_eq_true_2; [done|by constructor].
      * apply bool_decide_eq_false_1 in Hin.
        rewrite bool_decide_eq_false_2; [done|].
        by intros [?|?]%elem_of_cons.
Qed.

Lemma on_log_this pid r s :
  this (on_log pid r s) =
  this (if is_ready r then set_uri ("http://" +:+ show_field (address r)) s else s).
Proof.
  unfold on_log. destruct (is_ready r); repeat case_match; simpl; by frames.
Qed.

Lemma on_log_fmap {A} (g : Proc → A) pid r s :
  (∀ d p, g (proc_set_p_stdin d p) = g p) →
  g <$> procs (on_log pid r s) = g <$> procs s.
Proof.
  intros Hg. unfold on_log.
  destruct (is_ready r); repeat case_match; simpl; rewrite ?stdin_write_fmap by done;
    by frames.
Qed.

Lemma on_log_promises pid r s :
  promises (on_log pid r s) =
  promises (if is_ready r
            then emit_start (set_uri ("http://" +:+ show_field (address r)) s)
            else s).
Proof.
  unfold on_log. destruct (is_ready r); repeat case_match; simpl; by frames.
Qed.

Lemma on_log_frame pid r s :
  error_events (on_log pid r s) = error_events s ∧
  console_error (on_log pid r s) = console_error s ∧
  start_listeners (on_log pid r s) = start_listeners s ∧
  now (on_log pid r s) = now s ∧
  length (procs (on_log pid r s)) = length (procs s).
Proof.
  unfold on_log. destruct (is_ready r); repeat case_match; simpl; by frames.
Qed.

(** ** The start-up record *)

(** C4. A record with [msg] "Started HTTP server." from a live child sets
    [uri] to [http://] followed by its address, and every pending promise of
    a [start()] call is resolved with the port parsed from that address, or
    rejected with 'unknown url' when the address has no port; for the
    address 127.0.0.1:54321 the outcome is the number 54321. The record is
    not treated as a crash: [running], [this.child], the [error] events,
    [console.error] and the processes' liveness and signals are unchanged. *)
Theorem readiness_settles_start (s : State) (pid : nat) (r : LogRecord)
    (a : string) :
  alive pid s = true → is_ready r = true → address r = Some a →
  let s' := handle (StdoutRecord pid r) s in
  uri s' = "http://" +:+ a ∧
  (∀ tid pr, (tid, pr) ∈ start_listeners s → promises s !! pr = Some Pending →
     promises s' !! pr =
       Some match url_port ("http://" +:+ a) with
            | Some port => Resolved (VNum (parseInt10 port))
            | None => Rejected (VStr "unknown url")
            end) ∧
  start_outcome "http://127.0.0.1:54321" = Resolved (VNum (Num 54321)) ∧
  running (this s') = running (this s) ∧ child (this s') = child (this s) ∧
  error_events s' = error_events s ∧ console_error s' = console_error s ∧
  p_alive <$> procs s' = p_alive <$> procs s ∧
  p_signals <$> procs s' = p_signals <$> procs s.
Proof.
  intros Hal Hr Ha. cbv zeta. simpl. rewrite (alive_spawned _ _ Hal).
  unfold uri.
  rewrite on_log_this, on_log_promises, Hr, Ha. simpl.
  rw_frame (on_log_frame pid r s).
  rewrite !on_log_fmap by done.
  split_and!; try done.
  intros tid pr Hin Hp. unfold emit_start. rewrite fold_listeners_promise.
  simpl. rewrite Hp.
  rewrite bool_decide_eq_true_2; [done|].
  apply list_elem_of_fmap. by exists (tid, pr).
Qed.

(** ** Timers and the passing of time *)

Lemma fire_timer_frame s t :
  heap (fire_timer s t) = heap s ∧ now (fire_timer s t) = now s ∧
  timers (fire_timer s t) = timers s ∧
  next_timer (fire_timer s t) = next_timer s ∧
  start_listeners (fire_timer s t) = start_listeners s ∧
  error_events (fire_timer s t) = error_events s ∧
  console_log (fire_timer s t) = console_log s ∧
  console_error (fire_timer s t) = console_error s ∧
  middlewareParams (this (fire_timer s t)) = middlewareParams (this s) ∧
  engineConfig (this (fire_timer s t)) = engineConfig (this s) ∧
  startupTimeout (this (fire_timer s t)) = startupTimeout (this s) ∧
  length (procs (fire_timer s t)) = length (procs s) ∧
  length (promises (fire_timer s t)) = length (promises s).
Proof.
  unfold fire_timer. destruct (t_action t); [destruct (child (this s)) eqn:Hc|];
    simpl; rewrite ?Hc; simpl; by frames.
Qed.

Lemma fire_timer_fmap {A} (g : Proc → A) s t :
  (∀ sg p, g (proc_set_p_signals sg p) = g p) →
  (∀ f p, g (proc_set_p_filter f p) = g p) →
  g <$> procs (fire_timer s t) = g <$> procs s.
Proof.
  intros Hg1 Hg2. unfold fire_timer. destruct (t_action t).
  - cbv zeta.
    match goal with
    | |- context [settle ?a ?b ?c] => rw_frame (settle_frame a b c)
    end.
    simpl. destruct (child (this s)); try done. cbn [procs].
    by rewrite kill_fmap.
  - by rewrite update_proc_fmap.
Qed.

Lemma fold_fire_frame ts s :
  let s' := foldl fire_timer s ts in
  heap s' = heap s ∧ now s' = now s ∧ timers s' = timers s ∧
  next_timer s' = next_timer s ∧ start_listeners s' = start_listeners s ∧
  error_events s' = error_events s ∧ console_log s' = console_log s ∧
  console_error s' = console_error s ∧
  middlewareParams (this s') = middlewareParams (this s) ∧
  engineConfig (this s') = engineConfig (this s) ∧
  startupTimeout (this s') = startupTimeout (this s) ∧
  length (procs s') = length (procs s) ∧
  length (promises s') = length (promises s).
Proof.
  revert s. induction ts as [|t ts IH]; intros s; simpl; [done|].
  specialize (IH (fire_timer s t)). simpl in IH.
  rw_conj IH. apply fire_timer_frame.
Qed.

Lemma fold_fire_fmap {A} (g : Proc → A) ts s :
  (∀ sg p, g (proc_set_p_signals sg p) = g p) →
  (∀ f p, g (proc_set_p_filter f p) = g p) →
  g <$> procs (foldl fire_timer s ts) = g <$> procs s.
Proof.
  intros Hg1 Hg2. revert s. induction ts as [|t ts IH]; intros s; simpl; [done|].
  by rewrite IH, fire_timer_fmap.
Qed.

Lemma advance_frame dt s :
  heap (advance dt s) = heap s ∧ now (advance dt s) = (now s + dt)%N ∧
  timers (advance dt s) =
    filter (λ tm, is_due (now s + dt) tm = false) (timers s) ∧
  next_timer (advance dt s) = next_timer s ∧
  start_listeners (advance dt s) = start_listeners s ∧
  error_events (advance dt s) = error_events s ∧
  console_log (advance dt s) = console_log s ∧
  console_error (advance dt s) = console_error s ∧
  middlewareParams (this (advance dt s)) = middlewareParams (this s) ∧
  engineConfig (this (advance dt s)) = engineConfig (this s) ∧
  startupTimeout (this (advance dt s)) = startupTimeout (this s) ∧
  length (procs (advance dt s)) = length (procs s) ∧
  length (promises (advance dt s)) = length (promises s).
Proof. unfold advance. by rw_frame (fold_fire_frame
  (filter (λ tm, is_due (now s + dt) tm = true) (timers s))
  (set_timers (filter (λ tm, is_due (now s + dt) tm = false) (timers s))
     (set_now (now s + dt)%N s))). Qed.

Lemma advance_fmap {A} (g : Proc → A) dt s :
  (∀ sg p, g (proc_set_p_signals sg p) = g p) →
  (∀ f p, g (proc_set_p_filter f p) = g p) →
  g <$> procs (advance dt s) = g <$> procs s.
Proof. intros. unfold advance. by rewrite fold_fire_fmap. Qed.

Lemma advance_uri dt s : uri (advance dt s) = uri s.
Proof. unfold uri. by rw_frame (advance_frame dt s). Qed.

Lemma alive_fmap pid s s' :
  p_alive <$> procs s' = p_alive <$> procs s → alive pid s' = alive pid s.
Proof.
  intros H. unfold alive.
  assert (Hl : (p_alive <$> procs s') !! pid = (p_alive <$> procs s) !! pid)
    by by rewrite H.
  rewrite !list_lookup_fmap in Hl.
  by destruct (procs s' !! pid), (procs s !! pid); simplify_eq/=.
Qed.

Lemma advance_alive pid dt s : alive pid (advance dt s) = alive pid s.
Proof. apply alive_fmap. by apply advance_fmap. Qed.

Lemma advance_spawned pid dt s : spawned pid (advance dt s) = spawned pid s.
Proof. apply spawned_length. by rw_frame (advance_frame dt s). Qed.

(** ** [start] and [stop] *)

Lemma start_running s : running (this (start s).2) = true.
Proof.
  unfold start. destruct (running (this s)) eqn:Hr; simpl; [done|]. by frames.
Qed.

Lemma start_uri s : uri (start s).2 = uri s.
Proof.
  unfold start, uri. destruct (running (this s)); simpl; [done|]. by frames.
Qed.

Lemma stop_uri s : uri (stop s).2 = uri s.
Proof.
  unfold stop, uri. destruct (child (this s)); simpl; by frames.
Qed.

Lemma stop_fmap {A} (g : Proc → A) s :
  (∀ sg p, g (proc_set_p_signals sg p) = g p) →
  (∀ w p, g (proc_set_p_exit_waiters w p) = g p) →
  g <$> procs (stop s).2 = g <$> procs s.
Proof.
  intros Hg1 Hg2. unfold stop. destruct (child (this s)); cbn [snd]; try done.
  rewrite kill_fmap by done.
  by rewrite update_proc_fmap by (intros p; apply Hg2).
Qed.

Lemma spawnChild_alive pid s :
  alive pid s = true → alive pid (spawnChild s) = true.
Proof.
  unfold alive. destruct (spawnChild_procs s) as (q & -> & _).
  destruct (procs s !! pid) eqn:Hp; [|done].
  by rewrite (lookup_app_l_Some _ _ _ _ Hp).
Qed.

Lemma start_alive pid s : alive pid s = true → alive pid (start s).2 = true.
Proof.
  intros Ha. unfold start. destruct (running (this s)); simpl; [done|].
  unfold alive in *. frames. fold (alive pid (spawnChild (set_this (eng_set_running true (this s)) s))).
  by apply spawnChild_alive.
Qed.

(** ** A second [start()] *)

(** C10. While [running] is true, [start()] throws "Only call start() on an
    engine object once" and the state, the processes included, is what it
    was. Every [start()] leaves the flag true, and of all events only
    [stop()] can clear it in its handler (the start-up timer being the other
    way). *)
Theorem start_only_once (s : State) :
  running (this s) = true →
  start s = (Throw "Only call start() on an engine object once", s) ∧
  handle CallStart s = s ∧
  (∀ s0, running (this (start s0).2) = true) ∧
  (∀ ev, ev ≠ CallStop → running (this (handle ev s)) = true).
Proof.
  intros Hr. assert (Hs : start s = (Throw "Only call start() on an engine object once", s)).
  { unfold start. by rewrite Hr. }
  split_and!; [done|by simpl; rewrite Hs|apply start_running|].
  intros ev Hev. destruct ev as [| |pid r|pid b|pid code sg]; simpl.
  - by rewrite Hs.
  - done.
  - case_match; [|done]. rewrite on_log_this. by case_match.
  - by case_match.
  - unfold deliver_exit. repeat case_match; try done.
    rw_frame (settle_all_frame (Resolved VUndefined) (p_exit_waiters p)
      (on_exit code sg (update_proc pid (proc_set_p_alive false) s))).
    unfold on_exit. simpl. frames. rewrite Hr. simpl.
    case_bool_decide; simpl; frames; simpl; by frames.
Qed.

(** ** The constructed engine *)

Lemma construct_initial host sc h0 s :
  construct host sc h0 = Constructed s →
  procs s = [] ∧ timers s = [] ∧ promises s = [] ∧ start_listeners s = [] ∧
  now s = 0%N ∧ next_timer s = 0 ∧ error_events s = [] ∧ console_log s = [] ∧
  running (this s) = false ∧ child (this s) = CUndefined ∧ uri s = "" ∧
  startupTimeout (this s) = num_or (sc_startupTimeout sc) (Num 1000) ∧
  mp_psk (middlewareParams (this s)) = randomBytes48_hex host ∧
  mp_endpoint (middlewareParams (this s)) = str_or (sc_endpoint sc) "/graphql".
Proof.
  unfold construct. intros H. repeat case_match; simplify_eq. done.
Qed.

(** ** The [uri] of the middleware parameters (claim C3) *)

Lemma settle_all_uri v ws s :
  uri (foldl (λ st pr, settle pr v st) s ws) = uri s.
Proof. unfold uri. by rw_frame (settle_all_frame v ws s). Qed.

Lemma on_exit_uri code sg s : uri (on_exit code sg s) = "".
Proof.
  unfold on_exit, uri. simpl. destruct (running (this s)); simpl; [|done].
  case_bool_decide; simpl; [done|]. by frames.
Qed.

Lemma deliver_exit_uri pid code sg s :
  alive pid s = true → uri (deliver_exit pid code sg s) = "".
Proof.
  unfold alive, deliver_exit. destruct (procs s !! pid) as [p|]; [|done].
  intros ->. by rewrite settle_all_uri, on_exit_uri.
Qed.

Lemma deliver_exit_dead pid code sg s :
  alive pid s = false → deliver_exit pid code sg s = s.
Proof.
  unfold alive, deliver_exit. destruct (procs s !! pid) as [p|]; [|done].
  by intros ->.
Qed.

Lemma on_log_uri pid r s :
  uri (on_log pid r s) =
  if is_ready r then "http://" +:+ show_field (address r) else uri s.
Proof. unfold uri. rewrite on_log_this. by destruct (is_ready r). Qed.

Lemma on_log_alive q pid r s : alive q (on_log pid r s) = alive q s.
Proof. apply alive_fmap. by apply on_log_fmap. Qed.

Lemma stop_alive q s : alive q (stop s).2 = alive q s.
Proof. apply alive_fmap. by apply stop_fmap. Qed.

(** A handler changes [uri] in two ways only: the start-up record of a
    process sets it, the exit of a live process clears it. *)
Lemma handle_uri ev s :
  uri (handle ev s) = uri s ∨
  (∃ pid r, ev = StdoutRecord pid r ∧ is_ready r = true ∧
            uri (handle ev s) = "http://" +:+ show_field (address r)) ∨
  (∃ pid code sg, ev = Exit pid code sg ∧ uri (handle ev s) = "").
Proof.
  destruct ev as [| |pid r|pid b|pid code sg]; cbn [handle].
  - left. apply start_uri.
  - left. apply stop_uri.
  - destruct (spawned pid s); [|by left].
    rewrite on_log_uri. destruct (is_ready r) eqn:Hr; [|by left].
    right; left. by exists pid, r.
  - left. by case_match.
  - destruct (alive pid s) eqn:Ha.
    + right; right. exists pid, code, sg. by rewrite deliver_exit_uri.
    + left. by rewrite deliver_exit_dead.
Qed.

Lemma handle_live_or_empty ev s :
  (∀ pid r, ev = StdoutRecord pid r → is_ready r = true → alive pid s = true) →
  live_or_empty s → live_or_empty (handle ev s).
Proof.
  unfold live_or_empty. intros Hev Hs.
  destruct ev as [| |pid r|pid b|pid code sg]; cbn [handle].
  - rewrite start_uri. destruct Hs as [?|[pid Hp]]; [by left|].
    right. exists pid. by apply start_alive.
  - rewrite stop_uri. destruct Hs as [?|[pid Hp]]; [by left|].
    right. exists pid. by rewrite stop_alive.
  - destruct (spawned pid s); [|done]. rewrite on_log_uri.
    destruct (is_ready r) eqn:Hr.
    + right. exists pid. rewrite on_log_alive. by apply (Hev pid r).
    + destruct Hs as [?|[q Hq]]; [by left|]. right. exists q.
      by rewrite on_log_alive.
  - by case_match.
  - destruct (alive pid s) eqn:Ha.
    + left. by apply deliver_exit_uri.
    + by rewrite deliver_exit_dead.
Qed.

Lemma step_live_or_empty s e :
  timely s e = true → live_or_empty s → live_or_empty (step s e).
Proof.
  intros He Hs. unfold step. apply handle_live_or_empty.
  - intros pid r Hev Hr. unfold timely in He. rewrite Hev, Hr in He.
    by rewrite advance_alive.
  - unfold live_or_empty. rewrite advance_uri.
    destruct Hs as [?|[pid Hp]]; [by left|].
    right. exists pid. by rewrite advance_alive.
Qed.

Lemma run_live_or_empty tr s :
  punctual tr s = true → live_or_empty s → live_or_empty (run tr s).
Proof.
  revert s. induction tr as [|e tr IH]; intros s Htr Hs; simpl; [done|].
  simpl in Htr. apply andb_true_iff in Htr as [He Htr].
  apply IH; [done|]. by apply step_live_or_empty.
Qed.

(** As long as no start-up record arrives after the exit of its process:
    in every state the engine reaches after its construction, [uri] is
    empty unless some spawned process is still alive. And always, [uri]
    changes in two ways only: a start-up record sets it to the address of
    that record, and the exit of a live process clears it. *)
Lemma uri_empty_if_punctual (host : Host) (sc : SideloadConfig)
    (h0 : Heap) (s0 : State) (tr : list (N * Event)) :
  construct host sc h0 = Constructed s0 →
  let s := run tr s0 in
  (punctual tr s0 = true → (∀ pid, alive pid s = false) → uri s = "") ∧
  (∀ e, uri (step s e) = uri s ∨
        (∃ pid r, e.2 = StdoutRecord pid r ∧ is_ready r = true ∧
                  uri (step s e) = "http://" +:+ show_field (address r)) ∨
        (∃ pid code sg, e.2 = Exit pid code sg ∧ uri (step s e) = "")).
Proof.
  intros Hc. cbv zeta. split.
  - intros Htr Hdead.
    destruct (run_live_or_empty tr s0 Htr) as [?|[pid Hp]]; [|done|].
    + left. by apply construct_initial in Hc as (_&_&_&_&_&_&_&_&_&_&?&_).
    + by rewrite Hdead in Hp.
  - intros e. unfold step. rewrite <- (advance_uri e.1 (run tr s0)).
    apply handle_uri.
Qed.

(** C3. The exit handler clears [uri], but the log handler does not test
    whether its process still lives, and what a process wrote may be
    delivered after its [exit] event. On the engine of the caller's
    document: [start()], the start-up time-out kills the child, its exit
    is delivered and [uri] is empty; the start-up record that the child
    had written then arrives, and [uri] is the address of the dead process
    while no process is alive, whatever other records arrive later. *)
Theorem late_record_sets_uri :
  let s := run killed_at_timeout caller_engine in
  let late := (1%N, StdoutRecord 0 (ready_record "127.0.0.1:54321")) in
  uri s = "" ∧ (∀ pid, alive pid s = false) ∧
  (∀ pid, alive pid (step s late) = false) ∧
  uri (step s late) = "http://127.0.0.1:54321" ∧
  running (this (step s late)) = false ∧
  ∀ dt pid r, is_ready r = false →
    uri (step (step s late) (dt, StdoutRecord pid r)) = "http://127.0.0.1:54321".
Proof.
  cbv zeta. split_and!.
  - reflexivity.
  - intros [|pid]; reflexivity.
  - intros [|pid]; reflexivity.
  - reflexivity.
  - reflexivity.
  - intros dt pid r Hr. unfold step at 1. cbn [fst snd handle].
    destruct (spawned pid _); [rewrite on_log_uri, Hr|]; by rewrite advance_uri.
Qed.

(** ** The start-up gate (claim C5) *)

Lemma timer_delay_pos d : (1 ≤ timer_delay d)%N.
Proof.
  unfold timer_delay. destruct d as [|z]; [lia|].
  destruct (1 <=? z)%Z eqn:H1; simpl; [|lia].
  destruct (z <=? 2147483647)%Z; simpl; lia.
Qed.

Lemma start_return s :
  running (this s) = false →
  (start s).1 = Return (length (promises s)).
Proof. intros Hr. unfold start. rewrite Hr. simpl. by frames. Qed.

Lemma start_starting s :
  running (this s) = false → procs s = [] → timers s = [] →
  promises s = [] → start_listeners s = [] →
  starting 0 (next_timer s) (now s + timer_delay (startupTimeout (this s)))
    (start s).2.
Proof.
  intros Hr Hp Ht Hpr Hl. unfold start, starting. rewrite Hr. cbn [snd].
  set (s1 := set_this (eng_set_running true (this s)) s).
  destruct (spawnChild_procs s1) as (p & Hps & Hal & Hsg & Hw & _).
  frames. rewrite Hps, Hpr, Ht, Hl. unfold s1. simpl. rewrite Hp. simpl.
  pose proof (timer_delay_pos (startupTimeout (this s))).
  split_and!; try done; try lia.
  - by apply Forall_singleton.
  - exists [], p. by split_and!.
Qed.

Lemma advance_starting pr tid due dt s :
  starting pr tid due s → (now s + dt < due)%N →
  starting pr tid due (advance dt s).
Proof.
  intros (Hr & Hp & Ht & Hl & Hn & Hw & Hps) Hdt.
  assert (Hd : is_due (now s + dt)
                 {| t_id := tid; t_due := due; t_action := StartupTimeout pr |} = false).
  { apply N.leb_gt. simpl. lia. }
  unfold advance. rewrite Ht. rewrite !filter_cons, filter_nil.
  rewrite Hd. simpl.
  unfold starting. simpl. by split_and!.
Qed.

Lemma lookup_last_alive (ps : list Proc) (p q : Proc) (pid : nat) :
  Forall (λ q, p_alive q = false) ps →
  (ps ++ [p]) !! pid = Some q → p_alive q = true →
  pid = length ps ∧ q = p.
Proof.
  intros Hps Hl Ha. apply lookup_app_Some in Hl as [Hl|[Hlen Hl]].
  - rewrite Forall_lookup in Hps. apply Hps in Hl. congruence.
  - apply list_lookup_singleton_Some in Hl as [Hz ->]. split; [lia|done].
Qed.

Lemma insert_last {A} (ps : list A) (p x : A) :
  <[length ps := x]> (ps ++ [p]) = ps ++ [x].
Proof.
  rewrite insert_app_r_alt by lia. by rewrite Nat.sub_diag.
Qed.

Lemma handle_starting pr tid due ev s :
  starting pr tid due s → quiet_event ev = true →
  starting pr tid due (handle ev s).
Proof.
  intros (Hr & Hp & Ht & Hl & Hn & Hw & ps & p & Hps & Hdead & Hc) Hq.
  destruct ev as [| |pid r|pid b|pid code sg]; simpl in Hq; try done; cbn [handle].
  - (* a record that is not the start-up record *)
    destruct (spawned pid s); [|by repeat split; eauto].
    apply negb_true_iff in Hq. unfold on_log. rewrite Hq.
    case_match; unfold starting; simpl; split_and!; eauto.
  - (* output that is not JSON *)
    destruct (spawned pid s); unfold starting; simpl; split_and!; eauto.
  - (* exit of a process: it can only be the last one *)
    unfold deliver_exit. destruct (procs s !! pid) as [q|] eqn:Hpid;
      [|by repeat split; eauto].
    destruct (p_alive q) eqn:Hal; [|by repeat split; eauto].
    rewrite Hps in Hpid.
    destruct (lookup_last_alive _ _ _ _ Hdead Hpid Hal) as [-> ->].
    assert (Hwp : p_exit_waiters p = []).
    { rewrite Hps in Hw. by apply Forall_app in Hw as [_ [[? _] _]%Forall_cons]. }
    rewrite Hwp. cbn [foldl].
    assert (Hs1 : procs (update_proc (length ps) (proc_set_p_alive false) s)
                  = ps ++ [proc_set_p_alive false p]).
    { unfold update_proc. rewrite Hps, Hpid. simpl. by rewrite insert_last. }
    assert (Hw1 : Forall (λ q, p_exit_waiters q = [] ∧ p_signals q = [])
                    (ps ++ [proc_set_p_alive false p])).
    { rewrite Hps in Hw. apply Forall_app in Hw as [Hw1 [Hw2 _]%Forall_cons].
      apply Forall_app. split; [done|]. by apply Forall_singleton. }
    assert (Hd1 : Forall (λ q, p_alive q = false) (ps ++ [proc_set_p_alive false p])).
    { apply Forall_app. split; [done|]. by repeat constructor. }
    unfold on_exit. frames. rewrite Hr. simpl.
    case_bool_decide.
    + unfold starting. frames. rewrite Hs1.
      split_and!; try done. exists ps, (proc_set_p_alive false p). by split_and!.
    + match goal with
      | |- context [spawnChild ?x] =>
          destruct (spawnChild_procs x) as (q & Hq1 & Hq2 & Hq3 & Hq4 & _)
      end.
      unfold starting. frames.
      simpl in Hq1. rewrite Hq1, Hs1.
      split_and!; try done.
      * apply Forall_app. split; [done|]. by apply Forall_singleton.
      * exists (ps ++ [proc_set_p_alive false p]), q.
        rewrite Hps, !length_app. by split_and!.
Qed.

Lemma start_now s : now (start s).2 = now s.
Proof. unfold start. destruct (running (this s)); simpl; by frames. Qed.

Lemma stop_now s : now (stop s).2 = now s.
Proof. unfold stop. destruct (child (this s)); simpl; by frames. Qed.

Lemma deliver_exit_now pid code sg s : now (deliver_exit pid code sg s) = now s.
Proof.
  unfold deliver_exit. repeat case_match; try done.
  match goal with
  | |- context [foldl ?f ?x ?l] =>
      rw_frame (settle_all_frame (Resolved VUndefined) l x)
  end.
  unfold on_exit. frames. destruct (running (this s)); simpl; [|by frames].
  case_bool_decide; by frames.
Qed.

Lemma handle_now ev s : now (handle ev s) = now s.
Proof.
  destruct ev; cbn [handle].
  - apply start_now.
  - apply stop_now.
  - case_match; [apply on_log_frame|done].
  - by case_match.
  - apply deliver_exit_now.
Qed.

Lemma step_now s e : now (step s e) = (now s + e.1)%N.
Proof. unfold step. rewrite handle_now. apply advance_frame. Qed.

Lemma run_now_mono tr s : (now s ≤ now (run tr s))%N.
Proof.
  revert s. induction tr as [|e tr IH]; intros s; simpl; [lia|].
  specialize (IH (step s e)). rewrite step_now in IH. lia.
Qed.

Lemma run_starting pr tid due tr s :
  starting pr tid due s → Forall (λ e, quiet_event e.2 = true) tr →
  (now (run tr s) < due)%N →
  starting pr tid due (run tr s).
Proof.
  revert s. induction tr as [|e tr IH]; intros s Hs Hq Hn; simpl in *; [done|].
  apply Forall_cons in Hq as [Hq1 Hq2].
  pose proof (run_now_mono tr (step s e)) as Hm. rewrite step_now in Hm.
  apply IH; [|done|done].
  unfold step. apply handle_starting; [|done].
  apply advance_starting; [done|lia].
Qed.

(** When the start-up timer is due it is the only timer: the promise is
    rejected, the flag is cleared, and the last process, if it is still
    alive, is sent SIGKILL. *)
Lemma timeout_fires pr tid due dt s :
  starting pr tid due s → (due ≤ now s + dt)%N →
  let s2 := advance dt s in
  promises s2 !! pr = Some (Rejected (VError "timed out")) ∧
  running (this s2) = false ∧ child (this s2) = CNull ∧
  ∃ ps p, procs s = ps ++ [p] ∧ child (this s) = CHandle (length ps) ∧
          Forall (λ q, p_alive q = false) ps ∧
          p_exit_waiters p = [] ∧ p_signals p = [] ∧
          procs s2 =
            ps ++ [if p_alive p then proc_set_p_signals [SIGKILL] p else p].
Proof.
  intros (Hr & Hp & Ht & Hl & Hn & Hw & ps & p & Hps & Hdead & Hc) Hdt.
  assert (Hd : is_due (now s + dt)
                 {| t_id := tid; t_due := due; t_action := StartupTimeout pr |} = true).
  { apply N.leb_le. simpl. lia. }
  assert (Hpid : procs s !! length ps = Some p).
  { rewrite Hps. by rewrite lookup_app_r, Nat.sub_diag by lia. }
  rewrite Hps in Hw. apply Forall_app in Hw as [_ [[Hwp Hsp] _]%Forall_cons].
  cbv zeta. unfold advance. rewrite Ht. rewrite !filter_cons, filter_nil.
  rewrite Hd. simpl. unfold fire_timer. simpl. rewrite Hc. simpl.
  rewrite settle_lookup. frames. rewrite Hp, decide_True by done.
  split_and!; try done.
  exists ps, p. split_and!; try done.
  unfold kill, update_proc. simpl. rewrite Hpid. simpl.
  rewrite Hps, insert_last, Hsp. by destruct (p_alive p).
Qed.

Lemma all_dead_alive (ps : list Proc) s q :
  procs s = ps → Forall (λ p, p_alive p = false) ps → alive q s = false.
Proof.
  intros Hp Hd. unfold alive. rewrite Hp.
  destruct (ps !! q) as [p|] eqn:Hq; [|done].
  rewrite Forall_lookup in Hd. by apply Hd in Hq.
Qed.

(** The exit of the last live process while [running] is false. *)
Lemma exit_not_running ps p pid code sg s :
  running (this s) = false → procs s = ps ++ [p] →
  Forall (λ q, p_alive q = false) ps → alive pid s = true →
  procs (handle (Exit pid code sg) s) = ps ++ [proc_set_p_alive false p].
Proof.
  intros Hr Hps Hdead Hal. cbn [handle]. unfold alive in Hal. unfold deliver_exit.
  destruct (procs s !! pid) as [q|] eqn:Hpid; [|done]. rewrite Hal.
  rewrite Hps in Hpid. destruct (lookup_last_alive _ _ _ _ Hdead Hpid Hal) as [-> ->].
  match goal with
  | |- context [foldl ?f ?x ?l] =>
      rw_frame (settle_all_frame (Resolved VUndefined) l x)
  end.
  unfold on_exit. frames. rewrite Hr. simpl.
  unfold update_proc. rewrite Hps, Hpid. simpl. by rewrite insert_last.
Qed.

(** ** A settled promise stays as it is *)

Lemma keeps_settled_refl s : keeps_settled s s.
Proof. by intros i v. Qed.

Lemma keeps_settled_trans s1 s2 s3 :
  keeps_settled s1 s2 → keeps_settled s2 s3 → keeps_settled s1 s3.
Proof. intros H1 H2 i v Hi Hv. apply H2; [|done]. by apply H1. Qed.

Lemma keeps_settled_eq s s' : promises s' = promises s → keeps_settled s s'.
Proof. intros H i v. by rewrite H. Qed.

Lemma keeps_settled_app s s' l :
  promises s' = promises s ++ l → keeps_settled s s'.
Proof. intros H i v Hi _. rewrite H. by apply lookup_app_l_Some. Qed.

Lemma settle_keeps pr v s : keeps_settled s (settle pr v s).
Proof.
  intros i w Hi Hw. rewrite settle_lookup, Hi. by destruct w.
Qed.

Lemma settle_all_keeps v ws s :
  keeps_settled s (foldl (λ st pr, settle pr v st) s ws).
Proof.
  revert s. induction ws as [|w ws IH]; intros s; simpl; [apply keeps_settled_refl|].
  eapply keeps_settled_trans; [apply settle_keeps|apply IH].
Qed.

Lemma emit_start_keeps s : keeps_settled s (emit_start s).
Proof.
  intros i w Hi Hw. unfold emit_start. rewrite fold_listeners_promise, Hi.
  by destruct w.
Qed.

Lemma on_log_keeps pid r s : keeps_settled s (on_log pid r s).
Proof.
  intros i w Hi Hw. rewrite on_log_promises. destruct (is_ready r); [|done].
  by apply emit_start_keeps.
Qed.

Lemma fire_timer_keeps s t : keeps_settled s (fire_timer s t).
Proof.
  unfold fire_timer. destruct (t_action t).
  - eapply keeps_settled_trans; [|apply settle_keeps].
    apply keeps_settled_eq. simpl. destruct (child (this s)); by frames.
  - apply keeps_settled_eq. by frames.
Qed.

Lemma fold_fire_keeps ts s : keeps_settled s (foldl fire_timer s ts).
Proof.
  revert s. induction ts as [|t ts IH]; intros s; simpl; [apply keeps_settled_refl|].
  eapply keeps_settled_trans; [apply fire_timer_keeps|apply IH].
Qed.

Lemma advance_keeps dt s : keeps_settled s (advance dt s).
Proof.
  unfold advance. eapply keeps_settled_trans; [|apply fold_fire_keeps].
  by apply keeps_settled_eq.
Qed.

Lemma handle_keeps ev s : keeps_settled s (handle ev s).
Proof.
  destruct ev as [| |pid r|pid b|pid code sg]; cbn [handle].
  - unfold start. destruct (running (this s)); cbn [snd]; [apply keeps_settled_refl|].
    apply (keeps_settled_app _ _ [Pending]). by frames.
  - unfold stop. destruct (child (this s)); cbn [snd].
    + apply (keeps_settled_app _ _ [Rejected VTypeError]). by frames.
    + apply keeps_settled_refl.
    + apply (keeps_settled_app _ _ [Pending]). by frames.
  - case_match; [apply on_log_keeps|apply keeps_settled_refl].
  - case_match; [by apply keeps_settled_eq|apply keeps_settled_refl].
  - unfold deliver_exit. repeat case_match; try apply keeps_settled_refl.
    eapply keeps_settled_trans; [|apply settle_all_keeps].
    apply keeps_settled_eq. unfold on_exit. frames.
    destruct (running (this s)); simpl; [|by frames].
    case_bool_decide; by frames.
Qed.

Lemma run_keeps tr s : keeps_settled s (run tr s).
Proof.
  revert s. induction tr as [|e tr IH]; intros s; simpl; [apply keeps_settled_refl|].
  eapply keeps_settled_trans; [|apply IH]. unfold step.
  eapply keeps_settled_trans; [apply advance_keeps|apply handle_keeps].
Qed.

(** ** After the start-up record the timer is gone *)

Lemma clear_only_filter (P : Timer → Prop) (Q : Timer → Prop)
    `{∀ t, Decision (Q t)} (ts : list Timer) :
  Forall P ts → Forall P (filter Q ts).
Proof.
  rewrite !Forall_forall. intros Hp t [_ Ht]%list_elem_of_filter. by apply Hp.
Qed.

Lemma emit_start_timers (P : Timer → Prop) s :
  Forall P (timers s) → Forall P (timers (emit_start s)).
Proof.
  unfold emit_start. generalize (start_listeners s) as ls. intros ls. revert s.
  induction ls as [|l ls IH]; intros s Hs; simpl; [done|].
  apply IH. unfold start_listener. frames. by apply clear_only_filter.
Qed.

Lemma on_log_timers (P : Timer → Prop) pid r s :
  Forall P (timers (if is_ready r
                    then emit_start (set_uri ("http://" +:+ show_field (address r)) s)
                    else s)) →
  (∀ id due, P {| t_id := id; t_due := due; t_action := ClearFilter pid |}) →
  Forall P (timers (on_log pid r s)).
Proof.
  intros Hs Hp. unfold on_log. destruct (is_ready r); [|by case_match].
  repeat case_match; frames; try done.
  all: apply Forall_app; split; [done|]; by apply Forall_singleton.
Qed.

Lemma emit_start_single s tid pr :
  start_listeners s = [(tid, pr)] →
  emit_start s = settle pr (start_outcome (uri s)) (clearTimeout tid s).
Proof. intros H. unfold emit_start. by rewrite H. Qed.

Lemma spawnChild_fmap {A} (g : Proc → A) s :
  ∃ q, g <$> procs (spawnChild s) = (g <$> procs s) ++ [g q] ∧
       p_alive q = true ∧ p_signals q = [] ∧ p_exit_waiters q = [].
Proof.
  destruct (spawnChild_procs s) as (q & Hq & ? & ? & ? & _).
  exists q. by rewrite Hq, fmap_app.
Qed.

Lemma fire_clear_filter s t pid :
  t_action t = ClearFilter pid →
  this (fire_timer s t) = this s ∧ promises (fire_timer s t) = promises s ∧
  p_signals <$> procs (fire_timer s t) = p_signals <$> procs s.
Proof.
  intros Ht. unfold fire_timer. rewrite Ht. frames.
  by rewrite update_proc_fmap.
Qed.

Lemma fold_fire_clear_filter ts s :
  Forall (λ t, ∃ pid, t_action t = ClearFilter pid) ts →
  this (foldl fire_timer s ts) = this s ∧
  promises (foldl fire_timer s ts) = promises s ∧
  p_signals <$> procs (foldl fire_timer s ts) = p_signals <$> procs s.
Proof.
  revert s. induction ts as [|t ts IH]; intros s Hts; simpl; [done|].
  apply Forall_cons in Hts as [[pid Ht] Hts].
  destruct (IH (fire_timer s t) Hts) as (-> & -> & ->).
  by apply fire_clear_filter with pid.
Qed.

Lemma advance_unthreatened dt s : unthreatened s → unthreatened (advance dt s).
Proof.
  intros (Hr & Ht & Hs). unfold unthreatened.
  rw_frame (advance_frame dt s). split_and!; [| by apply clear_only_filter |].
  - unfold advance.
    destruct (fold_fire_clear_filter
      (filter (λ tm, is_due (now s + dt) tm = true) (timers s))
      (set_timers (filter (λ tm, is_due (now s + dt) tm = false) (timers s))
         (set_now (now s + dt)%N s))) as (-> & _); [by apply clear_only_filter|done].
  - unfold advance.
    destruct (fold_fire_clear_filter
      (filter (λ tm, is_due (now s + dt) tm = true) (timers s))
      (set_timers (filter (λ tm, is_due (now s + dt) tm = false) (timers s))
         (set_now (now s + dt)%N s))) as (_ & _ & ->); [by apply clear_only_filter|done].
Qed.

Lemma handle_unthreatened ev s :
  from_child ev = true → unthreatened s → unthreatened (handle ev s).
Proof.
  intros Hev (Hr & Ht & Hs).
  destruct ev as [| |pid r|pid b|pid code sg]; try done; cbn [handle].
  - destruct (spawned pid s); [|done]. unfold unthreatened.
    rewrite on_log_this, on_log_fmap by done. split_and!; [by case_match| |done].
    apply on_log_timers; [|intros; by exists pid].
    case_match; [by apply emit_start_timers|done].
  - by destruct (spawned pid s).
  - unfold deliver_exit. repeat case_match; try done.
    unfold unthreatened.
    match goal with
    | |- context [foldl ?f ?x ?l] =>
        rw_frame (settle_all_frame (Resolved VUndefined) l x)
    end.
    assert (Hu : p_signals <$> procs (update_proc pid (proc_set_p_alive false) s)
                 = p_signals <$> procs s) by by apply update_proc_fmap.
    unfold on_exit. frames. rewrite Hr. simpl. case_bool_decide; frames.
    + by rewrite Hu.
    + match goal with
      | |- context [spawnChild ?x] =>
          destruct (spawnChild_fmap p_signals x) as (q & -> & _ & Hq & _)
      end.
      simpl. rewrite Hu, Hq. split_and!; try done.
      apply Forall_app. split; [done|]. apply Forall_singleton. by intros ?%elem_of_nil.
Qed.

Lemma run_unthreatened tr s :
  Forall (λ e, from_child e.2 = true) tr → unthreatened s →
  unthreatened (run tr s).
Proof.
  revert s. induction tr as [|e tr IH]; intros s Htr Hs; simpl; [done|].
  apply Forall_cons in Htr as [He Htr]. apply IH; [done|].
  unfold step. apply handle_unthreatened; [done|]. by apply advance_unthreatened.
Qed.

(** The start-up record of a live child, arriving before the timer is due,
    settles the promise and removes the timer. *)
Lemma ready_unthreatened pr tid due pid r s :
  starting pr tid due s → alive pid s = true → is_ready r = true →
  let s' := handle (StdoutRecord pid r) s in
  unthreatened s' ∧ promises s' !! pr = Some (start_outcome (uri s')).
Proof.
  intros (Hr & Hp & Ht & Hl & Hn & Hw & _) Hal Hrd. cbn [handle]. rewrite (alive_spawned _ _ Hal).
  cbv zeta. unfold unthreatened.
  rewrite on_log_uri, on_log_this, on_log_promises, on_log_fmap, Hrd by done.
  set (u := "http://" +:+ show_field (address r)).
  assert (He : emit_start (set_uri u s)
               = settle pr (start_outcome u) (clearTimeout tid (set_uri u s)))
    by by apply emit_start_single.
  split_and!; [done| | |].
  - apply on_log_timers; [|intros; by eexists]. rewrite Hrd. fold u. rewrite He.
    frames. rewrite Ht. rewrite filter_cons, filter_nil.
    by rewrite decide_False by (intros ?; done).
  - rewrite Forall_fmap. eapply Forall_impl; [exact Hw|].
    simpl. intros q [_ ->]. by intros ?%elem_of_nil.
  - rewrite He, settle_lookup. frames. by rewrite Hp, decide_True.
Qed.

(** The time-out of the first [start()]. After [start()] on a newly
    constructed engine, while only the children act and none of them
    announces its start-up: once the start-up
    delay (1000 when none is configured) has passed, the promise of
    [start()] is rejected with "timed out", [running] is false and
    [this.child] is null; a process that is still alive at that point is the
    one [this.child] referred to and has been sent SIGKILL; when its exit
    arrives nothing is spawned and no process is alive. Whichever of
    time-out and start-up record comes first decides: after the time-out the
    promise stays rejected whatever happens later; after a start-up record
    that arrives before the deadline the promise is settled by the record,
    and from then on, whatever the children do and however much time
    passes, [running] stays true, the promise stays as it is and no process
    is sent SIGKILL. *)
Theorem startup_timeout (host : Host) (sc : SideloadConfig) (h0 : Heap)
    (s0 : State) (tr : list (N * Event)) (dt : N) :
  construct host sc h0 = Constructed s0 →
  Forall (λ e, quiet_event e.2 = true) tr →
  let D := timer_delay (startupTimeout (this s0)) in
  let s1 := run tr (start s0).2 in
  (now s1 < D)%N → (D ≤ now s1 + dt)%N →
  let s2 := advance dt s1 in
  (sc_startupTimeout sc = None → D = 1000%N) ∧
  (start s0).1 = Return 0 ∧ promises s1 !! 0 = Some Pending ∧
  promises s2 !! 0 = Some (Rejected (VError "timed out")) ∧
  running (this s2) = false ∧ child (this s2) = CNull ∧
  (∀ pid p, procs s2 !! pid = Some p → p_alive p = true →
     child (this s1) = CHandle pid ∧ p_signals p = [SIGKILL]) ∧
  (∀ pid code sg, alive pid s2 = true →
     let s3 := handle (Exit pid code sg) s2 in
     length (procs s3) = length (procs s2) ∧ ∀ q, alive q s3 = false) ∧
  (∀ tr', promises (run tr' s2) !! 0 = Some (Rejected (VError "timed out"))) ∧
  (∀ pid r dt' tr',
     alive pid s1 = true → is_ready r = true → (now s1 + dt' < D)%N →
     Forall (λ e, from_child e.2 = true) tr' →
     let s2' := step s1 (dt', StdoutRecord pid r) in
     let s3' := run tr' s2' in
     promises s2' !! 0 = Some (start_outcome (uri s2')) ∧
     running (this s3') = true ∧ promises s3' !! 0 = promises s2' !! 0 ∧
     Forall (λ sg, SIGKILL ∉ sg) (p_signals <$> procs s3')).
Proof.
  intros Hc Htr D s1 Hn1 Hn2 s2.
  destruct (construct_initial _ _ _ _ Hc)
    as (Hp0 & Ht0 & Hpr0 & Hl0 & Hnow0 & Hnt0 & _ & _ & Hr0 & _ & _ & Hto & _).
  assert (Hst : starting 0 0 D (start s0).2).
  { pose proof (start_starting s0 Hr0 Hp0 Ht0 Hpr0 Hl0) as H.
    by rewrite Hnt0, Hnow0, N.add_0_l in H. }
  assert (Hs1 : starting 0 0 D s1) by by apply run_starting.
  destruct (timeout_fires 0 0 D dt s1 Hs1 Hn2)
    as (Hrej & Hrun & Hch & ps & p & Hps & Hc1 & Hdead & Hwp & Hsp & Hps2).
  fold s2 in Hrej, Hrun, Hch, Hps2.
  split_and!; try done.
  - intros Hnone. unfold D. by rewrite Hto, Hnone.
  - pose proof (start_return s0 Hr0) as H. by rewrite Hpr0 in H.
  - by destruct Hs1 as (_ & ? & _).
  - intros pid q Hq Hal. rewrite Hps2 in Hq.
    destruct (lookup_last_alive _ _ _ _ Hdead Hq Hal) as [-> ->].
    split; [done|]. destruct (p_alive p) eqn:Hp; [done|]. simpl in Hal. congruence.
  - intros pid code sg Hal s3.
    assert (H3 : procs s3 = ps ++ [proc_set_p_alive false
                  (if p_alive p then proc_set_p_signals [SIGKILL] p else p)])
      by by apply exit_not_running.
    split.
    + by rewrite H3, Hps2, !length_app.
    + intros q. apply (all_dead_alive _ _ _ H3).
      apply Forall_app. split; [done|]. by apply Forall_singleton.
  - intros tr'. by apply run_keeps.
  - intros pid r dt' tr' Hal Hrd Hdt' Htr' s2' s3'.
    assert (Hadv : starting 0 0 D (advance dt' s1)) by by apply advance_starting.
    assert (Hal' : alive pid (advance dt' s1) = true) by by rewrite advance_alive.
    destruct (ready_unthreatened 0 0 D pid r _ Hadv Hal' Hrd) as [Hu Hpr].
    change (handle (StdoutRecord pid r) (advance dt' s1)) with s2' in Hu, Hpr.
    destruct (run_unthreatened tr' s2' Htr' Hu) as (Hr3 & _ & Hs3).
    split_and!; try done.
    unfold s3'. rewrite Hpr. apply run_keeps; [done|apply start_outcome_settled].
Qed.

(** C5. The time-out rejects the promise and kills [this.child], yet it
    neither ends the start-up nor leaves every process dead. On the example
    engine (level "error"): (a) when the delay has passed the promise of
    [start()] is rejected, [running] is false and the child has been sent
    SIGKILL; its start-up record, delivered before its exit, is handled all
    the same: [uri] becomes its address, a second document (level "error")
    is written to it and a timer is set. (b) [stop()] followed at once by
    [start()]: the exit of the stopped child finds [running] true and
    spawns another process beside the one of [start()]; both time-outs
    fire, both promises of [start()] are rejected and the later process is
    killed; the process that [start()] spawned stays alive, was never sent
    a signal, no timer is left, and [stop()] throws since [this.child] is
    null. *)
Theorem timeout_not_final :
  let s2 := advance 1000 (start example_engine).2 in
  let s3 := handle (StdoutRecord 0 (ready_record "127.0.0.1:54321")) s2 in
  let t1 := run restart_race example_engine in
  let t2 := step t1 (2000%N, Exit 2 None (Some "SIGKILL")) in
  (promises s2 !! 0 = Some (Rejected (VError "timed out")) ∧
   running (this s2) = false ∧ field_at p_signals 0 s2 = Some [SIGKILL] ∧
   uri s2 = "" ∧ stdin_levels 0 s2 = Some [Some "info"] ∧ timers s2 = []) ∧
  (uri s3 = "http://127.0.0.1:54321" ∧
   stdin_levels 0 s3 = Some [Some "info"; Some "error"] ∧
   t_action <$> timers s3 = [ClearFilter 0] ∧
   promises s3 !! 0 = Some (Rejected (VError "timed out"))) ∧
  (child (this t1) = CHandle 2 ∧ alive 1 t1 = true ∧ alive 2 t1 = true ∧
   t_action <$> timers t1 = [StartupTimeout 0; StartupTimeout 2]) ∧
  (promises t2 !! 0 = Some (Rejected (VError "timed out")) ∧
   promises t2 !! 2 = Some (Rejected (VError "timed out")) ∧
   running (this t2) = false ∧ child (this t2) = CNull ∧ timers t2 = [] ∧
   alive 1 t2 = true ∧ alive 2 t2 = false ∧
   field_at p_signals 1 t2 = Some [] ∧
   (stop t2).1 = Throw "No engine instance running...").
Proof. cbv zeta. vm_compute. by split_and!. Qed.

(** ** The store: writing the logging level *)

Section logging_cell.
Context (h : Heap) (lg : loc) (g g' : LoggingObj).
Hypothesis Hlg : h !! lg = Some (CLogging g).

Lemma read_config_insert_logging l :
  read_config (<[lg := CLogging g']> h) l = read_config h l.
Proof.
  unfold read_config. destruct (decide (l = lg)) as [->|Hne].
  - rewrite list_lookup_insert_eq by (by eapply lookup_lt_Some). by rewrite Hlg.
  - by rewrite list_lookup_insert_ne.
Qed.

Lemma read_http_insert_logging l :
  read_http (<[lg := CLogging g']> h) l = read_http h l.
Proof.
  unfold read_http. destruct (decide (l = lg)) as [->|Hne].
  - rewrite list_lookup_insert_eq by (by eapply lookup_lt_Some). by rewrite Hlg.
  - by rewrite list_lookup_insert_ne.
Qed.

Lemma read_frontends_insert_logging l :
  read_frontends (<[lg := CLogging g']> h) l = read_frontends h l.
Proof.
  unfold read_frontends. destruct (decide (l = lg)) as [->|Hne].
  - rewrite list_lookup_insert_eq by (by eapply lookup_lt_Some). by rewrite Hlg.
  - by rewrite list_lookup_insert_ne.
Qed.

Lemma read_origin_insert_logging o :
  read_origin (<[lg := CLogging g']> h) o = read_origin h o.
Proof.
  unfold read_origin. f_equal. destruct (o_http o); simpl; [|done].
  apply read_http_insert_logging.
Qed.

Lemma read_origins_insert_logging l :
  read_origins (<[lg := CLogging g']> h) l = read_origins h l.
Proof.
  unfold read_origins. destruct (decide (l = lg)) as [->|Hne].
  - rewrite list_lookup_insert_eq by (by eapply lookup_lt_Some). by rewrite Hlg.
  - rewrite list_lookup_insert_ne by done.
    destruct (h !! l) as [[]|]; try done. f_equal.
    apply map_ext. intros o. apply read_origin_insert_logging.
Qed.

Lemma read_logging_insert_logging l :
  read_logging (<[lg := CLogging g']> h) l =
  if decide (l = lg) then Some g' else read_logging h l.
Proof.
  unfold read_logging. case_decide as Hl; subst.
  - by rewrite list_lookup_insert_eq by (by eapply lookup_lt_Some).
  - by rewrite list_lookup_insert_ne.
Qed.
End logging_cell.

Lemma level_only_refl s0 lg g :
  logging_loc s0 = Some lg → read_logging (heap s0) lg = Some g →
  level_only s0 s0.
Proof.
  intros Hl Hg. split; [done|]. exists lg, g, (level g). split_and!; try done.
  unfold read_logging in Hg. destruct (heap s0 !! lg) as [[]|] eqn:Hc; simplify_eq.
  symmetry. apply list_insert_id. by destruct g.
Qed.

(** Under [level_only], the level is read and written at the one cell. *)
Lemma level_only_state s0 s d0 :
  level_only s0 s →
  stringify (heap s0) (engineConfig (this s0)) = Some d0 →
  ∃ lv, get_level s = lv ∧
        stringify (heap s) (engineConfig (this s)) = Some (with_level lv d0) ∧
        ∀ v, level_only s0 (set_level v s) ∧
             get_level (set_level v s) = v ∧
             stringify (heap (set_level v s)) (engineConfig (this (set_level v s)))
             = Some (with_level v d0).
Proof.
  intros (Hcfg & lg & g & lv & Hl & Hg & Hh) Hd.
  assert (Hcell : heap s0 !! lg = Some (CLogging g)).
  { unfold read_logging in Hg. by destruct (heap s0 !! lg) as [[]|]; simplify_eq. }
  pose proof Hl as Hl0. unfold logging_loc in Hl.
  destruct (read_config (heap s0) (engineConfig (this s0))) as [c|] eqn:Hc; [|done].
  simpl in Hl.
  assert (Hd0 : d0 = {| d_apiKey := apiKey c;
                        d_origins := origins c ≫= read_origins (heap s0);
                        d_frontends := frontends c ≫= read_frontends (heap s0);
                        d_logging := Some g |}).
  { unfold stringify in Hd. rewrite Hc in Hd. simpl in Hd. rewrite Hl in Hd.
    simpl in Hd. rewrite Hg in Hd. by simplify_eq. }
  assert (Hstr : ∀ v, stringify
      (<[lg := CLogging {| level := v; format := format g;
                           destination := destination g |}]> (heap s0))
      (engineConfig (this s0)) = Some (with_level v d0)).
  { intros v. unfold stringify.
    rewrite (read_config_insert_logging _ _ g) by done. rewrite Hc. simpl.
    rewrite Hl. simpl. rewrite (read_logging_insert_logging _ _ g) by done.
    rewrite decide_True by done. rewrite Hd0. unfold with_level. simpl. do 2 f_equal.
    - destruct (origins c); simpl; [|done].
      by apply read_origins_insert_logging with g.
    - destruct (frontends c); simpl; [|done].
      by apply read_frontends_insert_logging with g. }
  assert (Hloc : logging_loc s = Some lg).
  { unfold logging_loc. rewrite Hh, Hcfg.
    rewrite (read_config_insert_logging _ _ g) by done. by rewrite Hc. }
  assert (Hrl : read_logging (heap s) lg =
                Some {| level := lv; format := format g; destination := destination g |}).
  { rewrite Hh, (read_logging_insert_logging _ _ g) by done. by rewrite decide_True. }
  exists lv. split_and!.
  - unfold get_level. rewrite Hloc. simpl. by rewrite Hrl.
  - by rewrite Hh, Hcfg.
  - intros v.
    assert (Hset : heap (set_level v s) =
      <[lg := CLogging {| level := v; format := format g;
                          destination := destination g |}]> (heap s0)).
    { unfold set_level. rewrite Hloc, Hrl. simpl. rewrite Hh.
      by rewrite list_insert_insert_eq. }
    assert (Hcfg' : engineConfig (this (set_level v s)) = engineConfig (this s0)).
    { by rw_frame (set_level_frame v s). }
    split_and!.
    + split; [done|]. by exists lg, g, v.
    + unfold get_level, logging_loc. rewrite Hset, Hcfg'.
      rewrite (read_config_insert_logging _ _ g) by done. rewrite Hc. simpl.
      rewrite Hl. simpl. rewrite (read_logging_insert_logging _ _ g) by done.
      by rewrite decide_True.
    + by rewrite Hset, Hcfg'.
Qed.

Lemma lookup_snoc {A} (l : list A) (x : A) : (l ++ [x]) !! length l = Some x.
Proof. by rewrite lookup_app_r, Nat.sub_diag by lia. Qed.

Lemma force_logging_wf cfg h h' w :
  force_logging cfg h = Some (h', w) →
  ∃ c lg g, read_config h' cfg = Some c ∧ logging c = Some lg ∧
            read_logging h' lg = Some g ∧
            format g = Some "JSON" ∧ destination g = Some "STDOUT".
Proof.
  unfold force_logging. intros H.
  destruct (read_config h cfg) as [c|] eqn:Hc; [|done]. simpl in H.
  assert (Hcell : h !! cfg = Some (CConfig c)).
  { unfold read_config in Hc. by destruct (h !! cfg) as [[]|]; simplify_eq. }
  assert (Hlt : cfg < length h) by by eapply lookup_lt_Some.
  destruct (logging c) as [l|] eqn:Hl.
  - destruct (read_logging h l) as [g|] eqn:Hg; [|done]. simpl in H. simplify_eq.
    assert (Hgc : h !! l = Some (CLogging g)).
    { unfold read_logging in Hg. by destruct (h !! l) as [[]|]; simplify_eq. }
    exists c, l, {| level := level g; format := Some "JSON";
                    destination := Some "STDOUT" |}.
    split_and!; try done.
    + by rewrite (read_config_insert_logging _ _ g).
    + rewrite (read_logging_insert_logging _ _ g) by done. by rewrite decide_True.
  - simpl in H. simplify_eq.
    exists (with_logging (Some (length h)) c), (length h),
      {| level := None; format := Some "JSON"; destination := Some "STDOUT" |}.
    split_and!; try done.
    + unfold read_config. rewrite list_lookup_insert_eq; [done|].
      rewrite length_app. simpl. lia.
    + unfold read_logging. rewrite list_lookup_insert_ne by lia.
      by rewrite lookup_snoc.
Qed.

Lemma construct_wf host sc h0 s0 :
  construct host sc h0 = Constructed s0 →
  ∃ lg g d0, logging_loc s0 = Some lg ∧ read_logging (heap s0) lg = Some g ∧
             format g = Some "JSON" ∧ destination g = Some "STDOUT" ∧
             stringify (heap s0) (engineConfig (this s0)) = Some d0 ∧
             d_logging d0 = Some g.
Proof.
  unfold construct. intros H. repeat case_match; simplify_eq.
  match goal with
  | Hf : force_logging _ _ = Some _ |- _ =>
      destruct (force_logging_wf _ _ _ _ Hf) as (c' & lg & g & Hc & Hl & Hg & Hf1 & Hd1)
  end.
  exists lg, g. eexists. unfold logging_loc, stringify. simpl. rewrite Hc. simpl.
  rewrite Hl. simpl. by rewrite Hg.
Qed.

Lemma hack_filter_truthy lvl F : hack_filter lvl = Some F → str_truthy lvl = true.
Proof. by destruct lvl. Qed.

(** ** The store along a run *)

Section run_level_only.
Context (s0 : State) (d0 : DocVal).
Hypothesis Hd0 : stringify (heap s0) (engineConfig (this s0)) = Some d0.

Lemma set_level_level_only v s : level_only s0 s → level_only s0 (set_level v s).
Proof.
  intros Hs. destruct (level_only_state s0 s d0 Hs Hd0) as (lv & _ & _ & H).
  apply H.
Qed.

Lemma level_only_eq s s' :
  level_only s0 s → heap s' = heap s →
  engineConfig (this s') = engineConfig (this s) → level_only s0 s'.
Proof. intros (Hc & H) Hh Hc'. split; [congruence|]. by rewrite Hh. Qed.

Lemma spawnChild_level_only s : level_only s0 s → level_only s0 (spawnChild s).
Proof.
  intros Hs. unfold spawnChild.
  repeat case_match; simplify_eq;
    (eapply level_only_eq; [|simpl; reflexivity|simpl; reflexivity]);
    try done; by apply set_level_level_only.
Qed.

Lemma on_log_level_only pid r s : level_only s0 s → level_only s0 (on_log pid r s).
Proof.
  intros Hs. unfold on_log. destruct (is_ready r); [|by case_match].
  set (s2 := emit_start (set_uri ("http://" +:+ show_field (address r)) s)).
  assert (He : level_only s0 s2).
  { apply (level_only_eq s); [done|unfold s2; by frames..]. }
  destruct (procs s2 !! pid) as [p|]; [|by case_match].
  destruct (p_filter p); try by case_match.
  apply (level_only_eq (set_level (p_logLevel p) s2));
    [by apply set_level_level_only|case_match; by frames..].
Qed.

Lemma on_exit_level_only code sg s :
  level_only s0 s → level_only s0 (on_exit code sg s).
Proof.
  intros Hs. unfold on_exit.
  assert (H1 : level_only s0 (set_uri "" s)) by by apply (level_only_eq s).
  destruct (negb (running (this (set_uri "" s)))); [done|].
  case_bool_decide; [by apply (level_only_eq (set_uri "" s))|].
  apply spawnChild_level_only. by apply (level_only_eq (set_uri "" s)).
Qed.

Lemma deliver_exit_level_only pid code sg s :
  level_only s0 s → level_only s0 (deliver_exit pid code sg s).
Proof.
  intros Hs. unfold deliver_exit.
  destruct (procs s !! pid) as [p|]; [|done]. destruct (p_alive p); [|done].
  set (s1 := update_proc pid (proc_set_p_alive false) s).
  assert (H1 : level_only s0 s1).
  { apply (level_only_eq s); [done|unfold s1; by frames..]. }
  apply (level_only_eq (on_exit code sg s1)); [by apply on_exit_level_only|..].
  all: by rw_frame (settle_all_frame (Resolved VUndefined) (p_exit_waiters p)
                      (on_exit code sg s1)).
Qed.

Lemma handle_level_only ev s : level_only s0 s → level_only s0 (handle ev s).
Proof.
  intros Hs. destruct ev as [| |pid r|pid b|pid code sg]; cbn [handle].
  - unfold start. destruct (running (this s)); cbn [snd]; [done|].
    set (s1 := spawnChild (set_this (eng_set_running true (this s)) s)).
    assert (H1 : level_only s0 s1).
    { apply spawnChild_level_only. by apply (level_only_eq s). }
    by apply (level_only_eq s1).
  - unfold stop. destruct (child (this s)); cbn [snd]; try done;
      (apply (level_only_eq s); [done|by frames..]).
  - case_match; [by apply on_log_level_only|done].
  - case_match; [|done]. by apply (level_only_eq s).
  - by apply deliver_exit_level_only.
Qed.

Lemma advance_level_only dt s : level_only s0 s → level_only s0 (advance dt s).
Proof.
  intros Hs. apply (level_only_eq s); [done|by rw_frame (advance_frame dt s)..].
Qed.

Lemma run_level_only tr s : level_only s0 s → level_only s0 (run tr s).
Proof.
  revert s. induction tr as [|e tr IH]; intros s Hs; simpl; [done|].
  apply IH. unfold step. by apply handle_level_only, advance_level_only.
Qed.
End run_level_only.

(** ** Timer identifiers *)

Lemma ids_ok_eq s s' :
  ids_ok s → timers s' = timers s → next_timer s' = next_timer s →
  start_listeners s' = start_listeners s → ids_ok s'.
Proof. unfold ids_ok. intros H -> -> ->. done. Qed.

Lemma ids_ok_sub (Q : Timer → Prop) `{∀ t, Decision (Q t)} s s' :
  ids_ok s → timers s' = filter Q (timers s) → next_timer s' = next_timer s →
  start_listeners s' = start_listeners s → ids_ok s'.
Proof.
  unfold ids_ok. intros (H1 & H2 & H3) -> -> ->.
  split_and!; [|done|]; by apply clear_only_filter.
Qed.

Lemma setTimeout_ids_ok a d s : ids_ok s → ids_ok (setTimeout a d s).
Proof.
  intros (H1 & H2 & H3). unfold ids_ok. simpl. split_and!.
  - apply Forall_app. split; [|apply Forall_singleton; simpl; lia].
    eapply Forall_impl; [exact H1|]. simpl. lia.
  - eapply Forall_impl; [exact H2|]. simpl. lia.
  - apply Forall_app. split; [done|]. apply Forall_singleton. simpl.
    intros l Hl Heq. rewrite Forall_forall in H2. apply H2 in Hl. lia.
Qed.

Lemma start_listener_timers s l :
  timers (start_listener s l) = filter (λ t, t_id t ≠ l.1) (timers s).
Proof. unfold start_listener. by frames. Qed.

Lemma start_listener_ids_ok s l : ids_ok s → ids_ok (start_listener s l).
Proof.
  intros Hs. eapply (ids_ok_sub _ s); [done|apply start_listener_timers|..];
    by rw_frame (start_listener_frame s l).
Qed.

Lemma fold_listeners_ids_ok ls s : ids_ok s → ids_ok (foldl start_listener s ls).
Proof.
  revert s. induction ls as [|l ls IH]; intros s Hs; simpl; [done|].
  by apply IH, start_listener_ids_ok.
Qed.

Lemma on_log_ids_ok pid r s : ids_ok s → ids_ok (on_log pid r s).
Proof.
  intros Hs. unfold on_log. destruct (is_ready r); [|by case_match].
  set (s2 := emit_start (set_uri ("http://" +:+ show_field (address r)) s)).
  assert (H2 : ids_ok s2).
  { unfold s2, emit_start. apply fold_listeners_ids_ok. by apply (ids_ok_eq s). }
  destruct (procs s2 !! pid) as [p|]; [|by case_match].
  destruct (p_filter p); try by case_match.
  match goal with
  | |- context [setTimeout ?a ?d ?x] =>
      assert (H3 : ids_ok (setTimeout a d x))
  end.
  { apply setTimeout_ids_ok. apply (ids_ok_eq s2); [done|by frames..]. }
  by case_match.
Qed.

Lemma spawnChild_ids_ok s : ids_ok s → ids_ok (spawnChild s).
Proof. intros Hs. apply (ids_ok_eq s); [done|by frames..]. Qed.

Lemma deliver_exit_ids_ok pid code sg s :
  ids_ok s → ids_ok (deliver_exit pid code sg s).
Proof.
  intros Hs. unfold deliver_exit.
  destruct (procs s !! pid) as [p|]; [|done]. destruct (p_alive p); [|done].
  apply (ids_ok_eq s); [done|..].
  all: rw_frame (settle_all_frame (Resolved VUndefined) (p_exit_waiters p)
         (on_exit code sg (update_proc pid (proc_set_p_alive false) s))).
  all: unfold on_exit; frames; destruct (running (this s)); simpl; [|by frames].
  all: case_bool_decide; by frames.
Qed.

Lemma start_ids_ok s : ids_ok s → ids_ok (start s).2.
Proof.
  intros (H1 & H2 & H3). unfold start. destruct (running (this s)); cbn [snd]; [done|].
  unfold ids_ok. frames. split_and!.
  - apply Forall_app. split; [|apply Forall_singleton; simpl; lia].
    eapply Forall_impl; [exact H1|]. simpl. lia.
  - apply Forall_app. split; [|apply Forall_singleton; simpl; lia].
    eapply Forall_impl; [exact H2|]. simpl. lia.
  - apply Forall_app. split.
    + rewrite Forall_forall in H1, H3. apply Forall_forall. intros t Ht l Hl Heq.
      apply elem_of_app in Hl as [Hl|Hl%list_elem_of_singleton].
      * by apply (H3 t Ht l).
      * subst l. simpl in Heq. apply H1 in Ht. lia.
    + apply Forall_singleton. simpl. intros l Hl Heq. by eexists.
Qed.

Lemma stop_ids_ok s : ids_ok s → ids_ok (stop s).2.
Proof.
  intros Hs. unfold stop. destruct (child (this s)); cbn [snd]; try done;
    (apply (ids_ok_eq s); [done|by frames..]).
Qed.

Lemma handle_ids_ok ev s : ids_ok s → ids_ok (handle ev s).
Proof.
  intros Hs. destruct ev as [| |pid r|pid b|pid code sg]; cbn [handle].
  - by apply start_ids_ok.
  - by apply stop_ids_ok.
  - case_match; [by apply on_log_ids_ok|done].
  - case_match; [|done]. by apply (ids_ok_eq s).
  - by apply deliver_exit_ids_ok.
Qed.

Lemma advance_ids_ok dt s : ids_ok s → ids_ok (advance dt s).
Proof.
  intros Hs.
  apply (ids_ok_sub (λ tm, is_due (now s + dt) tm = false) s);
    [done|by rw_frame (advance_frame dt s)..].
Qed.

Lemma run_ids_ok tr s : ids_ok s → ids_ok (run tr s).
Proof.
  revert s. induction tr as [|e tr IH]; intros s Hs; simpl; [done|].
  apply IH. unfold step. by apply handle_ids_ok, advance_ids_ok.
Qed.

(** The listeners of [start] leave the grace timers alone. *)
Lemma emit_start_keeps_clear k t s :
  ids_ok s → t ∈ timers s → clears k t → t ∈ timers (emit_start s).
Proof.
  intros (_ & _ & H3) Ht Hk. unfold emit_start.
  assert (Hl : ∀ l, l ∈ start_listeners s → t_id t ≠ l.1).
  { intros l Hl Heq. rewrite Forall_forall in H3.
    destruct (H3 t Ht l Hl Heq) as [p Hp]. unfold clears in Hk. congruence. }
  revert Hl Ht. generalize (start_listeners s) as ls. intros ls. revert s H3.
  induction ls as [|l ls IH]; intros s H3 Hl Ht; simpl; [done|].
  apply IH.
  - rewrite start_listener_timers. rw_frame (start_listener_frame s l).
    apply clear_only_filter. eapply Forall_impl; [exact H3|]. simpl.
    intros. by eauto.
  - intros l' Hl'. apply Hl. by right.
  - rewrite start_listener_timers. apply list_elem_of_filter. split; [|done].
    apply Hl. by left.
Qed.

(** ** The fields of one process along a run *)

Lemma field_at_fmap {A} (g : Proc → A) k s s' :
  g <$> procs s' = g <$> procs s → field_at g k s' = field_at g k s.
Proof.
  intros H. unfold field_at. by rewrite <- !list_lookup_fmap, H.
Qed.

Lemma field_at_snoc {A} (g : Proc → A) k s s' x :
  g <$> procs s' = (g <$> procs s) ++ [x] → is_Some (procs s !! k) →
  field_at g k s' = field_at g k s.
Proof.
  intros H [p Hp]. unfold field_at. rewrite <- !list_lookup_fmap, H.
  assert (Hg : (g <$> procs s) !! k = Some (g p)) by by rewrite list_lookup_fmap, Hp.
  rewrite Hg. by apply lookup_app_l_Some.
Qed.

Lemma field_at_is_Some {A} (g : Proc → A) k s :
  is_Some (field_at g k s) ↔ is_Some (procs s !! k).
Proof. unfold field_at. by rewrite fmap_is_Some. Qed.

Lemma proc_filter_field k s f :
  field_at p_filter k s = Some f → proc_filter k s = f.
Proof.
  unfold field_at, proc_filter. destruct (procs s !! k); simpl; congruence.
Qed.

Section field_along.
Context {A : Type} (g : Proc → A).
Hypothesis g_alive : ∀ b p, g (proc_set_p_alive b p) = g p.
Hypothesis g_signals : ∀ l p, g (proc_set_p_signals l p) = g p.
Hypothesis g_waiters : ∀ l p, g (proc_set_p_exit_waiters l p) = g p.

Lemma start_field_at k s :
  is_Some (procs s !! k) → field_at g k (start s).2 = field_at g k s.
Proof.
  intros Hk. unfold start. destruct (running (this s)); cbn [snd]; [done|].
  destruct (spawnChild_fmap g (set_this (eng_set_running true (this s)) s))
    as (q & Hq & _).
  eapply field_at_snoc; [|done]. frames. exact Hq.
Qed.

Lemma stop_field_at k s : field_at g k (stop s).2 = field_at g k s.
Proof. apply field_at_fmap. by apply stop_fmap. Qed.

Lemma deliver_exit_field_at k pid code sg s :
  is_Some (procs s !! k) →
  field_at g k (deliver_exit pid code sg s) = field_at g k s.
Proof.
  intros Hk. unfold deliver_exit.
  destruct (procs s !! pid) as [p|]; [|done]. destruct (p_alive p); [|done].
  set (s1 := update_proc pid (proc_set_p_alive false) s).
  assert (H1 : g <$> procs s1 = g <$> procs s).
  { unfold s1. apply update_proc_fmap. intros. apply g_alive. }
  unfold field_at.
  rw_frame (settle_all_frame (Resolved VUndefined) (p_exit_waiters p)
              (on_exit code sg s1)).
  fold (field_at g k (on_exit code sg s1)).
  unfold on_exit. destruct (negb (running (this (set_uri "" s1)))).
  { by apply field_at_fmap. }
  case_bool_decide; [by apply field_at_fmap|].
  match goal with
  | |- context [spawnChild ?x] => destruct (spawnChild_fmap g x) as (q & Hq & _)
  end.
  simpl in Hq. rewrite H1 in Hq. by eapply field_at_snoc.
Qed.

Lemma advance_startup_field_at k s t pr :
  t_action t = StartupTimeout pr →
  field_at g k (fire_timer s t) = field_at g k s.
Proof.
  intros Ht. apply field_at_fmap. unfold fire_timer. rewrite Ht.
  match goal with
  | |- context [settle ?a ?b ?c] => rw_frame (settle_frame a b c)
  end.
  simpl. destruct (child (this s)); try done. simpl. by rewrite kill_fmap.
Qed.

Lemma fire_other_field_at k s t pid :
  t_action t = ClearFilter pid → pid ≠ k →
  field_at g k (fire_timer s t) = field_at g k s.
Proof.
  intros Ht Hne. unfold fire_timer, field_at. rewrite Ht.
  rewrite update_proc_lookup. by rewrite decide_False.
Qed.

(** Fields other than [p_stdin] survive every handler. *)
Lemma handle_field_at k ev s :
  (∀ l p, g (proc_set_p_stdin l p) = g p) →
  is_Some (procs s !! k) →
  field_at g k (handle ev s) = field_at g k s.
Proof.
  intros g_stdin Hk. destruct ev as [| |pid r|pid b|pid code sg]; cbn [handle].
  - by apply start_field_at.
  - apply stop_field_at.
  - case_match; [|done]. apply field_at_fmap. by apply on_log_fmap.
  - by case_match.
  - by apply deliver_exit_field_at.
Qed.
End field_along.

Lemma on_log_quiet pid r s :
  is_ready r = false → procs (on_log pid r s) = procs s ∧
                       timers (on_log pid r s) = timers s.
Proof. intros Hr. unfold on_log. rewrite Hr. by case_match. Qed.

Lemma on_log_other {A} (g : Proc → A) k pid r s :
  pid ≠ k → field_at g k (on_log pid r s) = field_at g k s.
Proof.
  intros Hne. unfold on_log, field_at. destruct (is_ready r); [|by case_match].
  set (s2 := emit_start (set_uri ("http://" +:+ show_field (address r)) s)).
  assert (H2 : procs s2 = procs s) by (unfold s2; by frames).
  destruct (procs s2 !! pid) as [p|]; [|case_match; simpl; by rewrite H2].
  destruct (p_filter p); try (case_match; simpl; by rewrite H2).
  assert (H3 : ∀ x, procs (setTimeout (ClearFilter pid) 1000
                 (stdin_write pid x (set_level (p_logLevel p) s2))) !! k
               = procs s !! k).
  { intros x. frames. unfold stdin_write. rewrite update_proc_lookup.
    rewrite decide_False by done. by frames; rewrite H2. }
  case_match; cbn [procs set_console_log]; by rewrite H3.
Qed.

(** What was written to the stdin of [k] changes only with its own start-up
    record. *)
Lemma handle_stdin_at k ev s :
  ready_from k ev = false → is_Some (procs s !! k) →
  field_at p_stdin k (handle ev s) = field_at p_stdin k s.
Proof.
  intros Hev Hk. destruct ev as [| |pid r|pid b|pid code sg]; cbn [handle].
  - by apply start_field_at.
  - by apply stop_field_at.
  - case_match; [|done]. simpl in Hev.
    destruct (decide (pid = k)) as [->|Hne].
    + rewrite bool_decide_eq_true_2 in Hev by done. simpl in Hev.
      unfold field_at. by destruct (on_log_quiet k r s Hev) as [-> _].
    + by apply on_log_other.
  - by case_match.
  - by apply deliver_exit_field_at.
Qed.

Lemma handle_is_Some k ev s :
  is_Some (procs s !! k) → is_Some (procs (handle ev s) !! k).
Proof.
  intros Hk. apply (field_at_is_Some p_filter).
  rewrite handle_field_at by done. by apply field_at_is_Some.
Qed.

Lemma advance_is_Some k dt s :
  is_Some (procs s !! k) → is_Some (procs (advance dt s) !! k).
Proof.
  intros Hk. apply (field_at_is_Some p_alive).
  rewrite (field_at_fmap p_alive k s) by (by apply advance_fmap).
  by apply field_at_is_Some.
Qed.

(** ** The filter of one process *)

Lemma fire_timer_filter_at k s t :
  field_at p_filter k (fire_timer s t) =
  if decide (clears k t) then (λ _, FltNull) <$> field_at p_filter k s
  else field_at p_filter k s.
Proof.
  destruct (decide (clears k t)) as [Hc|Hc]; unfold clears in Hc.
  - unfold fire_timer, field_at. rewrite Hc.
    rewrite update_proc_lookup, decide_True by done.
    by destruct (procs s !! k).
  - destruct (t_action t) as [pr|pid] eqn:Ht.
    + by eapply advance_startup_field_at.
    + eapply fire_other_field_at; [done..|congruence].
Qed.

Lemma fold_fire_filter_at k ts s :
  field_at p_filter k (foldl fire_timer s ts) =
  if decide (Exists (clears k) ts) then (λ _, FltNull) <$> field_at p_filter k s
  else field_at p_filter k s.
Proof.
  revert s. induction ts as [|t ts IH]; intros s; cbn [foldl].
  - rewrite decide_False; [done|]. by intros ?%Exists_nil.
  - rewrite IH, fire_timer_filter_at.
    destruct (decide (clears k t)) as [Ht|Ht].
    + rewrite (decide_True (P := Exists (clears k) (t :: ts))) by by left.
      case_decide; [|done]. by destruct (field_at p_filter k s).
    + destruct (decide (Exists (clears k) ts)) as [He|He].
      * by rewrite decide_True by by right.
      * rewrite decide_False; [done|]. by intros [?|?]%Exists_cons.
Qed.

Lemma advance_filter_keep k dt s :
  Forall (λ t, clears k t → (now s + dt < t_due t)%N) (timers s) →
  field_at p_filter k (advance dt s) = field_at p_filter k s.
Proof.
  intros Hk. unfold advance. rewrite fold_fire_filter_at.
  rewrite decide_False; [done|].
  intros [t [[Hd Ht]%list_elem_of_filter Hc]]%Exists_exists.
  rewrite Forall_forall in Hk. specialize (Hk t Ht Hc).
  unfold is_due in Hd. apply N.leb_le in Hd. lia.
Qed.

Lemma advance_filter_null k dt s t :
  t ∈ timers s → clears k t → (t_due t ≤ now s + dt)%N →
  field_at p_filter k (advance dt s) = (λ _, FltNull) <$> field_at p_filter k s.
Proof.
  intros Ht Hc Hd. unfold advance. rewrite fold_fire_filter_at.
  rewrite decide_True; [done|]. apply Exists_exists. exists t. split; [|done].
  apply list_elem_of_filter. split; [|done]. unfold is_due. by apply N.leb_le.
Qed.

Lemma advance_filter_absorb k dt s :
  field_at p_filter k s = Some FltNull →
  field_at p_filter k (advance dt s) = Some FltNull.
Proof.
  intros H. unfold advance. rewrite fold_fire_filter_at.
  unfold field_at in *. simpl. rewrite H. by case_decide.
Qed.

(** ** Which timers a handler adds and which it removes *)

Lemma emit_start_timers_sub s t : t ∈ timers (emit_start s) → t ∈ timers s.
Proof.
  pose proof (emit_start_timers (λ t, t ∈ timers s) s) as H.
  rewrite !Forall_forall in H. apply H. done.
Qed.

Lemma on_log_timers_new pid r s t :
  t ∈ timers (on_log pid r s) →
  t ∈ timers s ∨
  (is_ready r = true ∧ t_action t = ClearFilter pid ∧ t_due t = (now s + 1000)%N).
Proof.
  unfold on_log. destruct (is_ready r) eqn:Hr; [|left; by case_match].
  set (s2 := emit_start (set_uri ("http://" +:+ show_field (address r)) s)).
  assert (Hsub : ∀ t, t ∈ timers s2 → t ∈ timers s).
  { intros t' Ht'. by apply emit_start_timers_sub in Ht'. }
  assert (Hnow : now s2 = now s) by (unfold s2; by frames).
  destruct (procs s2 !! pid) as [p|]; [|intros Ht; left; apply Hsub; by case_match].
  destruct (p_filter p); try (intros Ht; left; apply Hsub; by case_match).
  intros Ht.
  assert (Ht' : t ∈ timers s2 ++ [ {| t_id := next_timer s2; t_due := (now s2 + 1000)%N;
                                      t_action := ClearFilter pid |} ]).
  { revert Ht. case_match; by frames. }
  apply elem_of_app in Ht' as [?|Heq%list_elem_of_singleton]; [left; by apply Hsub|].
  subst t. right. simpl. by rewrite Hnow.
Qed.

Lemma handle_timers_new ev s t :
  t ∈ timers (handle ev s) →
  t ∈ timers s ∨ (∃ p, t_action t = StartupTimeout p) ∨
  (∃ pid r, ev = StdoutRecord pid r ∧ is_ready r = true ∧
            t_action t = ClearFilter pid ∧ t_due t = (now s + 1000)%N).
Proof.
  destruct ev as [| |pid r|pid b|pid code sg]; cbn [handle].
  - unfold start. destruct (running (this s)); cbn [snd]; [by left|]. frames.
    intros [?|Heq%list_elem_of_singleton]%elem_of_app; [by left|].
    subst t. right; left. by eexists.
  - unfold stop. destruct (child (this s)); cbn [snd]; frames; by left.
  - case_match; [|by left].
    intros [?|(? & ? & ?)]%on_log_timers_new; [by left|].
    right; right. by exists pid, r.
  - case_match; by left.
  - intros Ht. left. revert Ht. unfold deliver_exit.
    destruct (procs s !! pid) as [p|]; [|done]. destruct (p_alive p); [|done].
    rw_frame (settle_all_frame (Resolved VUndefined) (p_exit_waiters p)
      (on_exit code sg (update_proc pid (proc_set_p_alive false) s))).
    unfold on_exit. destruct (negb _); [by frames|].
    case_bool_decide; by frames.
Qed.

Lemma handle_keeps_clear k ev s t :
  ids_ok s → t ∈ timers s → clears k t → t ∈ timers (handle ev s).
Proof.
  intros Hok Ht Hc. destruct ev as [| |pid r|pid b|pid code sg]; cbn [handle].
  - unfold start. destruct (running (this s)); cbn [snd]; [done|]. frames.
    apply elem_of_app. by left.
  - unfold stop. destruct (child (this s)); cbn [snd]; by frames.
  - case_match; [|done]. unfold on_log. destruct (is_ready r); [|by case_match].
    set (s2 := emit_start (set_uri ("http://" +:+ show_field (address r)) s)).
    assert (H2 : t ∈ timers s2).
    { unfold s2. apply (emit_start_keeps_clear k); [by apply (ids_ok_eq s)|done..]. }
    destruct (procs s2 !! pid) as [p|]; [|by case_match].
    destruct (p_filter p); try by case_match.
    case_match; frames; apply elem_of_app; by left.
  - by case_match.
  - unfold deliver_exit.
    destruct (procs s !! pid) as [p|]; [|done]. destruct (p_alive p); [|done].
    rw_frame (settle_all_frame (Resolved VUndefined) (p_exit_waiters p)
      (on_exit code sg (update_proc pid (proc_set_p_alive false) s))).
    unfold on_exit. destruct (negb _); [by frames|].
    case_bool_decide; by frames.
Qed.

(** ** Before the start-up record *)

Lemma field_at_Some_is_Some {A} (g : Proc → A) k s x :
  field_at g k s = Some x → is_Some (procs s !! k).
Proof. intros H. apply (field_at_is_Some g). by rewrite H. Qed.

Lemma advance_hacked k F lvl docs dt s :
  hacked k F lvl docs s → hacked k F lvl docs (advance dt s).
Proof.
  intros (Hf & Hl & Hd & Ht). unfold hacked. split_and!.
  - rewrite advance_filter_keep; [done|].
    eapply Forall_impl; [exact Ht|]. simpl. by intros t Hn Hc.
  - by rewrite (field_at_fmap p_logLevel k s) by by apply advance_fmap.
  - by rewrite (field_at_fmap p_stdin k s) by by apply advance_fmap.
  - rw_frame (advance_frame dt s). by apply clear_only_filter.
Qed.

Lemma handle_hacked k F lvl docs ev s :
  hacked k F lvl docs s → ready_from k ev = false →
  hacked k F lvl docs (handle ev s).
Proof.
  intros (Hf & Hl & Hd & Ht) Hev.
  assert (Hk : is_Some (procs s !! k)) by by eapply field_at_Some_is_Some.
  unfold hacked. split_and!.
  - by rewrite handle_field_at.
  - by rewrite handle_field_at.
  - by rewrite handle_stdin_at.
  - apply Forall_forall. intros t Hin.
    apply handle_timers_new in Hin as [Hin|[[p Hp]|(pid & r & -> & Hr & Ha & _)]].
    + rewrite Forall_forall in Ht. by apply Ht.
    + unfold clears. congruence.
    + unfold clears. rewrite Ha. intros [= ->]. simpl in Hev.
      by rewrite bool_decide_eq_true_2, Hr in Hev.
Qed.

Lemma run_hacked k F lvl docs tr s :
  hacked k F lvl docs s → Forall (λ e, ready_from k e.2 = false) tr →
  hacked k F lvl docs (run tr s).
Proof.
  revert s. induction tr as [|e tr IH]; intros s Hs Htr; simpl; [done|].
  apply Forall_cons in Htr as [He Htr]. apply IH; [|done].
  unfold step. apply handle_hacked; [|done]. by apply advance_hacked.
Qed.

Lemma spawnChild_hacked s0 d0 s lvl F :
  stringify (heap s0) (engineConfig (this s0)) = Some d0 →
  level_only s0 s → get_level s = Some lvl → hack_filter lvl = Some F →
  procs (spawnChild s) =
  procs s ++ [ {| p_alive := true; p_stdin := [Some (with_level (Some "info") d0)];
                  p_signals := []; p_logLevel := Some lvl;
                  p_filter := FltRegex F; p_exit_waiters := [] |} ].
Proof.
  intros Hd0 Hs Hl HF. unfold spawnChild. rewrite Hl, HF.
  rewrite (hack_filter_truthy _ _ HF).
  destruct (level_only_state s0 s d0 Hs Hd0) as (lv & _ & _ & H).
  destruct (H (Some "info")) as (_ & _ & Hstr). rewrite Hstr.
  simpl. by frames.
Qed.

Lemma start_hacked s0 d0 lvl F :
  stringify (heap s0) (engineConfig (this s0)) = Some d0 →
  level_only s0 s0 → get_level s0 = Some lvl → hack_filter lvl = Some F →
  running (this s0) = false → procs s0 = [] → timers s0 = [] →
  hacked 0 F lvl [Some (with_level (Some "info") d0)] (start s0).2.
Proof.
  intros Hd0 Hlo Hl HF Hr Hp Ht. unfold start. rewrite Hr. cbn [snd].
  set (s1 := set_this (eng_set_running true (this s0)) s0).
  assert (H1 : procs (spawnChild s1) =
    procs s1 ++ [ {| p_alive := true; p_stdin := [Some (with_level (Some "info") d0)];
                     p_signals := []; p_logLevel := Some lvl;
                     p_filter := FltRegex F; p_exit_waiters := [] |} ]).
  { by apply (spawnChild_hacked s0). }
  unfold hacked, field_at. frames. rewrite H1, Ht. unfold s1. simpl. rewrite Hp.
  split_and!; try done. by apply Forall_singleton.
Qed.

(** ** The start-up record of a process with a filter *)

Lemma on_log_ready_hacked s0 d0 k F lvl docs r s :
  stringify (heap s0) (engineConfig (this s0)) = Some d0 →
  level_only s0 s → hacked k F lvl docs s → is_ready r = true →
  field_at p_stdin k (on_log k r s) = Some (docs ++ [Some (with_level (Some lvl) d0)]) ∧
  ∃ t, t ∈ timers (on_log k r s) ∧ clears k t ∧ t_due t = (now s + 1000)%N.
Proof.
  intros Hd0 Hlo (Hf & Hl & Hd & Ht) Hr.
  unfold field_at in *. destruct (procs s !! k) as [p|] eqn:Hp; [|done].
  simpl in *. simplify_eq.
  unfold on_log. rewrite Hr.
  set (s2 := emit_start (set_uri ("http://" +:+ show_field (address r)) s)).
  assert (H2 : procs s2 = procs s) by (unfold s2; by frames).
  assert (Hn2 : now s2 = now s) by (unfold s2; by frames).
  assert (Hlo2 : level_only s0 s2).
  { apply (level_only_eq s0 s); [done|unfold s2; by frames..]. }
  rewrite H2, Hp.
  match goal with H : p_filter p = _ |- _ => rewrite H end.
  match goal with H : p_logLevel p = _ |- _ => rewrite H end.
  destruct (level_only_state s0 s2 d0 Hlo2 Hd0) as (lv & _ & _ & H).
  destruct (H (Some lvl)) as (_ & _ & Hstr). rewrite Hstr.
  split.
  - case_match; cbn [procs set_console_log]; frames;
      unfold stdin_write; rewrite update_proc_lookup, decide_True by done;
      frames; by rewrite H2, Hp.
  - eexists {| t_id := _; t_due := _; t_action := ClearFilter k |}.
    split_and!; [|done|simpl; by rewrite <- Hn2].
    case_match; frames; apply elem_of_app; right; by apply list_elem_of_singleton.
Qed.

Lemma ready_step_grace s0 d0 k F lvl docs dt r s :
  stringify (heap s0) (engineConfig (this s0)) = Some d0 →
  level_only s0 s → ids_ok s → hacked k F lvl docs s →
  is_ready r = true → alive k s = true →
  let s2 := step s (dt, StdoutRecord k r) in
  field_at p_stdin k s2 = Some (docs ++ [Some (with_level (Some lvl) d0)]) ∧
  grace k F (now s2 + 1000) s2.
Proof.
  intros Hd0 Hlo Hok Hh Hr Hal. cbv zeta. unfold step. cbn [fst snd handle].
  rewrite advance_spawned, (alive_spawned _ _ Hal).
  set (s1 := advance dt s).
  assert (Hh1 : hacked k F lvl docs s1) by by apply advance_hacked.
  assert (Hlo1 : level_only s0 s1) by by apply (advance_level_only s0).
  assert (Hok1 : ids_ok s1) by by apply advance_ids_ok.
  destruct (on_log_ready_hacked s0 d0 k F lvl docs r s1 Hd0 Hlo1 Hh1 Hr)
    as (Hstd & t & Ht & Hc & Hdue).
  assert (Hnow : now (on_log k r s1) = now s1) by apply on_log_frame.
  split; [done|]. unfold grace. rewrite Hnow.
  split_and!; [by apply on_log_ids_ok|lia|].
  rewrite (proj2 (N.ltb_lt _ _)) by lia.
  destruct Hh1 as (Hf1 & _ & _ & Ht1).
  split_and!.
  - by rewrite (field_at_fmap p_filter k s1) by by apply on_log_fmap.
  - by exists t.
  - apply Forall_forall. intros t' Hin Hc'.
    apply on_log_timers_new in Hin as [Hin|(_ & _ & ->)]; [|lia].
    rewrite Forall_forall in Ht1. by apply Ht1 in Hin.
Qed.

(** ** The grace window *)

Lemma advance_grace k F T1 dt s : grace k F T1 s → grace k F T1 (advance dt s).
Proof.
  intros (Hok & Hn & H). unfold grace.
  rw_frame (advance_frame dt s).
  split_and!; [by apply advance_ids_ok|lia|].
  destruct (now s <? T1)%N eqn:Hlt.
  - apply N.ltb_lt in Hlt. destruct H as (Hf & (t & Ht & Hc & Hdue) & Hall).
    destruct (now s + dt <? T1)%N eqn:Hlt'.
    + apply N.ltb_lt in Hlt'. split_and!.
      * rewrite advance_filter_keep; [done|].
        eapply Forall_impl; [exact Hall|]. simpl. intros t' Ht' Hc'.
        specialize (Ht' Hc'). lia.
      * exists t. split_and!; try done. apply list_elem_of_filter. split; [|done].
        unfold is_due. apply N.leb_gt. lia.
      * by apply clear_only_filter.
    + apply N.ltb_ge in Hlt'.
      rewrite (advance_filter_null k dt s t) by (done || lia). by rewrite Hf.
  - apply N.ltb_ge in Hlt. rewrite (proj2 (N.ltb_ge _ _)) by lia.
    by apply advance_filter_absorb.
Qed.

Lemma handle_grace k F T1 ev s : grace k F T1 s → grace k F T1 (handle ev s).
Proof.
  intros (Hok & Hn & H). unfold grace. rewrite handle_now.
  split_and!; [by apply handle_ids_ok|done|].
  destruct (now s <? T1)%N eqn:Hlt.
  - destruct H as (Hf & (t & Ht & Hc & Hdue) & Hall).
    assert (Hk : is_Some (procs s !! k)) by by eapply field_at_Some_is_Some.
    split_and!.
    + by rewrite handle_field_at.
    + exists t. split_and!; try done. by apply (handle_keeps_clear k).
    + apply Forall_forall. intros t' Hin Hc'.
      apply handle_timers_new in Hin as [Hin|[[p Hp]|(pid & r & _ & _ & _ & ->)]].
      * rewrite Forall_forall in Hall. by apply Hall.
      * unfold clears in Hc'. congruence.
      * done.
  - assert (Hk : is_Some (procs s !! k)) by by eapply field_at_Some_is_Some.
    by rewrite handle_field_at.
Qed.

Lemma run_grace k F T1 tr s : grace k F T1 s → grace k F T1 (run tr s).
Proof.
  revert s. induction tr as [|e tr IH]; intros s Hs; simpl; [done|].
  apply IH. unfold step. by apply handle_grace, advance_grace.
Qed.

(** What the last statement of the log handler does. *)
Lemma on_log_console pid r s :
  console_log (on_log pid r s) =
  if should_print (proc_filter pid s) r then console_log s ++ [r] else console_log s.
Proof.
  assert (Hf : ∀ s', p_filter <$> procs s' = p_filter <$> procs s →
                     proc_filter pid s' = proc_filter pid s).
  { intros s' H. pose proof (field_at_fmap p_filter pid s s' H) as H'.
    unfold field_at in H'. unfold proc_filter.
    by destruct (procs s' !! pid), (procs s !! pid); simplify_eq/=. }
  unfold on_log. destruct (is_ready r); [|by case_match].
  set (s2 := emit_start (set_uri ("http://" +:+ show_field (address r)) s)).
  assert (H2 : procs s2 = procs s) by (unfold s2; by frames).
  assert (Hc2 : console_log s2 = console_log s) by (unfold s2; by frames).
  destruct (procs s2 !! pid) as [p|] eqn:Hp.
  - destruct (p_filter p) eqn:Hfp.
    1,2: rewrite (Hf s2) by (by rewrite H2); case_match; simpl; by rewrite Hc2.
    match goal with
    | |- context [setTimeout ?a ?d ?x] =>
        assert (H3 : proc_filter pid (setTimeout a d x) = proc_filter pid s);
        [apply Hf; frames; rewrite stdin_write_fmap by done; frames; by rewrite H2|]
    end.
    rewrite H3. case_match; frames; by rewrite Hc2.
  - rewrite (Hf s2) by (by rewrite H2). case_match; simpl; by rewrite Hc2.
Qed.

Lemma ids_ok_initial s :
  timers s = [] → start_listeners s = [] → ids_ok s.
Proof. intros Ht Hl. unfold ids_ok. rewrite Ht, Hl. by split_and!. Qed.

(** The level of the first child of the first [start()]. For an engine
    constructed with a logging level [lvl] that one of the three level
    patterns accepts (the filter being [F]; "error" gives the
    filter for error and fatal): the first document written to the first
    child is the configuration with level "info"; whatever happens before
    that child's start-up record, nothing more is written to it and its
    filter stays in place; its start-up record writes a second document,
    the configuration with level [lvl]; and in any state reached later the
    filter is in place exactly while less than 1000 ms have passed since the
    start-up record, and is null from then on. The log handler prints a
    record exactly when [should_print] accepts it for the current filter,
    so a record with a level the filter does not match ("info", "debug" and
    "warn" for "error") is dropped while the filter is in place and printed
    once it is null. *)
Theorem level_hack (host : Host) (sc : SideloadConfig) (h0 : Heap) (s0 : State)
    (lvl : string) (F : LevelFilter) :
  construct host sc h0 = Constructed s0 →
  get_level s0 = Some lvl → hack_filter lvl = Some F →
  ∃ d0 g,
    stringify (heap s0) (engineConfig (this s0)) = Some d0 ∧
    d_logging d0 = Some g ∧ level g = Some lvl ∧
    let first := Some (with_level (Some "info") d0) in
    let second := Some (with_level (Some lvl) d0) in
    (∀ tr1, Forall (λ e, ready_from 0 e.2 = false) tr1 →
       let s := run tr1 (start s0).2 in
       field_at p_stdin 0 s = Some [first] ∧ proc_filter 0 s = FltRegex F ∧
       ∀ dt r tr2, is_ready r = true → alive 0 s = true →
         let s2 := step s (dt, StdoutRecord 0 r) in
         let s3 := run tr2 s2 in
         field_at p_stdin 0 s2 = Some [first; second] ∧
         proc_filter 0 s3 =
           if (now s3 <? now s2 + 1000)%N then FltRegex F else FltNull) ∧
    (∀ pid r s, console_log (on_log pid r s) =
                if should_print (proc_filter pid s) r
                then console_log s ++ [r] else console_log s) ∧
    (∀ r l, rec_level r = Some l → str_truthy l = true →
            filter_matches F l = false →
            should_print (FltRegex F) r = false ∧ should_print FltNull r = true) ∧
    hack_filter "error" = Some FError ∧
    filter_matches FError "info" = false ∧
    filter_matches FError "debug" = false ∧
    filter_matches FError "warn" = false.
Proof.
  intros Hc Hlvl HF.
  destruct (construct_initial _ _ _ _ Hc)
    as (Hp0 & Ht0 & Hpr0 & Hl0 & Hnow0 & Hnt0 & _ & _ & Hr0 & _).
  destruct (construct_wf _ _ _ _ Hc) as (lg & g & d0 & Hlg & Hg & _ & _ & Hd0 & Hdl).
  assert (Hlo0 : level_only s0 s0) by by apply (level_only_refl s0 lg g).
  assert (Hok0 : ids_ok s0) by by apply ids_ok_initial.
  assert (Hgl : level g = Some lvl).
  { unfold get_level in Hlvl. rewrite Hlg in Hlvl. simpl in Hlvl.
    by rewrite Hg in Hlvl. }
  exists d0, g. cbv zeta. split_and!; try done.
  - intros tr1 Htr1.
    set (s := run tr1 (start s0).2).
    assert (Hh : hacked 0 F lvl [Some (with_level (Some "info") d0)] s).
    { apply run_hacked; [|done]. by apply start_hacked. }
    assert (Hlo : level_only s0 s).
    { apply (run_level_only s0 d0 Hd0). by apply (handle_level_only s0 d0 Hd0 CallStart). }
    assert (Hok : ids_ok s) by by apply run_ids_ok, start_ids_ok.
    split_and!.
    + by destruct Hh as (_ & _ & ? & _).
    + apply proc_filter_field. by destruct Hh as (? & _).
    + intros dt r tr2 Hr Hal.
      set (s2 := step s (dt, StdoutRecord 0 r)). set (s3 := run tr2 s2).
      destruct (ready_step_grace s0 d0 0 F lvl _ dt r s Hd0 Hlo Hok Hh Hr Hal)
        as [Hstd Hgr].
      split; [done|].
      apply (run_grace _ _ _ tr2) in Hgr. destruct Hgr as (_ & _ & Hgr).
      fold s2 in Hgr. fold s3 in Hgr.
      destruct (now s3 <? now s2 + 1000)%N.
      * apply proc_filter_field. by destruct Hgr as (? & _).
      * by apply proc_filter_field.
  - apply on_log_console.
  - intros r l Hl Ht Hm. unfold should_print. by rewrite Hl, Ht, Hm.
Qed.

(** C2. The level is handled as described for the first child only. On the
    example engine (level "error") the first child is written the level
    "info", carries the filter for error and fatal, and an info record of
    it is dropped. When it exits with code 1 before its start-up record, the
    replacement is spawned from the configuration that still reads "info":
    it is written the level "info" and carries no filter, so an info record
    of it is printed before its start-up record; that record writes no
    second document and sets no timer, and the level "error" reaches
    neither the process nor the configuration. *)
Theorem level_hack_first_child_only :
  let s0 := run [ (0%N, CallStart) ] example_engine in
  let s1 := run early_crash example_engine in
  let r := info_record "listening" in
  let s2 := step s1 (5%N, StdoutRecord 1 r) in
  let s3 := step s2 (5%N, StdoutRecord 1 (ready_record "127.0.0.1:54321")) in
  get_level example_engine = Some "error" ∧
  (stdin_levels 0 s0 = Some [Some "info"] ∧
   field_at p_filter 0 s0 = Some (FltRegex FError) ∧
   console_log (step s0 (5%N, StdoutRecord 0 r)) = []) ∧
  (child (this s1) = CHandle 1 ∧ alive 1 s1 = true ∧
   stdin_levels 1 s1 = Some [Some "info"] ∧
   field_at p_filter 1 s1 = Some FltUndefined ∧
   field_at p_logLevel 1 s1 = Some (Some "info")) ∧
  console_log s2 = [r] ∧
  (promises s3 !! 0 = Some (Resolved (VNum (Num 54321))) ∧
   stdin_levels 1 s3 = Some [Some "info"] ∧ timers s3 = [] ∧
   field_at p_filter 1 s3 = Some FltUndefined ∧ get_level s3 = Some "info").
Proof. cbv zeta. vm_compute. by split_and!. Qed.

(** ** The constructor and the origins *)

Lemma keeps_origins_refl h : keeps_origins h h.
Proof. by split. Qed.

Lemma keeps_origins_trans h1 h2 h3 :
  keeps_origins h1 h2 → keeps_origins h2 h3 → keeps_origins h1 h3.
Proof.
  intros [Ha Hb] [Hc Hd]. split.
  - intros l. by rewrite Hc, Ha.
  - intros l os. by rewrite Hd, Hb.
Qed.

Lemma keeps_origins_insert (h : Heap) l c0 c :
  h !! l = Some c0 → plain c0 = true → plain c = true →
  keeps_origins h (<[l := c]> h).
Proof.
  intros Hl H0 Hc. split.
  - intros l'. unfold read_http. destruct (decide (l' = l)) as [->|Hne].
    + rewrite list_lookup_insert_eq by (by eapply lookup_lt_Some). rewrite Hl.
      by destruct c0, c.
    + by rewrite list_lookup_insert_ne.
  - intros l' os. destruct (decide (l' = l)) as [->|Hne].
    + rewrite list_lookup_insert_eq by (by eapply lookup_lt_Some). rewrite Hl.
      split; intros; simplify_eq; done.
    + by rewrite list_lookup_insert_ne.
Qed.

Lemma keeps_origins_snoc (h : Heap) c :
  plain c = true → keeps_origins h (h ++ [c]).
Proof.
  intros Hc. split.
  - intros l. unfold read_http. destruct (decide (l < length h)) as [Hlt|Hge].
    + by rewrite lookup_app_l.
    + rewrite (lookup_ge_None_2 h l) by lia.
      destruct (decide (l = length h)) as [->|Hne].
      * rewrite lookup_snoc. by destruct c.
      * rewrite lookup_ge_None_2; [done|]. rewrite length_app. simpl. lia.
  - intros l os. destruct (decide (l < length h)) as [Hlt|Hge].
    + by rewrite lookup_app_l.
    + rewrite (lookup_ge_None_2 h l) by lia.
      destruct (decide (l = length h)) as [->|Hne].
      * rewrite lookup_snoc. split; intros; simplify_eq; done.
      * rewrite lookup_ge_None_2; [done|]. rewrite length_app. simpl. lia.
Qed.

Lemma read_config_cell (h : Heap) l c :
  read_config h l = Some c ↔ h !! l = Some (CConfig c).
Proof.
  unfold read_config. split.
  - by destruct (h !! l) as [[]|]; intros; simplify_eq.
  - by intros ->.
Qed.

Lemma inject_frontend_keeps fe cfg h h' c :
  inject_frontend fe cfg h = Some h' → read_config h cfg = Some c →
  keeps_origins h h' ∧
  ∃ c', read_config h' cfg = Some c' ∧ origins c' = origins c.
Proof.
  unfold inject_frontend. intros H Hc. rewrite Hc in H. simpl in H.
  pose proof (proj1 (read_config_cell _ _ _) Hc) as Hcell.
  assert (Hlt : cfg < length h) by by eapply lookup_lt_Some.
  destruct (frontends c) as [l|].
  - destruct (read_frontends h l) as [fs|] eqn:Hfs; [|done]. simpl in H. simplify_eq.
    assert (Hl : h !! l = Some (CFrontends fs)).
    { unfold read_frontends in Hfs. by destruct (h !! l) as [[]|]; simplify_eq. }
    split; [by eapply keeps_origins_insert|].
    exists c. split; [|done]. apply read_config_cell.
    rewrite list_lookup_insert_ne; [done|]. intros ->. congruence.
  - simpl in H. simplify_eq. split.
    + eapply keeps_origins_trans; [by apply (keeps_origins_snoc h (CFrontends [fe]))|].
      eapply keeps_origins_insert; [by apply lookup_app_l_Some|done..].
    + exists (with_frontends (Some (length h)) c). split; [|done].
      apply read_config_cell.
      rewrite list_lookup_insert_eq; [done|]. rewrite length_app. lia.
Qed.

Lemma force_logging_keeps cfg h h' w c :
  force_logging cfg h = Some (h', w) → read_config h cfg = Some c →
  keeps_origins h h' ∧
  ∃ c', read_config h' cfg = Some c' ∧ origins c' = origins c.
Proof.
  unfold force_logging. intros H Hc. rewrite Hc in H. simpl in H.
  pose proof (proj1 (read_config_cell _ _ _) Hc) as Hcell.
  assert (Hlt : cfg < length h) by by eapply lookup_lt_Some.
  destruct (logging c) as [l|].
  - destruct (read_logging h l) as [g|] eqn:Hg; [|done]. simpl in H. simplify_eq.
    assert (Hl : h !! l = Some (CLogging g)).
    { unfold read_logging in Hg. by destruct (h !! l) as [[]|]; simplify_eq. }
    split; [by eapply keeps_origins_insert|].
    exists c. split; [|done]. apply read_config_cell.
    rewrite list_lookup_insert_ne; [done|]. intros ->. congruence.
  - simpl in H. simplify_eq. split.
    + eapply keeps_origins_trans;
        [|eapply keeps_origins_insert; [by apply lookup_app_l_Some|done..]].
      by apply keeps_origins_snoc.
    + exists (with_logging (Some (length h)) c). split; [|done].
      apply read_config_cell.
      rewrite list_lookup_insert_eq; [done|]. rewrite length_app. lia.
Qed.

Lemma assign_secret_http psk (h : Heap) o l :
  read_http (assign_secret psk h o) l =
  if decide (o_http o = Some l) then with_secret psk <$> read_http h l
  else read_http h l.
Proof.
  unfold assign_secret. destruct (o_http o) as [lh|].
  - destruct (read_http h lh) as [ht|] eqn:Hh.
    + assert (Hc : h !! lh = Some (CHttp ht)).
      { unfold read_http in Hh. by destruct (h !! lh) as [[]|]; simplify_eq. }
      case_decide as Hd; simplify_eq.
      * rewrite Hh. unfold read_http.
        by rewrite list_lookup_insert_eq by (by eapply lookup_lt_Some).
      * unfold read_http. rewrite list_lookup_insert_ne; [done|]. congruence.
    + case_decide; simplify_eq; [by rewrite Hh|done].
  - by rewrite decide_False.
Qed.

Lemma assign_secret_other psk (h : Heap) o l c :
  h !! l = Some c → (∀ ht, c ≠ CHttp ht) → assign_secret psk h o !! l = Some c.
Proof.
  intros Hl Hc. unfold assign_secret. destruct (o_http o) as [lh|]; [|done].
  destruct (read_http h lh) as [ht|] eqn:Hh; [|done].
  rewrite list_lookup_insert_ne; [done|]. intros ->.
  unfold read_http in Hh. rewrite Hl in Hh. destruct c; simplify_eq. by eapply Hc.
Qed.

Lemma with_secret_idem psk (x : option HttpObj) :
  with_secret psk <$> (with_secret psk <$> x) = with_secret psk <$> x.
Proof. by destruct x. Qed.

Lemma fold_assign_secret psk os (h : Heap) :
  (∀ l, read_http (foldl (assign_secret psk) h os) l =
        if decide (Some l ∈ o_http <$> os) then with_secret psk <$> read_http h l
        else read_http h l) ∧
  (∀ l c, h !! l = Some c → (∀ ht, c ≠ CHttp ht) →
          foldl (assign_secret psk) h os !! l = Some c).
Proof.
  revert h. induction os as [|o os IH]; intros h; cbn [foldl].
  - split; [|done]. intros l. rewrite decide_False; [done|].
    rewrite fmap_nil. apply not_elem_of_nil.
  - destruct (IH (assign_secret psk h o)) as [IH1 IH2]. split.
    + intros l. rewrite IH1, assign_secret_http. rewrite fmap_cons.
      destruct (decide (o_http o = Some l)) as [Ho|Ho].
      * rewrite (decide_True (P := Some l ∈ o_http o :: (o_http <$> os)))
          by (rewrite Ho; by left).
        case_decide; [apply with_secret_idem|done].
      * destruct (decide (Some l ∈ o_http <$> os)) as [Hin|Hin].
        -- by rewrite decide_True by by right.
        -- rewrite decide_False; [done|]. intros [?|?]%elem_of_cons; by simplify_eq.
    + intros l c Hl Hc. apply IH2; [|done]. by apply assign_secret_other.
Qed.

(** C7. After construction the origins of the engine's configuration are:
    when the source document has none, the one synthetic origin with the
    URL [http://127.0.0.1:] followed by the GraphQL port and the endpoint,
    and the generated secret; otherwise the origins of the source document,
    in order, each [http] object with its [headerSecret] replaced by the
    generated secret and everything else as it was, an origin without
    [http] object unchanged. *)
Theorem origins_after_construction (host : Host) (sc : SideloadConfig)
    (h0 h1 : Heap) (src : loc) (d0 : DocVal) (s : State) :
  load_source host sc h0 = Some (src, h1) →
  stringify h1 src = Some d0 →
  construct host sc h0 = Constructed s →
  let psk := mp_psk (middlewareParams (this s)) in
  psk = randomBytes48_hex host ∧
  ∃ d, stringify (heap s) (engineConfig (this s)) = Some d ∧
       d_origins d = Some
         match d_origins d0 with
         | None =>
             [ {| ov_params := originParams (this s);
                  ov_http := Some
                    {| url := "http://127.0.0.1:"
                              +:+ num_to_string (graphqlPort (this s))
                              +:+ mp_endpoint (middlewareParams (this s));
                       headerSecret := Some psk |};
                  ov_other := None |} ]
         | Some ovs =>
             map (λ o, {| ov_params := ov_params o;
                          ov_http := with_secret psk <$> ov_http o;
                          ov_other := ov_other o |}) ovs
         end.
Proof.
  intros Hload Hd0 Hc. unfold construct in Hc. rewrite Hload in Hc.
  destruct (read_config h1 src) as [c|] eqn:Hcs; [|done].
  assert (Hdo : d_origins d0 = origins c ≫= read_origins h1).
  { unfold stringify in Hd0. rewrite Hcs in Hd0. simpl in Hd0. by simplify_eq. }
  cbn [alloc] in Hc.
  set (cfg := length h1) in *. set (h2 := h1 ++ [CConfig c]) in *.
  assert (Hc2 : read_config h2 cfg = Some c).
  { apply read_config_cell. apply lookup_snoc. }
  assert (K12 : keeps_origins h1 h2) by by apply keeps_origins_snoc.
  destruct (resolve_graphqlPort host sc) as [port|]; [|done].
  match type of Hc with
  | match inject_frontend ?fe _ _ with _ => _ end = _ =>
      destruct (inject_frontend fe cfg h2) as [h3|] eqn:Hf; [|done];
      destruct (inject_frontend_keeps _ _ _ _ _ Hf Hc2) as (K23 & c3 & Hc3 & Ho3)
  end.
  match type of Hc with
  | match inject_origins ?a ?b ?c ?d _ _ with _ => _ end = _ =>
      destruct (inject_origins a b c d cfg h3) as [h4|] eqn:Hi; [|done]
  end.
  destruct (force_logging cfg h4) as [[h5 w]|] eqn:Hl; [|done].
  destruct (binary_package (platform host)); [|done].
  destruct (require_resolve host s0); [|done].
  simplify_eq. cbv zeta. simpl. split; [done|].
  unfold inject_origins in Hi. rewrite Hc3 in Hi. simpl in Hi.
  pose proof (proj1 (read_config_cell _ _ _) Hc3) as Hcell3.
  assert (Hlt3 : cfg < length h3) by by eapply lookup_lt_Some.
  destruct (origins c3) as [lo|] eqn:Hoc3.
  - (* the source document has origins *)
    destruct (h3 !! lo) as [[| os | | |]|] eqn:Hlo; try done. simplify_eq.
    destruct (fold_assign_secret (randomBytes48_hex host) os h3) as [Hh4 Ho4].
    assert (Hc4 : read_config (foldl (assign_secret (randomBytes48_hex host)) h3 os) cfg
                  = Some c3).
    { apply read_config_cell. by apply Ho4. }
    destruct (force_logging_keeps _ _ _ _ _ Hl Hc4) as (K45 & c5 & Hc5 & Ho5).
    assert (Hlo1 : h1 !! lo = Some (COrigins os)).
    { apply K12, K23. done. }
    assert (Hlo5 : h5 !! lo = Some (COrigins os)).
    { apply K45. by apply Ho4. }
    rewrite Hdo, <- Ho3. simpl. unfold read_origins at 1. rewrite Hlo1.
    eexists. unfold stringify. rewrite Hc5. simpl. split; [reflexivity|]. simpl.
    rewrite Ho5, Hoc3. simpl. unfold read_origins. rewrite Hlo5. f_equal.
    rewrite map_map. apply map_ext_in. intros o Hin.
    unfold read_origin. simpl. f_equal.
    destruct (o_http o) as [l|] eqn:Hol; simpl; [|done].
    rewrite (proj1 K45), Hh4, decide_True.
    + by rewrite (proj1 K23), (proj1 K12).
    + apply list_elem_of_fmap. exists o. split; [done|]. by apply list_elem_of_In.
  - (* none: the synthetic origin *)
    cbn [alloc] in Hi. simplify_eq.
    set (X := {| url := "http://127.0.0.1:" +:+ num_to_string port
                         +:+ str_or (sc_endpoint sc) "/graphql";
                 headerSecret := Some (randomBytes48_hex host) |}) in *.
    set (lo := length (h3 ++ [CHttp X])) in *.
    assert (Hlo : lo = S (length h3)) by (unfold lo; rewrite length_app; simpl; lia).
    match type of Hl with
    | force_logging _ (<[_ := _]> (_ ++ [COrigins ?os])) = _ =>
        set (O := os) in *
    end.
    match type of Hl with
    | force_logging _ ?h = _ => set (h4 := h) in *
    end.
    assert (Hc4 : read_config h4 cfg = Some (with_origins (Some lo) c3)).
    { apply read_config_cell. unfold h4. rewrite list_lookup_insert_eq; [done|].
      rewrite !length_app. lia. }
    assert (Hlo4 : h4 !! lo = Some (COrigins O)).
    { unfold h4. rewrite list_lookup_insert_ne by lia. apply lookup_snoc. }
    assert (Hlh4 : read_http h4 (length h3) = Some X).
    { unfold read_http, h4. rewrite list_lookup_insert_ne by lia.
      rewrite lookup_app_l by (rewrite length_app; simpl; lia).
      by rewrite lookup_snoc. }
    destruct (force_logging_keeps _ _ _ _ _ Hl Hc4) as (K45 & c5 & Hc5 & Ho5).
    assert (Hlo5 : h5 !! lo = Some (COrigins O)) by by apply K45.
    rewrite Hdo, <- Ho3. simpl.
    eexists. unfold stringify. rewrite Hc5. simpl. split; [reflexivity|]. simpl.
    rewrite Ho5. simpl. unfold read_origins. rewrite Hlo5.
    unfold O. simpl. unfold read_origin. simpl. by rewrite (proj1 K45), Hlh4.
Qed.

(** ** A promise that nothing settles *)

Lemma abandoned_lt pr s : abandoned pr s → pr < length (promises s).
Proof. intros (H & _). by eapply lookup_lt_Some. Qed.

Lemma settle_other pr pr' v s :
  pr ≠ pr' → promises s !! pr = Some Pending →
  promises (settle pr' v s) !! pr = Some Pending.
Proof. intros Hne Hp. by rewrite settle_lookup, Hp, decide_False. Qed.

Lemma settle_all_other pr v ws s :
  pr ∉ ws → promises s !! pr = Some Pending →
  promises (foldl (λ st w, settle w v st) s ws) !! pr = Some Pending.
Proof.
  revert s. induction ws as [|w ws IH]; intros s Hw Hp; simpl; [done|].
  apply not_elem_of_cons in Hw as [Hne Hw]. apply IH; [done|].
  by apply settle_other.
Qed.

Lemma emit_start_abandoned pr s : abandoned pr s → abandoned pr (emit_start s).
Proof.
  intros (Hp & Hl & Ht & Hv). unfold abandoned. frames. split_and!; try done.
  - unfold emit_start. rewrite fold_listeners_promise, Hp.
    by rewrite bool_decide_eq_false_2.
  - by apply emit_start_timers.
Qed.

Lemma on_log_abandoned pr pid r s : abandoned pr s → abandoned pr (on_log pid r s).
Proof.
  intros Hs. unfold abandoned.
  rewrite on_log_promises, on_log_fmap by done. rw_frame (on_log_frame pid r s).
  destruct Hs as (Hp & Hl & Ht & Hv). split_and!; try done.
  - destruct (is_ready r); [|done].
    by apply (emit_start_abandoned pr (set_uri _ s)).
  - apply on_log_timers; [|done].
    destruct (is_ready r); [|done]. by apply emit_start_timers.
Qed.

Lemma start_abandoned pr s : abandoned pr s → abandoned pr (start s).2.
Proof.
  intros Hs. pose proof (abandoned_lt _ _ Hs) as Hlt.
  destruct Hs as (Hp & Hl & Ht & Hv).
  unfold start. destruct (running (this s)); cbn [snd]; [done|].
  set (s1 := set_this (eng_set_running true (this s)) s).
  destruct (spawnChild_fmap exit_view s1) as (q & Hq & Hqa & _ & Hqw).
  unfold abandoned. frames. rewrite Hq. unfold s1. simpl. split_and!.
  - by apply lookup_app_l_Some.
  - rewrite fmap_app. intros [?|Hin]%elem_of_app; [done|].
    apply list_elem_of_singleton in Hin. simpl in Hin. lia.
  - apply Forall_app. split; [done|]. apply Forall_singleton. simpl.
    intros [= ?]. lia.
  - apply Forall_app. split; [done|]. apply Forall_singleton.
    unfold exit_view. simpl. rewrite Hqw. intros _. apply not_elem_of_nil.
Qed.

Lemma update_proc_exit_view pr pid f s :
  (∀ p, (exit_view (f p)).1 = true → pr ∉ (exit_view p).2 →
        pr ∉ (exit_view (f p)).2) →
  (∀ p, (exit_view (f p)).1 = true → (exit_view p).1 = true) →
  Forall (λ x : bool * list nat, x.1 = true → pr ∉ x.2) (exit_view <$> procs s) →
  Forall (λ x : bool * list nat, x.1 = true → pr ∉ x.2)
    (exit_view <$> procs (update_proc pid f s)).
Proof.
  intros Hf1 Hf2 Hv. unfold update_proc.
  destruct (procs s !! pid) as [p|] eqn:Hp; [|done]. simpl.
  rewrite list_fmap_insert. apply Forall_insert; [done|].
  intros Ha. apply Hf1; [done|].
  rewrite Forall_fmap, Forall_lookup in Hv. apply (Hv pid p Hp). by apply Hf2.
Qed.

Lemma stop_abandoned pr s : abandoned pr s → abandoned pr (stop s).2.
Proof.
  intros Hs. pose proof (abandoned_lt _ _ Hs) as Hlt.
  destruct Hs as (Hp & Hl & Ht & Hv).
  unfold stop. destruct (child (this s)) as [| |pid]; cbn [snd]; [|done|].
  - unfold abandoned. simpl. split_and!; try done. by apply lookup_app_l_Some.
  - unfold abandoned. frames. split_and!; try done.
    + by apply lookup_app_l_Some.
    + unfold kill. apply update_proc_exit_view.
      { intros p. by destruct (p_alive p). }
      { intros p. by destruct (p_alive p). }
      apply update_proc_exit_view; [| |done].
      * intros p _ Hn. unfold exit_view. simpl.
        intros [?|Hin]%elem_of_app; [done|].
        apply list_elem_of_singleton in Hin. lia.
      * by intros p.
Qed.

Lemma deliver_exit_abandoned pr pid code sg s :
  abandoned pr s → abandoned pr (deliver_exit pid code sg s).
Proof.
  intros (Hp & Hl & Ht & Hv). unfold deliver_exit.
  destruct (procs s !! pid) as [p|] eqn:Hpid; [|done].
  destruct (p_alive p) eqn:Hal; [|done].
  assert (Hw : pr ∉ p_exit_waiters p).
  { rewrite Forall_fmap, Forall_lookup in Hv. by apply (Hv pid p Hpid). }
  assert (Hv1 : Forall (λ x : bool * list nat, x.1 = true → pr ∉ x.2)
                  (exit_view <$> procs (update_proc pid (proc_set_p_alive false) s))).
  { apply update_proc_exit_view; [|by intros p'|done]. by intros p'. }
  assert (H1 : abandoned pr
                 (on_exit code sg (update_proc pid (proc_set_p_alive false) s))).
  { unfold on_exit, abandoned. frames. destruct (negb (running (this s))).
    { by frames. }
    case_bool_decide.
    { by frames. }
    match goal with
    | |- context [spawnChild ?x] =>
        destruct (spawnChild_fmap exit_view x) as (q & Hq & _ & _ & Hqw)
    end.
    frames. rewrite Hq. simpl. split_and!; try done.
    apply Forall_app. split; [done|]. apply Forall_singleton.
    unfold exit_view. simpl. rewrite Hqw. intros _. apply not_elem_of_nil. }
  destruct H1 as (Hp1 & Hl1 & Ht1 & Hv1').
  unfold abandoned.
  rw_frame (settle_all_frame (Resolved VUndefined) (p_exit_waiters p)
              (on_exit code sg (update_proc pid (proc_set_p_alive false) s))).
  split_and!; try done. by apply settle_all_other.
Qed.

Lemma handle_abandoned pr ev s : abandoned pr s → abandoned pr (handle ev s).
Proof.
  intros Hs. destruct ev as [| |pid r|pid b|pid code sg]; cbn [handle].
  - by apply start_abandoned.
  - by apply stop_abandoned.
  - case_match; [by apply on_log_abandoned|done].
  - by case_match.
  - by apply deliver_exit_abandoned.
Qed.

Lemma fire_timer_abandoned pr s t :
  t_action t ≠ StartupTimeout pr → promises s !! pr = Some Pending →
  promises (fire_timer s t) !! pr = Some Pending.
Proof.
  intros Ht Hp. unfold fire_timer. destruct (t_action t) as [pr'|pid].
  - apply settle_other; [congruence|]. simpl. destruct (child (this s)); by frames.
  - by frames.
Qed.

Lemma fold_fire_abandoned pr ts s :
  Forall (λ t, t_action t ≠ StartupTimeout pr) ts →
  promises s !! pr = Some Pending →
  promises (foldl fire_timer s ts) !! pr = Some Pending.
Proof.
  revert s. induction ts as [|t ts IH]; intros s Hts Hp; simpl; [done|].
  apply Forall_cons in Hts as [Ht Hts]. apply IH; [done|].
  by apply fire_timer_abandoned.
Qed.

Lemma advance_abandoned pr dt s : abandoned pr s → abandoned pr (advance dt s).
Proof.
  intros (Hp & Hl & Ht & Hv). unfold abandoned.
  rewrite advance_fmap by done. rw_frame (advance_frame dt s).
  split_and!; try done; [|by apply clear_only_filter].
  unfold advance. apply fold_fire_abandoned; [by apply clear_only_filter|done].
Qed.

Lemma run_abandoned pr tr s : abandoned pr s → abandoned pr (run tr s).
Proof.
  revert s. induction tr as [|e tr IH]; intros s Hs; simpl; [done|].
  apply IH. unfold step. by apply handle_abandoned, advance_abandoned.
Qed.

(** ** The concrete engines *)

Lemma example_constructed :
  construct example_host (example_sideload example_source.1) example_source.2
  = Constructed example_engine.
Proof. reflexivity. Qed.

Lemma caller_constructed :
  construct example_host (example_sideload caller_source.1) caller_source.2
  = Constructed caller_engine.
Proof. reflexivity. Qed.

(** C1. The requested level of [example_engine] is "error". When its first
    child crashes before the start-up record, the replacement is spawned
    from the configuration as the level handling left it: its closure holds
    the level "info" and no filter, its start-up record is printed and
    writes no second document, and the level of the configuration stays
    "info". When the first child crashes after its start-up record, the
    replacement gets the filter, the document with "info" and, on its
    start-up record, the document with "error". *)
Theorem respawn_before_ready_keeps_info :
  let before := run crash_before_ready example_engine in
  let after := run crash_after_ready example_engine in
  get_level example_engine = Some "error" ∧
  get_level before = Some "info" ∧
  field_at p_logLevel 1 before = Some (Some "info") ∧
  field_at p_filter 1 before = Some FltUndefined ∧
  stdin_levels 1 before = Some [Some "info"] ∧
  console_log before = [ready_record "127.0.0.1:54321"] ∧
  get_level after = Some "error" ∧
  field_at p_logLevel 1 after = Some (Some "error") ∧
  field_at p_filter 1 after = Some (FltRegex FError) ∧
  stdin_levels 1 after = Some [Some "info"; Some "error"] ∧
  console_log after = [].
Proof. cbv zeta. by vm_compute. Qed.

(** C8. [stop()] on [example_engine] before any [start()] does not throw:
    [this.child] is undefined, not null, and the call returns a promise
    rejected with a TypeError. After [start()] and the exit of the child
    with code 78 no process is alive, yet [stop()] returns a promise, and
    that promise is pending in every state reached afterwards. *)
Theorem stop_without_live_child :
  let s := run fatal_exit example_engine in
  (stop example_engine).1 = Return 0 ∧
  promises (stop example_engine).2 = [Rejected VTypeError] ∧
  (∀ pid, alive pid s = false) ∧
  (stop s).1 = Return 1 ∧
  ∀ tr, promises (run tr (stop s).2) !! 1 = Some Pending.
Proof.
  cbv zeta. split_and!; try reflexivity.
  - intros [|pid]; reflexivity.
  - intros tr.
    assert (H : abandoned 1 (stop (run fatal_exit example_engine)).2).
    { unfold abandoned. split_and!.
      - reflexivity.
      - vm_compute. intros H. apply elem_of_cons in H as [H|H]; [done|].
        by apply elem_of_nil in H.
      - apply Forall_forall. vm_compute. intros t Ht.
        apply list_elem_of_singleton in Ht. by subst t.
      - apply Forall_forall. vm_compute. intros x Hx.
        apply list_elem_of_singleton in Hx. by subst x. }
    by destruct (run_abandoned 1 tr _ H) as (? & _).
Qed.

(** C9. Constructing an engine from the caller's object [caller_doc] writes
    to that object: afterwards its array of frontends has the engine's
    frontend as a second element, the [headerSecret] of its origin is the
    generated secret, and its logging object has format and destination
    set. *)
Theorem constructor_writes_caller_document :
  let src := caller_source.1 in
  let before := caller_source.2 in
  let after := heap caller_engine in
  construct example_host (example_sideload src) before = Constructed caller_engine ∧
  stringify before src = Some caller_doc ∧
  stringify after src = Some caller_doc_after ∧
  d_frontends caller_doc_after ≠ d_frontends caller_doc ∧
  d_origins caller_doc_after ≠ d_origins caller_doc ∧
  d_logging caller_doc_after ≠ d_logging caller_doc.
Proof. cbv zeta. split_and!; done. Qed.

(** * The constructor: port, platform and the assembled document *)

(** ** Reading the store by kind *)

Lemma read_frontends_as (h : Heap) l : read_frontends h l = h !! l ≫= as_frontends.
Proof. unfold read_frontends. by destruct (h !! l) as [[]|]. Qed.

Lemma read_logging_as (h : Heap) l : read_logging h l = h !! l ≫= as_logging.
Proof. unfold read_logging. by destruct (h !! l) as [[]|]. Qed.

Lemma read_http_as (h : Heap) l : read_http h l = h !! l ≫= as_http.
Proof. unfold read_http. by destruct (h !! l) as [[]|]. Qed.

Lemma read_config_as (h : Heap) l : read_config h l = h !! l ≫= as_config.
Proof. unfold read_config. by destruct (h !! l) as [[]|]. Qed.

Section by_kind.
Context {A : Type} (proj : Cell → option A).

(** A cell that [proj] does not see is added at the end. *)
Lemma lookup_snoc_blind (h : Heap) c l :
  proj c = None → (h ++ [c]) !! l ≫= proj = h !! l ≫= proj.
Proof.
  intros Hc. destruct (decide (l < length h)) as [Hlt|Hge].
  - by rewrite lookup_app_l.
  - rewrite (lookup_ge_None_2 h l) by lia.
    destruct (decide (l = length h)) as [->|Hne].
    + by rewrite lookup_snoc.
    + rewrite lookup_ge_None_2; [done|]. rewrite length_app. simpl. lia.
Qed.

(** A cell that [proj] does not see is replaced by another such cell. *)
Lemma lookup_insert_blind (h : Heap) l c0 c l' :
  h !! l = Some c0 → proj c0 = None → proj c = None →
  <[l := c]> h !! l' ≫= proj = h !! l' ≫= proj.
Proof.
  intros Hl H0 Hc. destruct (decide (l' = l)) as [->|Hne].
  - rewrite list_lookup_insert_eq by (by eapply lookup_lt_Some).
    rewrite Hl. simpl. congruence.
  - by rewrite list_lookup_insert_ne.
Qed.

Lemma assign_secret_blind psk (h : Heap) o l :
  (∀ ht, proj (CHttp ht) = None) →
  assign_secret psk h o !! l ≫= proj = h !! l ≫= proj.
Proof.
  intros Hp. unfold assign_secret. destruct (o_http o) as [lh|]; [|done].
  destruct (read_http h lh) as [ht|] eqn:Hh; [|done].
  assert (Hc : h !! lh = Some (CHttp ht)).
  { unfold read_http in Hh. by destruct (h !! lh) as [[]|]; simplify_eq. }
  by eapply lookup_insert_blind.
Qed.

Lemma fold_assign_secret_blind psk os (h : Heap) l :
  (∀ ht, proj (CHttp ht) = None) →
  foldl (assign_secret psk) h os !! l ≫= proj = h !! l ≫= proj.
Proof.
  intros Hp. revert h. induction os as [|o os IH]; intros h; cbn [foldl]; [done|].
  by rewrite IH, assign_secret_blind.
Qed.
End by_kind.

(** ** The steps of the constructor, field by field *)

(** The frontend is added after the ones that are there; nothing else of
    the configuration changes. *)
Lemma inject_frontend_spec fe cfg (h h' : Heap) c :
  inject_frontend fe cfg h = Some h' → read_config h cfg = Some c →
  ∃ c' lf, read_config h' cfg = Some c' ∧
    apiKey c' = apiKey c ∧ origins c' = origins c ∧ logging c' = logging c ∧
    frontends c' = Some lf ∧
    read_frontends h' lf = Some (default [] (frontends c ≫= read_frontends h) ++ [fe]) ∧
    ∀ l, read_logging h' l = read_logging h l.
Proof.
  unfold inject_frontend. intros H Hc. rewrite Hc in H. simpl in H.
  pose proof (proj1 (read_config_cell _ _ _) Hc) as Hcell.
  assert (Hlt : cfg < length h) by by eapply lookup_lt_Some.
  destruct (frontends c) as [l|] eqn:Hfc.
  - destruct (read_frontends h l) as [fs|] eqn:Hfs; [|done]. simpl in H. simplify_eq.
    assert (Hl : h !! l = Some (CFrontends fs)).
    { unfold read_frontends in Hfs. by destruct (h !! l) as [[]|]; simplify_eq. }
    exists c, l. split_and!; try done.
    + apply read_config_cell. rewrite list_lookup_insert_ne; [done|].
      intros ->. congruence.
    + simpl. rewrite Hfs. simpl. unfold read_frontends.
      by rewrite list_lookup_insert_eq by (by eapply lookup_lt_Some).
    + intros l'. rewrite !read_logging_as. by eapply lookup_insert_blind.
  - simpl in H. simplify_eq.
    exists (with_frontends (Some (length h)) c), (length h). split_and!; try done.
    + apply read_config_cell.
      rewrite list_lookup_insert_eq; [done|]. rewrite length_app. lia.
    + unfold read_frontends. rewrite list_lookup_insert_ne by lia.
      by rewrite lookup_snoc.
    + intros l'. rewrite !read_logging_as.
      rewrite (lookup_insert_blind as_logging _ _ (CConfig c));
        [|by apply lookup_app_l_Some|done..].
      by apply lookup_snoc_blind.
Qed.

(** The origins are written without touching frontends or logging. *)
Lemma inject_origins_spec psk port ep params cfg (h h' : Heap) c :
  inject_origins psk port ep params cfg h = Some h' → read_config h cfg = Some c →
  ∃ c', read_config h' cfg = Some c' ∧
    apiKey c' = apiKey c ∧ frontends c' = frontends c ∧ logging c' = logging c ∧
    (∀ l, read_frontends h' l = read_frontends h l) ∧
    (∀ l, read_logging h' l = read_logging h l).
Proof.
  unfold inject_origins. intros H Hc. rewrite Hc in H. simpl in H.
  pose proof (proj1 (read_config_cell _ _ _) Hc) as Hcell.
  assert (Hlt : cfg < length h) by by eapply lookup_lt_Some.
  destruct (origins c) as [lo|].
  - destruct (h !! lo) as [[| os | | |]|] eqn:Hlo; try done. simplify_eq.
    exists c. split_and!; try done.
    + rewrite read_config_as, fold_assign_secret_blind by done.
      by rewrite <- read_config_as.
    + intros l. rewrite !read_frontends_as. by apply fold_assign_secret_blind.
    + intros l. rewrite !read_logging_as. by apply fold_assign_secret_blind.
  - cbn [alloc] in H. simplify_eq.
    eexists (with_origins _ c). split_and!; try done.
    + apply read_config_cell.
      rewrite list_lookup_insert_eq; [done|]. rewrite !length_app. lia.
    + intros l. rewrite !read_frontends_as.
      rewrite (lookup_insert_blind as_frontends _ _ (CConfig c));
        [|by do 2 apply lookup_app_l_Some|done..].
      by rewrite !lookup_snoc_blind.
    + intros l. rewrite !read_logging_as.
      rewrite (lookup_insert_blind as_logging _ _ (CConfig c));
        [|by do 2 apply lookup_app_l_Some|done..].
      by rewrite !lookup_snoc_blind.
Qed.

(** Format and destination are forced, the level stays, and the warnings
    are those of the logging object that was there. *)
Lemma force_logging_spec cfg (h h' : Heap) w c :
  force_logging cfg h = Some (h', w) → read_config h cfg = Some c →
  ∃ c' lg, read_config h' cfg = Some c' ∧
    apiKey c' = apiKey c ∧ frontends c' = frontends c ∧
    logging c' = Some lg ∧
    read_logging h' lg =
      Some {| level := (logging c ≫= read_logging h) ≫= level;
              format := Some "JSON"; destination := Some "STDOUT" |} ∧
    w = from_option (λ g, format_warning g ++ destination_warning g) []
          (logging c ≫= read_logging h) ∧
    ∀ l, read_frontends h' l = read_frontends h l.
Proof.
  unfold force_logging. intros H Hc. rewrite Hc in H. simpl in H.
  pose proof (proj1 (read_config_cell _ _ _) Hc) as Hcell.
  assert (Hlt : cfg < length h) by by eapply lookup_lt_Some.
  destruct (logging c) as [l|] eqn:Hlc.
  - destruct (read_logging h l) as [g|] eqn:Hg; [|done]. simpl in H. simplify_eq.
    assert (Hl : h !! l = Some (CLogging g)).
    { unfold read_logging in Hg. by destruct (h !! l) as [[]|]; simplify_eq. }
    exists c, l. simpl. rewrite Hg. simpl. split_and!; try done.
    + apply read_config_cell. rewrite list_lookup_insert_ne; [done|].
      intros ->. congruence.
    + unfold read_logging.
      by rewrite list_lookup_insert_eq by (by eapply lookup_lt_Some).
    + intros l'. rewrite !read_frontends_as. by eapply lookup_insert_blind.
  - simpl in H. simplify_eq.
    exists (with_logging (Some (length h)) c), (length h). split_and!; try done.
    + apply read_config_cell.
      rewrite list_lookup_insert_eq; [done|]. rewrite length_app. lia.
    + unfold read_logging. rewrite list_lookup_insert_ne by lia.
      by rewrite lookup_snoc.
    + intros l'. rewrite !read_frontends_as.
      rewrite (lookup_insert_blind as_frontends _ _ (CConfig c));
        [|by apply lookup_app_l_Some|done..].
      by apply lookup_snoc_blind.
Qed.

(** The document of the engine after construction, but for its origins. *)
Lemma construct_document host sc (h0 h1 : Heap) src d0 s :
  load_source host sc h0 = Some (src, h1) →
  stringify h1 src = Some d0 →
  construct host sc h0 = Constructed s →
  console_error s =
    from_option (λ g, format_warning g ++ destination_warning g) [] (d_logging d0) ∧
  frontendParams (this s) = default {| extensions := None |} (sc_frontend sc) ∧
  ∃ d, stringify (heap s) (engineConfig (this s)) = Some d ∧
       d_apiKey d = d_apiKey d0 ∧
       d_frontends d = Some (default [] (d_frontends d0) ++ [injected_frontend s]) ∧
       d_logging d = Some {| level := d_logging d0 ≫= level;
                             format := Some "JSON"; destination := Some "STDOUT" |}.
Proof.
  intros Hload Hd0 Hc. unfold construct in Hc. rewrite Hload in Hc.
  destruct (read_config h1 src) as [c|] eqn:Hcs; [|done].
  unfold stringify in Hd0. rewrite Hcs in Hd0. simpl in Hd0. simplify_eq.
  cbn [alloc] in Hc.
  set (cfg := length h1) in *. set (h2 := h1 ++ [CConfig c]) in *.
  assert (Hc2 : read_config h2 cfg = Some c).
  { apply read_config_cell. apply lookup_snoc. }
  assert (F12 : ∀ l, read_frontends h2 l = read_frontends h1 l).
  { intros l. rewrite !read_frontends_as. by apply lookup_snoc_blind. }
  assert (L12 : ∀ l, read_logging h2 l = read_logging h1 l).
  { intros l. rewrite !read_logging_as. by apply lookup_snoc_blind. }
  destruct (resolve_graphqlPort host sc) as [port|]; [|done].
  match type of Hc with
  | match inject_frontend ?fe _ _ with _ => _ end = _ =>
      destruct (inject_frontend fe cfg h2) as [h3|] eqn:Hf; [|done];
      destruct (inject_frontend_spec _ _ _ _ _ Hf Hc2)
        as (c3 & lf & Hc3 & Ha3 & _ & Hl3 & Hf3 & Hfs3 & L23)
  end.
  match type of Hc with
  | match inject_origins ?a ?b ?c ?d _ _ with _ => _ end = _ =>
      destruct (inject_origins a b c d cfg h3) as [h4|] eqn:Hi; [|done];
      destruct (inject_origins_spec _ _ _ _ _ _ _ _ Hi Hc3)
        as (c4 & Hc4 & Ha4 & Hf4 & Hl4 & F34 & L34)
  end.
  destruct (force_logging cfg h4) as [[h5 w]|] eqn:Hl; [|done].
  destruct (force_logging_spec _ _ _ _ _ Hl Hc4)
    as (c5 & lg & Hc5 & Ha5 & Hf5 & Hl5 & Hg5 & Hw & F45).
  destruct (binary_package (platform host)) as [pkg|]; [|done].
  destruct (require_resolve host pkg) as [bin|]; [|done].
  simplify_eq. simpl.
  assert (HL : logging c4 ≫= read_logging h4 = logging c ≫= read_logging h1).
  { rewrite Hl4, Hl3. destruct (logging c) as [l|]; simpl; [|done].
    by rewrite L34, L23, L12. }
  split_and!.
  - by rewrite HL.
  - done.
  - unfold stringify. simpl. rewrite Hc5. simpl. eexists. split; [reflexivity|].
    simpl. split_and!.
    + congruence.
    + rewrite Hf5, Hf4, Hf3. simpl. rewrite F45, F34, Hfs3. do 2 f_equal.
      destruct (frontends c) as [l|]; simpl; [|done]. by rewrite F12.
    + rewrite Hl5. simpl. rewrite Hg5. by rewrite HL.
Qed.

(** X1. When the option [graphqlPort] is absent or falsy (0, NaN) and the
    environment has no [PORT] that [isFinite] accepts, the constructor
    throws the error that names both; it has then written nothing to the
    objects of the caller: the store is the one it started from, with the
    engine's own copy of the top-level object added. *)
Theorem missing_port_throws (host : Host) (sc : SideloadConfig)
    (h0 h1 : Heap) (src : loc) (c : ConfigObj) :
  load_source host sc h0 = Some (src, h1) →
  read_config h1 src = Some c →
  (∀ n, sc_graphqlPort sc = Some n → num_truthy n = false) →
  (∀ p, env_PORT host = Some p → isFinite host p = false) →
  construct host sc h0 = Threw missing_port_message (h1 ++ [CConfig c]) ∧
  stringify (h1 ++ [CConfig c]) src = stringify h1 src.
Proof.
  intros Hload Hc Hn Hp. split.
  - unfold construct. rewrite Hload, Hc. cbn [alloc].
    assert (Hr : resolve_graphqlPort host sc = None).
    { unfold resolve_graphqlPort, port_from_env.
      destruct (sc_graphqlPort sc) as [n|].
      - rewrite (Hn n eq_refl). destruct (env_PORT host) as [p|]; [|done].
        by rewrite (Hp p eq_refl).
      - destruct (env_PORT host) as [p|]; [|done]. by rewrite (Hp p eq_refl). }
    by rewrite Hr.
  - unfold stringify.
    assert (Hc' : read_config (h1 ++ [CConfig c]) src = Some c).
    { apply read_config_cell. apply lookup_app_l_Some. by apply read_config_cell. }
    rewrite Hc, Hc'. simpl. do 2 f_equal.
    + destruct (origins c) as [l|]; simpl; [|done]. unfold read_origins.
      destruct (decide (l < length h1)) as [Hlt|Hge].
      * rewrite lookup_app_l by done. destruct (h1 !! l) as [[]|]; try done.
        f_equal. apply map_ext. intros o. unfold read_origin. f_equal.
        destruct (o_http o) as [lh|]; simpl; [|done].
        rewrite !read_http_as. by apply lookup_snoc_blind.
      * rewrite (lookup_ge_None_2 h1 l) by lia.
        destruct (decide (l = length h1)) as [->|Hne].
        -- by rewrite lookup_snoc.
        -- rewrite lookup_ge_None_2; [done|]. rewrite length_app. simpl. lia.
    + destruct (frontends c) as [l|]; simpl; [|done].
      rewrite !read_frontends_as. by apply lookup_snoc_blind.
    + destruct (logging c) as [l|]; simpl; [|done].
      rewrite !read_logging_as. by apply lookup_snoc_blind.
Qed.

(** X2. The GraphQL port of a constructed engine is the option
    [graphqlPort] when that is truthy; otherwise [PORT] is set, [isFinite]
    accepts it, and the port is [parseInt(PORT, 10)]. *)
Theorem graphqlPort_resolution (host : Host) (sc : SideloadConfig)
    (h0 : Heap) (s : State) :
  construct host sc h0 = Constructed s →
  match sc_graphqlPort sc with
  | Some n =>
      if num_truthy n then graphqlPort (this s) = n
      else ∃ p, env_PORT host = Some p ∧ isFinite host p = true ∧
                graphqlPort (this s) = parseInt10 p
  | None => ∃ p, env_PORT host = Some p ∧ isFinite host p = true ∧
                 graphqlPort (this s) = parseInt10 p
  end.
Proof.
  intros Hc. unfold construct in Hc.
  destruct (load_source host sc h0) as [[src h1]|]; [|done].
  destruct (read_config h1 src) as [c|]; [|done]. cbn [alloc] in Hc.
  destruct (resolve_graphqlPort host sc) as [port|] eqn:Hr; [|done].
  assert (Hport : graphqlPort (this s) = port).
  { repeat case_match; by simplify_eq. }
  assert (Henv : port_from_env host = Some port →
                 ∃ p, env_PORT host = Some p ∧ isFinite host p = true ∧
                      graphqlPort (this s) = parseInt10 p).
  { unfold port_from_env. intros He. destruct (env_PORT host) as [p|]; [|done].
    destruct (isFinite host p) eqn:Hfin; [|done]. exists p. by simplify_eq. }
  unfold resolve_graphqlPort in Hr. destruct (sc_graphqlPort sc) as [n|].
  - destruct (num_truthy n); [by simplify_eq|by apply Henv].
  - by apply Henv.
Qed.

(** X3. An engine is constructed on [darwin], [linux] and [win32] only, and
    its binary is what [require.resolve] returns for the package of the
    platform. *)
Theorem binary_of_platform (host : Host) (sc : SideloadConfig)
    (h0 : Heap) (s : State) :
  construct host sc h0 = Constructed s →
  platform host ∈ supported_platforms ∧
  ∃ pkg, binary_package (platform host) = Some pkg ∧
         require_resolve host pkg = Some (binary (this s)) ∧
         pkg = (if String.eqb (platform host) "darwin"
                then "apollo-engine-binary-darwin/engineproxy_darwin_amd64"
                else if String.eqb (platform host) "linux"
                then "apollo-engine-binary-linux/engineproxy_linux_amd64"
                else "apollo-engine-binary-windows/engineproxy_windows_amd64.exe").
Proof.
  intros Hc. unfold construct in Hc.
  destruct (load_source host sc h0) as [[src h1]|]; [|done].
  destruct (read_config h1 src) as [c|]; [|done]. cbn [alloc] in Hc.
  destruct (resolve_graphqlPort host sc) as [port|]; [|done].
  destruct (inject_frontend _ _ _) as [h3|]; [|done].
  destruct (inject_origins _ _ _ _ _ _) as [h4|]; [|done].
  destruct (force_logging _ _) as [[h5 w]|]; [|done].
  destruct (binary_package (platform host)) as [pkg|] eqn:Hpkg; [|done].
  destruct (require_resolve host pkg) as [bin|] eqn:Hbin; [|done].
  simplify_eq. simpl. unfold binary_package in Hpkg. unfold supported_platforms.
  destruct (String.eqb (platform host) "darwin") eqn:E1.
  { apply String.eqb_eq in E1. rewrite E1. split; [by left|].
    eexists. by simplify_eq. }
  destruct (String.eqb (platform host) "linux") eqn:E2.
  { apply String.eqb_eq in E2. rewrite E2. split; [by right; left|].
    eexists. by simplify_eq. }
  destruct (String.eqb (platform host) "win32") eqn:E3; [|done].
  apply String.eqb_eq in E3. rewrite E3. split; [by do 2 right; left|].
  eexists. by simplify_eq.
Qed.

(** X4. The document of a constructed engine has the API key of the source
    document and its frontends, in order, followed by one more: the
    frontend at host 127.0.0.1, port 0 and the endpoint of the middleware
    ([/graphql] unless the option [endpoint] is a non-empty string), with
    the extensions of the option [frontend]. *)
Theorem frontend_appended (host : Host) (sc : SideloadConfig)
    (h0 h1 : Heap) (src : loc) (d0 : DocVal) (s : State) :
  load_source host sc h0 = Some (src, h1) →
  stringify h1 src = Some d0 →
  construct host sc h0 = Constructed s →
  ∃ d, stringify (heap s) (engineConfig (this s)) = Some d ∧
       d_apiKey d = d_apiKey d0 ∧
       d_frontends d = Some
         (default [] (d_frontends d0) ++
          [ {| fe_extensions := sc_frontend sc ≫= extensions;
               fe_host := "127.0.0.1";
               fe_endpoint := str_or (sc_endpoint sc) "/graphql";
               fe_port := Num 0 |} ]).
Proof.
  intros Hload Hd0 Hc.
  destruct (construct_document _ _ _ _ _ _ _ Hload Hd0 Hc)
    as (_ & Hfp & d & Hd & Ha & Hf & _).
  destruct (construct_initial _ _ _ _ Hc) as (_ & _ & _ & _ & _ & _ & _ & _ & _ & _ & _ & _ & _ & Hep).
  exists d. split_and!; try done. rewrite Hf. unfold injected_frontend.
  rewrite Hfp, Hep. by destruct (sc_frontend sc).
Qed.

(** X5. The logging object of a constructed engine's document has the
    level of the source document (none when that has no logging object),
    the format JSON and the destination STDOUT. *)
Theorem logging_forced (host : Host) (sc : SideloadConfig)
    (h0 h1 : Heap) (src : loc) (d0 : DocVal) (s : State) :
  load_source host sc h0 = Some (src, h1) →
  stringify h1 src = Some d0 →
  construct host sc h0 = Constructed s →
  ∃ d, stringify (heap s) (engineConfig (this s)) = Some d ∧
       d_logging d = Some {| level := d_logging d0 ≫= level;
                             format := Some "JSON";
                             destination := Some "STDOUT" |} ∧
       get_level s = d_logging d0 ≫= level.
Proof.
  intros Hload Hd0 Hc.
  destruct (construct_document _ _ _ _ _ _ _ Hload Hd0 Hc)
    as (_ & _ & d & Hd & _ & _ & Hl).
  exists d. split_and!; try done.
  unfold get_level, logging_loc. unfold stringify in Hd.
  destruct (read_config (heap s) (engineConfig (this s))) as [c|]; [|done].
  simpl in *. simplify_eq. simpl in Hl.
  destruct (logging c ≫= read_logging (heap s)) as [g|]; [|done].
  by simplify_eq.
Qed.

Lemma str_or_default (x : option string) (d : string) :
  d ≠ "" →
  (str_or x d = d ↔
   match x with
   | Some f => str_truthy f && negb (String.eqb f d)
   | None => false
   end = false).
Proof.
  intros Hd. destruct x as [[|a f]|]; unfold str_or; cbn [str_truthy andb];
    [done| |done].
  destruct (String.eqb (String a f) d) eqn:E; cbn [negb].
  - apply String.eqb_eq in E. by split.
  - apply String.eqb_neq in E. by split.
Qed.

(** X6. What the constructor prints. Nothing, exactly when the source
    document leaves format and destination out or empty, or names JSON and
    STDOUT. At most two lines otherwise: one for a format other than JSON,
    that names it, and one for a destination other than STDOUT, which names
    the format of the document and not its destination. *)
Theorem construction_warnings (host : Host) (sc : SideloadConfig)
    (h0 h1 : Heap) (src : loc) (d0 : DocVal) (s : State) :
  load_source host sc h0 = Some (src, h1) →
  stringify h1 src = Some d0 →
  construct host sc h0 = Constructed s →
  (console_error s = [] ↔
     ∀ g, d_logging d0 = Some g →
          str_or (format g) "JSON" = "JSON" ∧
          str_or (destination g) "STDOUT" = "STDOUT") ∧
  length (console_error s) ≤ 2 ∧
  (∀ g f, d_logging d0 = Some g → format g = Some f →
          str_or (format g) "JSON" ≠ "JSON" →
          head (console_error s) =
            Some ("Invalid logging format: " +:+ f +:+ ", overridden to JSON.")) ∧
  (∀ g, d_logging d0 = Some g →
        str_or (destination g) "STDOUT" ≠ "STDOUT" →
        last (console_error s) =
          Some ("Invalid logging destination: " +:+ show_field (format g)
                +:+ ", overridden to STDOUT.")).
Proof.
  intros Hload Hd0 Hc.
  destruct (construct_document _ _ _ _ _ _ _ Hload Hd0 Hc) as (Hw & _).
  rewrite Hw. clear Hw. destruct (d_logging d0) as [g|]; simpl.
  2: { split_and!; [|lia|done..]. split; [by intros|done]. }
  pose proof (str_or_default (format g) "JSON" ltac:(done)) as H1.
  pose proof (str_or_default (destination g) "STDOUT" ltac:(done)) as H2.
  unfold format_warning, destination_warning.
  destruct (format g) as [f|] eqn:Ef.
  - destruct (str_truthy f && negb (String.eqb f "JSON")) eqn:Bf.
    + destruct (destination g) as [d|] eqn:Ed;
        [destruct (str_truthy d && negb (String.eqb d "STDOUT")) eqn:Bd|].
      all: split_and!; simpl; try lia.
      all: try (split; [done|]; intros H; destruct (H g eq_refl) as [Ha Hb];
                rewrite ?Ef, ?Ed in *; apply H1 in Ha; done).
      all: try (intros g' f' [= <-]; rewrite Ef; by intros [= <-]).
      all: intros g' [= <-]; rewrite ?Ef, ?Ed; try done.
      all: intros Hn; by rewrite H2 in Hn.
    + destruct (destination g) as [d|] eqn:Ed;
        [destruct (str_truthy d && negb (String.eqb d "STDOUT")) eqn:Bd|].
      all: split_and!; simpl; try lia.
      all: try (split; [done|]; intros H; destruct (H g eq_refl) as [Ha Hb];
                rewrite ?Ef, ?Ed in *; apply H2 in Hb; done).
      all: try (split; [|done]; intros _ g' [= <-]; rewrite ?Ef, ?Ed;
                split; [by apply H1|by apply H2]).
      all: try (intros g' f' [= <-]; rewrite Ef; intros [= <-] Hn;
                by rewrite H1 in Hn).
      all: intros g' [= <-]; rewrite ?Ef, ?Ed; try done.
      all: intros Hn; by rewrite H2 in Hn.
  - destruct (destination g) as [d|] eqn:Ed;
      [destruct (str_truthy d && negb (String.eqb d "STDOUT")) eqn:Bd|].
    all: split_and!; simpl; try lia.
    all: try (split; [done|]; intros H; destruct (H g eq_refl) as [Ha Hb];
              rewrite ?Ef, ?Ed in *; apply H2 in Hb; done).
    all: try (split; [|done]; intros _ g' [= <-]; rewrite ?Ef, ?Ed;
              split; [by apply H1|by apply H2]).
    all: try (intros g' f' [= <-]; by rewrite Ef).
    all: intros g' [= <-]; rewrite ?Ef, ?Ed; try done.
    all: intros Hn; by rewrite H2 in Hn.
Qed.

(** * The top-level object of the caller *)

Lemma read_config_insert_other (h : Heap) cfg c l :
  l ≠ cfg → read_config (<[cfg := c]> h) l = read_config h l.
Proof. intros Hne. unfold read_config. by rewrite list_lookup_insert_ne. Qed.

Lemma inject_frontend_config fe cfg (h h' : Heap) c l :
  inject_frontend fe cfg h = Some h' → read_config h cfg = Some c →
  l ≠ cfg → read_config h' l = read_config h l.
Proof.
  unfold inject_frontend. intros H Hc Hne. rewrite Hc in H. simpl in H.
  destruct (frontends c) as [lf|].
  - destruct (read_frontends h lf) as [fs|] eqn:Hfs; [|done]. simpl in H. simplify_eq.
    assert (Hl : h !! lf = Some (CFrontends fs)).
    { unfold read_frontends in Hfs. by destruct (h !! lf) as [[]|]; simplify_eq. }
    rewrite !read_config_as. by eapply lookup_insert_blind.
  - simpl in H. simplify_eq. rewrite read_config_insert_other by done.
    rewrite !read_config_as. by apply lookup_snoc_blind.
Qed.

Lemma inject_origins_config psk port ep params cfg (h h' : Heap) c l :
  inject_origins psk port ep params cfg h = Some h' → read_config h cfg = Some c →
  l ≠ cfg → read_config h' l = read_config h l.
Proof.
  unfold inject_origins. intros H Hc Hne. rewrite Hc in H. simpl in H.
  destruct (origins c) as [lo|].
  - destruct (h !! lo) as [[| os | | |]|] eqn:Hlo; try done. simplify_eq.
    rewrite !read_config_as. by apply fold_assign_secret_blind.
  - cbn [alloc] in H. simplify_eq. rewrite read_config_insert_other by done.
    rewrite !read_config_as. by rewrite !lookup_snoc_blind.
Qed.

Lemma force_logging_config cfg (h h' : Heap) w c l :
  force_logging cfg h = Some (h', w) → read_config h cfg = Some c →
  l ≠ cfg → read_config h' l = read_config h l.
Proof.
  unfold force_logging. intros H Hc Hne. rewrite Hc in H. simpl in H.
  destruct (logging c) as [lg|].
  - destruct (read_logging h lg) as [g|] eqn:Hg; [|done]. simpl in H. simplify_eq.
    assert (Hl : h !! lg = Some (CLogging g)).
    { unfold read_logging in Hg. by destruct (h !! lg) as [[]|]; simplify_eq. }
    rewrite !read_config_as. by eapply lookup_insert_blind.
  - simpl in H. simplify_eq. rewrite read_config_insert_other by done.
    rewrite !read_config_as. by apply lookup_snoc_blind.
Qed.

Lemma inject_frontend_present fe cfg (h h' : Heap) c :
  inject_frontend fe cfg h = Some h' → read_config h cfg = Some c →
  is_Some (frontends c) → read_config h' cfg = Some c.
Proof.
  unfold inject_frontend. intros H Hc [lf Hf]. rewrite Hc in H. simpl in H.
  rewrite Hf in H.
  destruct (read_frontends h lf) as [fs|] eqn:Hfs; [|done]. simpl in H. simplify_eq.
  assert (Hl : h !! lf = Some (CFrontends fs)).
  { unfold read_frontends in Hfs. by destruct (h !! lf) as [[]|]; simplify_eq. }
  rewrite read_config_as. erewrite lookup_insert_blind; [|done..].
  by rewrite <- read_config_as.
Qed.

Lemma inject_origins_present psk port ep params cfg (h h' : Heap) c :
  inject_origins psk port ep params cfg h = Some h' → read_config h cfg = Some c →
  is_Some (origins c) → read_config h' cfg = Some c.
Proof.
  unfold inject_origins. intros H Hc [lo Ho]. rewrite Hc in H. simpl in H.
  rewrite Ho in H.
  destruct (h !! lo) as [[| os | | |]|] eqn:Hlo; try done. simplify_eq.
  rewrite read_config_as, fold_assign_secret_blind by done.
  by rewrite <- read_config_as.
Qed.

Lemma force_logging_present cfg (h h' : Heap) w c :
  force_logging cfg h = Some (h', w) → read_config h cfg = Some c →
  is_Some (logging c) → read_config h' cfg = Some c.
Proof.
  unfold force_logging. intros H Hc [lg Hg]. rewrite Hc in H. simpl in H.
  rewrite Hg in H.
  destruct (read_logging h lg) as [g|] eqn:Hrg; [|done]. simpl in H. simplify_eq.
  assert (Hl : h !! lg = Some (CLogging g)).
  { unfold read_logging in Hrg. by destruct (h !! lg) as [[]|]; simplify_eq. }
  rewrite read_config_as. erewrite lookup_insert_blind; [|done..].
  by rewrite <- read_config_as.
Qed.

(** The source object and the engine's copy after the construction: the
    source object is as it was, and the copy has every nested object that
    the source has. *)
Lemma construct_configs host sc (h0 h1 : Heap) src c s :
  load_source host sc h0 = Some (src, h1) →
  read_config h1 src = Some c →
  construct host sc h0 = Constructed s →
  src < engineConfig (this s) ∧
  read_config (heap s) src = Some c ∧
  ∃ c', read_config (heap s) (engineConfig (this s)) = Some c' ∧
        apiKey c' = apiKey c ∧
        (is_Some (frontends c) → frontends c' = frontends c) ∧
        (is_Some (origins c) → origins c' = origins c) ∧
        (is_Some (logging c) → logging c' = logging c).
Proof.
  intros Hload Hcs Hc.
  unfold construct in Hc. rewrite Hload, Hcs in Hc. cbn [alloc] in Hc.
  set (cfg := length h1) in *. set (h2 := h1 ++ [CConfig c]) in *.
  assert (Hlt : src < cfg).
  { apply read_config_cell in Hcs. by eapply lookup_lt_Some. }
  assert (Hne : src ≠ cfg) by lia.
  assert (Hc2 : read_config h2 cfg = Some c).
  { apply read_config_cell. apply lookup_snoc. }
  assert (Hs2 : read_config h2 src = Some c).
  { apply read_config_cell. apply lookup_app_l_Some. by apply read_config_cell. }
  destruct (resolve_graphqlPort host sc) as [port|]; [|done].
  match type of Hc with
  | match inject_frontend ?fe _ _ with _ => _ end = _ =>
      destruct (inject_frontend fe cfg h2) as [h3|] eqn:Hf; [|done];
      pose proof (inject_frontend_config _ _ _ _ _ src Hf Hc2 Hne) as Hs3;
      pose proof (inject_frontend_present _ _ _ _ _ Hf Hc2) as Hp3;
      destruct (inject_frontend_spec _ _ _ _ _ Hf Hc2)
        as (c3 & _ & Hc3 & Ha3 & Ho3 & Hl3 & _)
  end.
  match type of Hc with
  | match inject_origins ?a ?b ?c ?d _ _ with _ => _ end = _ =>
      destruct (inject_origins a b c d cfg h3) as [h4|] eqn:Hi; [|done];
      pose proof (inject_origins_config _ _ _ _ _ _ _ _ src Hi Hc3 Hne) as Hs4;
      pose proof (inject_origins_present _ _ _ _ _ _ _ _ Hi Hc3) as Hp4;
      destruct (inject_origins_spec _ _ _ _ _ _ _ _ Hi Hc3)
        as (c4 & Hc4 & Ha4 & Hf4 & Hl4 & _)
  end.
  destruct (force_logging cfg h4) as [[h5 w]|] eqn:Hl; [|done].
  pose proof (force_logging_config _ _ _ _ _ src Hl Hc4 Hne) as Hs5.
  pose proof (force_logging_present _ _ _ _ _ Hl Hc4) as Hp5.
  destruct (force_logging_spec _ _ _ _ _ Hl Hc4) as (c5 & _ & Hc5 & Ha5 & Hf5 & _).
  destruct (force_logging_keeps _ _ _ _ _ Hl Hc4) as (_ & c5' & Hc5' & Ho5).
  destruct (binary_package (platform host)) as [pkg|]; [|done].
  destruct (require_resolve host pkg) as [bin|]; [|done].
  simplify_eq. simpl in *. split_and!; [done|congruence|].
  exists c5. split_and!; [done|congruence|..].
  - intros Hfr. specialize (Hp3 Hfr). simplify_eq. congruence.
  - intros Hor. rewrite Ho5. rewrite <- Ho3 in Hor. specialize (Hp4 Hor).
    simplify_eq. done.
  - intros Hlg. rewrite <- Hl3, <- Hl4 in Hlg. specialize (Hp5 Hlg).
    simplify_eq. congruence.
Qed.

(** X7. The constructor works on a copy of the top-level object of the
    source document: the engine's configuration is a new object, and the
    source object keeps its fields. A source document without frontends,
    origins and logging therefore reads after the construction as it did
    before: the three are added to the copy only. *)
Theorem top_level_object_kept (host : Host) (sc : SideloadConfig)
    (h0 h1 : Heap) (src : loc) (c : ConfigObj) (s : State) :
  load_source host sc h0 = Some (src, h1) →
  read_config h1 src = Some c →
  construct host sc h0 = Constructed s →
  engineConfig (this s) ≠ src ∧
  read_config (heap s) src = Some c ∧
  (origins c = None → frontends c = None → logging c = None →
   stringify (heap s) src = stringify h1 src).
Proof.
  intros Hload Hcs Hc.
  destruct (construct_configs _ _ _ _ _ _ _ Hload Hcs Hc) as (Hlt & Hs & _).
  split_and!; [lia|done|].
  intros Ho Hfr Hlg.
  unfold stringify. rewrite Hs, Hcs. simpl. by rewrite Ho, Hfr, Hlg.
Qed.

(** X8. The copy is shallow: each of the frontends array, the origins
    array and the logging object that the source document has is shared
    between the source object and the engine's configuration. After the
    construction the source document therefore reads, in each of these
    fields, as the engine's document does. *)
Theorem nested_objects_shared (host : Host) (sc : SideloadConfig)
    (h0 h1 : Heap) (src : loc) (c : ConfigObj) (s : State) :
  load_source host sc h0 = Some (src, h1) →
  read_config h1 src = Some c →
  construct host sc h0 = Constructed s →
  ∃ d_src d_eng,
    stringify (heap s) src = Some d_src ∧
    stringify (heap s) (engineConfig (this s)) = Some d_eng ∧
    (is_Some (frontends c) → d_frontends d_src = d_frontends d_eng) ∧
    (is_Some (origins c) → d_origins d_src = d_origins d_eng) ∧
    (is_Some (logging c) → d_logging d_src = d_logging d_eng).
Proof.
  intros Hload Hcs Hc.
  destruct (construct_configs _ _ _ _ _ _ _ Hload Hcs Hc)
    as (_ & Hs & c' & Hc' & _ & Hf & Ho & Hl).
  unfold stringify. rewrite Hs, Hc'. simpl. do 2 eexists.
  split; [reflexivity|]. split; [reflexivity|]. simpl. split_and!.
  - intros H. by rewrite (Hf H).
  - intros H. by rewrite (Ho H).
  - intros H. by rewrite (Hl H).
Qed.

(** * A configuration read from a file *)

Lemma read_http_app (h k : Heap) l :
  l < length h → read_http (h ++ k) l = read_http h l.
Proof. intros Hl. unfold read_http. by rewrite lookup_app_l. Qed.

Lemma alloc_origin_spec o (h : Heap) :
  ∃ k, (alloc_origin o h).2 = h ++ k ∧
       ∀ k', read_origin ((alloc_origin o h).2 ++ k') (alloc_origin o h).1 = o.
Proof.
  unfold alloc_origin. destruct o as [pa [ht|] ot]; simpl.
  - exists [CHttp ht]. split; [done|]. intros k'. unfold read_origin. simpl.
    f_equal. unfold read_http. rewrite <- app_assoc. simpl.
    by rewrite list_lookup_middle.
  - exists []. split; [by rewrite app_nil_r|]. intros k'. done.
Qed.

Lemma read_origin_app (h k : Heap) obj :
  (∀ l, o_http obj = Some l → l < length h) →
  read_origin (h ++ k) obj = read_origin h obj.
Proof.
  intros Hl. unfold read_origin. f_equal. destruct (o_http obj) as [l|]; simpl; [|done].
  apply read_http_app. by apply Hl.
Qed.

Lemma alloc_origin_scope o (h : Heap) l :
  o_http (alloc_origin o h).1 = Some l → l < length (alloc_origin o h).2.
Proof.
  unfold alloc_origin. destruct o as [pa [ht|] ot]; simpl; [|done].
  intros [= <-]. rewrite length_app. simpl. lia.
Qed.

Lemma alloc_origins_spec os (h : Heap) :
  ∃ k, (alloc_origins os h).2 = h ++ k ∧
       Forall (λ obj, ∀ l, o_http obj = Some l → l < length (alloc_origins os h).2)
              (alloc_origins os h).1 ∧
       ∀ k', map (read_origin ((alloc_origins os h).2 ++ k')) (alloc_origins os h).1 = os.
Proof.
  revert h. induction os as [|o os IH]; intros h; simpl.
  { exists []. by rewrite app_nil_r. }
  destruct (alloc_origin o h) as [obj h1] eqn:E1.
  destruct (alloc_origins os h1) as [objs h2] eqn:E2. simpl.
  destruct (alloc_origin_spec o h) as (k1 & Hk1 & Hr1).
  destruct (IH h1) as (k2 & Hk2 & Hs2 & Hr2).
  pose proof (alloc_origin_scope o h) as Hsc.
  rewrite E1 in Hk1, Hr1, Hsc. rewrite E2 in Hk2, Hs2, Hr2. simpl in *.
  exists (k1 ++ k2). split_and!.
  - by rewrite Hk2, Hk1, app_assoc.
  - constructor; [|done]. intros l Hl. specialize (Hsc l Hl).
    rewrite Hk2, length_app. lia.
  - intros k'. f_equal; [|apply Hr2].
    rewrite Hk2, <- app_assoc. apply Hr1.
Qed.

(** [JSON.stringify(JSON.parse(text))] for a configuration document. *)
Lemma alloc_doc_spec d (h : Heap) :
  ∃ k, (alloc_doc d h).2 = h ++ k ∧
       length h ≤ (alloc_doc d h).1 ∧
       stringify (alloc_doc d h).2 (alloc_doc d h).1 = Some d.
Proof.
  unfold alloc_doc.
  set (r1 := match d_origins d with
             | Some os =>
                 let '(objs, h') := alloc_origins os h in
                 let '(l, h'') := alloc (COrigins objs) h' in (Some l, h'')
             | None => (None, h)
             end).
  assert (H1 : ∃ k1, r1.2 = h ++ k1 ∧
                ∀ k', r1.1 ≫= read_origins (r1.2 ++ k') = d_origins d).
  { unfold r1. destruct (d_origins d) as [os|]; [|exists []; by rewrite app_nil_r].
    destruct (alloc_origins_spec os h) as (k & Hk & Hs & Hr).
    destruct (alloc_origins os h) as [objs h'] eqn:E. simpl in *.
    exists (k ++ [COrigins objs]). split; [by rewrite Hk, app_assoc|].
    intros k'. unfold read_origins. rewrite <- app_assoc. simpl.
    rewrite list_lookup_middle by done. f_equal.
    specialize (Hr (COrigins objs :: k')). done. }
  destruct r1 as [lo h1]. destruct H1 as (k1 & Hk1 & Hr1). simpl in *.
  set (r2 := alloc_opt CFrontends (d_frontends d) h1).
  assert (H2 : ∃ k2, r2.2 = h1 ++ k2 ∧
                ∀ k', r2.1 ≫= read_frontends (r2.2 ++ k') = d_frontends d).
  { unfold r2, alloc_opt. destruct (d_frontends d) as [fs|]; simpl.
    - exists [CFrontends fs]. split; [done|]. intros k'. unfold read_frontends.
      rewrite <- app_assoc. simpl. by rewrite list_lookup_middle.
    - exists []. by rewrite app_nil_r. }
  destruct r2 as [lf h2]. destruct H2 as (k2 & Hk2 & Hr2). simpl in *.
  set (r3 := alloc_opt CLogging (d_logging d) h2).
  assert (H3 : ∃ k3, r3.2 = h2 ++ k3 ∧
                ∀ k', r3.1 ≫= read_logging (r3.2 ++ k') = d_logging d).
  { unfold r3, alloc_opt. destruct (d_logging d) as [g|]; simpl.
    - exists [CLogging g]. split; [done|]. intros k'. unfold read_logging.
      rewrite <- app_assoc. simpl. by rewrite list_lookup_middle.
    - exists []. by rewrite app_nil_r. }
  destruct r3 as [lg h3]. destruct H3 as (k3 & Hk3 & Hr3). simpl in *.
  eexists. split.
  { rewrite Hk3, Hk2, Hk1. rewrite <- !app_assoc. reflexivity. }
  split.
  { rewrite Hk3, Hk2, Hk1, !length_app. lia. }
  unfold stringify, read_config. rewrite lookup_snoc. simpl.
  rewrite Hr3. rewrite Hk3, <- app_assoc, Hr2. rewrite Hk2, <- !app_assoc, Hr1.
  by destruct d.
Qed.

(** X9. When [engineConfig] is the path of a file, the constructor works
    on the document read from that file: it is parsed into objects of its
    own, added to the store, and the source document reads as the file's.
    Without the file the constructor throws, the store untouched. *)
Theorem config_file_is_parsed (host : Host) (sc : SideloadConfig) (h0 : Heap)
    (path : string) :
  sc_engineConfig sc = inl path →
  match readConfigFile host path with
  | Some d =>
      ∃ src h1 k, load_source host sc h0 = Some (src, h1) ∧
                  h1 = h0 ++ k ∧ length h0 ≤ src ∧
                  stringify h1 src = Some d
  | None => ∃ m, construct host sc h0 = Threw m h0
  end.
Proof.
  intros Hsc. unfold construct, load_source. rewrite Hsc.
  destruct (readConfigFile host path) as [d|]; [|by eexists].
  destruct (alloc_doc_spec d h0) as (k & Hk & Hl & Hs).
  destruct (alloc_doc d h0) as [src h1] eqn:E. simpl in *.
  by exists src, h1, k.
Qed.

(** * The supervisor while it is not running *)

Lemma fire_timer_stopped s t :
  running (this s) = false → running (this (fire_timer s t)) = false.
Proof.
  intros Hr. unfold fire_timer. destruct (t_action t) as [pr|pid].
  - frames. by destruct (child (this s)); frames.
  - by frames.
Qed.

Lemma fold_fire_stopped ts s :
  running (this s) = false → running (this (foldl fire_timer s ts)) = false.
Proof.
  revert s. induction ts as [|t ts IH]; intros s Hr; simpl; [done|].
  by apply IH, fire_timer_stopped.
Qed.

Lemma advance_stopped dt s :
  running (this s) = false → running (this (advance dt s)) = false.
Proof. intros Hr. unfold advance. by apply fold_fire_stopped. Qed.

Lemma stop_frame s :
  running (this (stop s).2) = false ∨ (stop s).2 = s.
Proof.
  unfold stop. destruct (child (this s)); cbn [snd]; [by left|by right|].
  left. by frames.
Qed.

Lemma stop_procs_length s : length (procs (stop s).2) = length (procs s).
Proof.
  unfold stop. destruct (child (this s)); cbn [snd]; try done. by frames.
Qed.

(** The exit handler of a supervisor that is not running: the process is
    marked, nothing is spawned, emitted or printed. *)
Lemma deliver_exit_stopped pid code sg s :
  running (this s) = false →
  let s' := deliver_exit pid code sg s in
  running (this s') = false ∧ length (procs s') = length (procs s) ∧
  error_events s' = error_events s ∧ console_error s' = console_error s ∧
  console_log s' = console_log s ∧ child (this s') = child (this s).
Proof.
  intros Hr. cbv zeta. unfold deliver_exit.
  destruct (procs s !! pid) as [p|]; [|done].
  destruct (p_alive p); [|done].
  rw_frame (settle_all_frame (Resolved VUndefined) (p_exit_waiters p)
              (on_exit code sg (update_proc pid (proc_set_p_alive false) s))).
  unfold on_exit. frames. rewrite Hr. simpl. by frames.
Qed.

Lemma handle_stopped ev s :
  not_start ev = true → running (this s) = false →
  running (this (handle ev s)) = false ∧
  length (procs (handle ev s)) = length (procs s) ∧
  error_events (handle ev s) = error_events s.
Proof.
  intros Hev Hr. destruct ev as [| |pid r|pid b|pid code sg]; cbn [handle].
  - done.
  - split_and!.
    + by destruct (stop_frame s) as [?| ->].
    + apply stop_procs_length.
    + unfold stop. destruct (child (this s)); cbn [snd]; try done. by frames.
  - destruct (spawned pid s); [|done]. rewrite on_log_this.
    rw_frame (on_log_frame pid r s). by destruct (is_ready r).
  - by destruct (spawned pid s).
  - by destruct (deliver_exit_stopped pid code sg s Hr) as (? & ? & ? & _).
Qed.

Lemma run_stopped tr s :
  running (this s) = false →
  Forall (λ e, not_start e.2 = true) tr →
  running (this (run tr s)) = false ∧
  length (procs (run tr s)) = length (procs s) ∧
  error_events (run tr s) = error_events s.
Proof.
  revert s. induction tr as [|e tr IH]; intros s Hr Htr; [done|].
  apply Forall_cons in Htr as [He Htr]. cbn [run foldl].
  pose proof (advance_stopped e.1 s Hr) as Hr1.
  destruct (handle_stopped e.2 (advance e.1 s) He Hr1) as (Hr2 & Hl2 & He2).
  destruct (IH (step s e) Hr2 Htr) as (H1 & H2 & H3).
  unfold run in *. split_and!; [done| |].
  - rewrite H2. unfold step. rewrite Hl2. by rw_frame (advance_frame e.1 s).
  - rewrite H3. unfold step. rewrite He2. by rw_frame (advance_frame e.1 s).
Qed.

(** X10. A supervisor that is not running (before [start()], after
    [stop()], after the start-up time-out) stays so until [start()] is
    called: whatever its processes write and whenever they exit, whatever
    timers fire and however often [stop()] is called, it spawns no process
    and emits no [error] event. *)
Theorem no_spawn_while_stopped (s : State) (tr : list (N * Event)) :
  running (this s) = false →
  Forall (λ e, not_start e.2 = true) tr →
  running (this (run tr s)) = false ∧
  length (procs (run tr s)) = length (procs s) ∧
  error_events (run tr s) = error_events s.
Proof. apply run_stopped. Qed.

(** X11. What the exit handler prints. While the supervisor is running, the
    exit of a live process with a code other than 78 (0 included) prints
    the line with the code, an exit by a signal prints the line with the
    signal; an exit with code 78, an exit while the supervisor is not
    running and the exit event of a process that has exited print
    nothing. *)
Theorem exit_diagnostics (s : State) (pid : nat) (code : option Z)
    (signal : option string) :
  let s' := handle (Exit pid code signal) s in
  (alive pid s = true → running (this s) = true → code ≠ Some 78%Z →
   console_error s' =
     console_error s ++
     match code with
     | Some c => ["Engine crashed unexpectedly with code: " +:+ num_to_string (Num c)]
     | None => []
     end ++
     match signal with
     | Some sg => ["Engine was killed unexpectedly by signal: " +:+ sg]
     | None => []
     end) ∧
  (alive pid s = false ∨ running (this s) = false ∨ code = Some 78%Z →
   console_error s' = console_error s) ∧
  console_log s' = console_log s.
Proof.
  cbv zeta. cbn [handle]. unfold alive, deliver_exit.
  destruct (procs s !! pid) as [p|]; [|by split_and!; [|intros|]].
  destruct (p_alive p); [|by split_and!; [|intros|]].
  rw_frame (settle_all_frame (Resolved VUndefined) (p_exit_waiters p)
              (on_exit code signal (update_proc pid (proc_set_p_alive false) s))).
  unfold on_exit. frames. destruct (running (this s)); simpl.
  - case_bool_decide as Hc.
    + frames. split_and!; [done|by intros|done].
    + frames. split_and!; [by intros|by intros [|[|]]|done].
  - frames. split_and!; [done|by intros|done].
Qed.

(** * Nothing is retracted *)

Lemma proc_grows_refl p : proc_grows p p.
Proof. by split_and!. Qed.

Lemma proc_grows_trans p1 p2 p3 :
  proc_grows p1 p2 → proc_grows p2 p3 → proc_grows p1 p3.
Proof.
  intros (A1 & A2 & A3 & A4 & A5) (B1 & B2 & B3 & B4 & B5). split_and!.
  - by etrans.
  - by etrans.
  - by etrans.
  - congruence.
  - auto.
Qed.

Lemma grows_refl s : grows s s.
Proof.
  split_and!; try done. intros k p Hp. exists p. split; [done|].
  apply proc_grows_refl.
Qed.

Lemma grows_trans s1 s2 s3 : grows s1 s2 → grows s2 s3 → grows s1 s3.
Proof.
  intros (A1 & A2 & A3 & A4 & A5 & A6) (B1 & B2 & B3 & B4 & B5 & B6). split_and!.
  - by etrans.
  - by etrans.
  - by etrans.
  - lia.
  - lia.
  - intros k p Hp. destruct (A6 k p Hp) as (p2 & Hp2 & G2).
    destruct (B6 k p2 Hp2) as (p3 & Hp3 & G3). exists p3. split; [done|].
    by eapply proc_grows_trans.
Qed.

(** A step that leaves the processes alone. *)
Lemma grows_frame s s' :
  console_log s `prefix_of` console_log s' →
  console_error s `prefix_of` console_error s' →
  error_events s `prefix_of` error_events s' →
  now s' = now s → length (promises s) ≤ length (promises s') →
  procs s' = procs s → grows s s'.
Proof.
  intros H1 H2 H3 H4 H5 H6. split_and!; try done; [lia|].
  intros k p Hp. exists p. rewrite H6. split; [done|]. apply proc_grows_refl.
Qed.

Lemma grows_update_proc pid f s :
  (∀ p, proc_grows p (f p)) → grows s (update_proc pid f s).
Proof.
  intros Hf. split_and!; frames; try done.
  intros k p Hp. rewrite update_proc_lookup. case_decide; subst.
  - rewrite Hp. simpl. eauto.
  - exists p. split; [done|]. apply proc_grows_refl.
Qed.

Lemma grows_kill pid sg s : grows s (kill pid sg s).
Proof.
  apply grows_update_proc. intros p. destruct (p_alive p) eqn:Ha.
  - split_and!; simpl; try done. by apply prefix_app_r.
  - apply proc_grows_refl.
Qed.

Lemma grows_stdin_write pid d s : grows s (stdin_write pid d s).
Proof.
  apply grows_update_proc. intros p. split_and!; simpl; try done.
  by apply prefix_app_r.
Qed.

Lemma grows_settle pr v s : grows s (settle pr v s).
Proof.
  pose proof (settle_frame pr v s) as H. rw_conj H.
  apply grows_frame; frames; try done; lia.
Qed.

Lemma grows_settle_all v ws s : grows s (foldl (λ st pr, settle pr v st) s ws).
Proof.
  revert s. induction ws as [|w ws IH]; intros s; simpl; [apply grows_refl|].
  eapply grows_trans; [apply grows_settle|apply IH].
Qed.

Lemma grows_emit_start s : grows s (emit_start s).
Proof.
  pose proof (emit_start_frame s) as H. rw_conj H.
  apply grows_frame; frames; try done; lia.
Qed.

Lemma grows_set_level v s : grows s (set_level v s).
Proof. apply grows_frame; by frames. Qed.

Lemma grows_spawnChild s : grows s (spawnChild s).
Proof.
  destruct (spawnChild_procs s) as (q & Hq & _).
  split_and!; frames; try done.
  intros k p Hp. exists p. rewrite Hq. split; [by apply lookup_app_l_Some|].
  apply proc_grows_refl.
Qed.

Lemma grows_on_log pid r s : grows s (on_log pid r s).
Proof.
  unfold on_log.
  set (s1 := if is_ready r then _ else s).
  assert (H1 : grows s s1).
  { unfold s1. destruct (is_ready r); [|apply grows_refl].
    set (s2 := emit_start _).
    assert (H2 : grows s s2).
    { eapply grows_trans; [|apply grows_emit_start]. by apply grows_frame. }
    destruct (procs s2 !! pid) as [p|]; [|done].
    destruct (p_filter p); try done.
    eapply grows_trans; [exact H2|].
    eapply grows_trans; [apply grows_set_level|].
    eapply grows_trans; [apply grows_stdin_write|].
    apply grows_frame; by frames. }
  destruct (should_print (proc_filter pid s1) r); [|done].
  eapply grows_trans; [exact H1|].
  apply grows_frame; simpl; try done. by apply prefix_app_r.
Qed.

Lemma grows_on_exit code sg s : grows s (on_exit code sg s).
Proof.
  unfold on_exit. cbn [set_uri]. destruct (negb _).
  { by apply grows_frame. }
  case_bool_decide.
  { apply grows_frame; simpl; try done. by apply prefix_app_r. }
  eapply grows_trans; [|apply grows_spawnChild].
  apply grows_frame; simpl; try done. by apply prefix_app_r.
Qed.

Lemma grows_deliver_exit pid code sg s : grows s (deliver_exit pid code sg s).
Proof.
  unfold deliver_exit. destruct (procs s !! pid) as [p|]; [|apply grows_refl].
  destruct (p_alive p); [|apply grows_refl].
  eapply grows_trans; [|apply grows_settle_all].
  eapply grows_trans; [|apply grows_on_exit].
  apply grows_update_proc. intros q. by split_and!.
Qed.

Lemma grows_fire_timer s t : grows s (fire_timer s t).
Proof.
  unfold fire_timer. destruct (t_action t) as [pr|pid].
  - cbv zeta. eapply grows_trans; [|apply grows_settle].
    set (s1 := set_this (eng_set_running false (this s)) s).
    assert (H1 : grows s s1) by by apply grows_frame.
    destruct (child (this s1)) as [| |pid]; [done|done|].
    eapply grows_trans; [exact H1|].
    eapply grows_trans; [apply (grows_kill pid SIGKILL)|].
    by apply grows_frame.
  - apply grows_update_proc. intros p. by split_and!.
Qed.

Lemma grows_fold_fire ts s : grows s (foldl fire_timer s ts).
Proof.
  revert s. induction ts as [|t ts IH]; intros s; simpl; [apply grows_refl|].
  eapply grows_trans; [apply grows_fire_timer|apply IH].
Qed.

Lemma grows_advance dt s : grows s (advance dt s).
Proof.
  unfold advance. eapply grows_trans; [|apply grows_fold_fire].
  split_and!; simpl; try done; [lia|].
  intros k p Hp. exists p. split; [done|]. apply proc_grows_refl.
Qed.

Lemma grows_start s : grows s (start s).2.
Proof.
  unfold start. destruct (running (this s)); cbn [snd]; [apply grows_refl|].
  set (s1 := spawnChild _).
  assert (H1 : grows s s1).
  { eapply grows_trans; [|apply grows_spawnChild]. by apply grows_frame. }
  eapply grows_trans; [exact H1|].
  apply grows_frame; frames; try done. rewrite length_app. lia.
Qed.

Lemma grows_stop s : grows s (stop s).2.
Proof.
  unfold stop. destruct (child (this s)) as [| |pid]; cbn [snd].
  - apply grows_frame; simpl; try done. rewrite length_app. lia.
  - apply grows_refl.
  - eapply grows_trans; [|apply grows_kill].
    eapply grows_trans; [|apply grows_update_proc].
    + apply grows_frame; simpl; try done. rewrite length_app. lia.
    + intros p. split_and!; simpl; try done. by apply prefix_app_r.
Qed.

Lemma grows_handle ev s : grows s (handle ev s).
Proof.
  destruct ev as [| |pid r|pid b|pid code sg]; cbn [handle].
  - apply grows_start.
  - apply grows_stop.
  - destruct (spawned pid s); [apply grows_on_log|apply grows_refl].
  - destruct (spawned pid s); [|apply grows_refl].
    apply grows_frame; simpl; try done. by apply prefix_app_r.
  - apply grows_deliver_exit.
Qed.

(** X12. Along every sequence of events, from any state: what was printed
    to [console.log] and [console.error] and the [error] events emitted are
    kept and only extended; every process keeps its number, what was
    written to its stdin, the signals sent to it and the level its closure
    read at spawn time; and a process that has exited is not revived. *)
Theorem history_is_kept (s : State) (tr : list (N * Event)) :
  let s' := run tr s in
  console_log s `prefix_of` console_log s' ∧
  console_error s `prefix_of` console_error s' ∧
  error_events s `prefix_of` error_events s' ∧
  ∀ k p, procs s !! k = Some p →
    ∃ p', procs s' !! k = Some p' ∧
          p_stdin p `prefix_of` p_stdin p' ∧
          p_signals p `prefix_of` p_signals p' ∧
          p_logLevel p' = p_logLevel p ∧
          (p_alive p = false → p_alive p' = false).
Proof.
  cbv zeta.
  assert (H : grows s (run tr s)).
  { revert s. induction tr as [|e tr IH]; intros s; [apply grows_refl|].
    cbn [run foldl]. eapply grows_trans; [|apply IH].
    unfold step. eapply grows_trans; [apply grows_advance|apply grows_handle]. }
  destruct H as (H1 & H2 & H3 & _ & _ & H6). split_and!; try done.
  intros k p Hp. destruct (H6 k p Hp) as (p' & Hp' & G1 & G2 & _ & G4 & G5).
  by exists p'.
Qed.

(** * Levels that the supervisor does not rewrite *)

Lemma update_proc_Forall (P : Proc → Prop) pid f s :
  (∀ p, P p → P (f p)) → Forall P (procs s) → Forall P (procs (update_proc pid f s)).
Proof.
  intros Hf HP. unfold update_proc. destruct (procs s !! pid) as [p|] eqn:Hp; [|done].
  simpl. apply Forall_insert; [done|]. apply Hf.
  rewrite Forall_lookup in HP. by apply (HP pid).
Qed.

Lemma kill_Forall (P : Proc → Prop) pid sg s :
  (∀ l p, P p → P (proc_set_p_signals l p)) →
  Forall P (procs s) → Forall P (procs (kill pid sg s)).
Proof.
  intros Hf. apply update_proc_Forall. intros p Hp.
  destruct (p_alive p); [by apply Hf|done].
Qed.

Lemma settle_all_procs v ws s :
  procs (foldl (λ st pr, settle pr v st) s ws) = procs s.
Proof. by rw_frame (settle_all_frame v ws s). Qed.

Section unfiltered.
Context (s0 : State).
Hypothesis Hlvl : ∀ l, get_level s0 = Some l → hack_filter l = None.

Lemma unfiltered_level s : unfiltered s0 s → get_level s = get_level s0.
Proof.
  intros (Hh & Hc & _). unfold get_level, logging_loc. by rewrite Hh, Hc.
Qed.

Lemma unfiltered_eq s s' :
  unfiltered s0 s → heap s' = heap s →
  engineConfig (this s') = engineConfig (this s) →
  timers s' = timers s → procs s' = procs s → unfiltered s0 s'.
Proof.
  intros (H1 & H2 & H3 & H4) E1 E2 E3 E4. unfold unfiltered.
  rewrite E1, E2, E3, E4. by split_and!.
Qed.

Lemma unfiltered_update_proc pid f s :
  (∀ p, p_filter (f p) = p_filter p ∧ p_logLevel (f p) = p_logLevel p ∧
        p_stdin (f p) = p_stdin p) →
  unfiltered s0 s → unfiltered s0 (update_proc pid f s).
Proof.
  intros Hf (H1 & H2 & H3 & H4). unfold unfiltered. frames. split_and!; try done.
  apply update_proc_Forall; [|done]. intros p (A & B & C).
  destruct (Hf p) as (-> & -> & ->). done.
Qed.

Lemma unfiltered_kill pid sg s : unfiltered s0 s → unfiltered s0 (kill pid sg s).
Proof.
  apply unfiltered_update_proc. intros p. by destruct (p_alive p).
Qed.

Lemma unfiltered_settle pr v s : unfiltered s0 s → unfiltered s0 (settle pr v s).
Proof. intros H. eapply unfiltered_eq; [exact H|by frames..]. Qed.

Lemma unfiltered_settle_all v ws s :
  unfiltered s0 s → unfiltered s0 (foldl (λ st pr, settle pr v st) s ws).
Proof.
  intros H.
  eapply unfiltered_eq; [exact H|by rw_frame (settle_all_frame v ws s)..].
Qed.

Lemma unfiltered_spawnChild s : unfiltered s0 s → unfiltered s0 (spawnChild s).
Proof.
  intros Hs. pose proof (unfiltered_level s Hs) as Hl.
  destruct Hs as (H1 & H2 & H3 & H4).
  assert (E : spawnChild s =
    set_this (eng_set_child (CHandle (length (procs s))) (this s))
      (set_procs (procs s ++
         [ {| p_alive := true;
              p_stdin := [stringify (heap s) (engineConfig (this s))];
              p_signals := []; p_logLevel := get_level s;
              p_filter := FltUndefined; p_exit_waiters := [] |} ]) s)).
  { unfold spawnChild. destruct (get_level s) as [l|]; [|done].
    destruct (str_truthy l); [|done]. by rewrite (Hlvl l) by done. }
  rewrite E. unfold unfiltered. simpl. split_and!; try done.
  apply Forall_app. split; [done|]. apply Forall_singleton. simpl.
  by rewrite H1, H2, Hl.
Qed.

Lemma unfiltered_on_log pid r s :
  unfiltered s0 s →
  unfiltered s0 (on_log pid r s) ∧
  console_log (on_log pid r s) = console_log s ++ [r].
Proof.
  intros Hs. split.
  - unfold on_log.
    set (s1 := if is_ready r then _ else s).
    assert (H1 : unfiltered s0 s1).
    { unfold s1. destruct (is_ready r); [|done].
      set (s2 := emit_start _).
      assert (H2 : unfiltered s0 s2).
      { destruct Hs as (A & B & C & D). unfold unfiltered, s2. frames.
        split_and!; try done. by apply emit_start_timers. }
      destruct (procs s2 !! pid) as [p|] eqn:Hp; [|done].
      destruct H2 as (A & B & C & D). rewrite Forall_lookup in D.
      destruct (D pid p Hp) as (Hf & _). rewrite Hf.
      unfold unfiltered. split_and!; try done. by apply Forall_lookup. }
    destruct (should_print _ r); [|done]. by eapply unfiltered_eq.
  - rewrite on_log_console.
    destruct Hs as (_ & _ & _ & D). unfold proc_filter.
    destruct (procs s !! pid) as [p|] eqn:Hp; [|done].
    rewrite Forall_lookup in D. destruct (D pid p Hp) as (Hf & _). by rewrite Hf.
Qed.

Lemma unfiltered_on_exit code sg s :
  unfiltered s0 s → unfiltered s0 (on_exit code sg s).
Proof.
  intros Hs. unfold on_exit. cbn [set_uri]. destruct (negb _).
  { by eapply unfiltered_eq. }
  case_bool_decide.
  { by eapply unfiltered_eq. }
  apply unfiltered_spawnChild. by eapply unfiltered_eq.
Qed.

Lemma unfiltered_deliver_exit pid code sg s :
  unfiltered s0 s → unfiltered s0 (deliver_exit pid code sg s).
Proof.
  intros Hs. unfold deliver_exit. destruct (procs s !! pid) as [p|]; [|done].
  destruct (p_alive p); [|done].
  apply unfiltered_settle_all, unfiltered_on_exit.
  by apply unfiltered_update_proc.
Qed.

Lemma unfiltered_fire_timer s t :
  (∃ pr, t_action t = StartupTimeout pr) →
  unfiltered s0 s → unfiltered s0 (fire_timer s t).
Proof.
  intros (pr & Ht) Hs. unfold fire_timer. rewrite Ht. cbv zeta.
  apply unfiltered_settle.
  set (s1 := set_this (eng_set_running false (this s)) s).
  assert (H1 : unfiltered s0 s1) by by eapply unfiltered_eq.
  destruct (child (this s1)) as [| |pid]; [done|done|].
  eapply unfiltered_eq; [apply (unfiltered_kill pid SIGKILL s1 H1)|by frames..].
Qed.

Lemma unfiltered_fold_fire ts s :
  Forall (λ t, ∃ pr, t_action t = StartupTimeout pr) ts →
  unfiltered s0 s → unfiltered s0 (foldl fire_timer s ts).
Proof.
  revert s. induction ts as [|t ts IH]; intros s Hts Hs; simpl; [done|].
  apply Forall_cons in Hts as [Ht Hts]. by apply IH, unfiltered_fire_timer.
Qed.

Lemma unfiltered_advance dt s : unfiltered s0 s → unfiltered s0 (advance dt s).
Proof.
  intros Hs. unfold advance. cbv zeta.
  pose proof Hs as (A & B & C & D).
  apply unfiltered_fold_fire.
  - by apply clear_only_filter.
  - unfold unfiltered. simpl. split_and!; try done. by apply clear_only_filter.
Qed.

Lemma unfiltered_start s : unfiltered s0 s → unfiltered s0 (start s).2.
Proof.
  intros Hs. unfold start. destruct (running (this s)); cbn [snd]; [done|].
  set (s1 := spawnChild _).
  assert (H1 : unfiltered s0 s1).
  { apply unfiltered_spawnChild. by eapply unfiltered_eq. }
  destruct H1 as (A & B & C & D). unfold unfiltered. frames. simpl.
  split_and!; try done. apply Forall_app. split; [done|].
  apply Forall_singleton. simpl. eauto.
Qed.

Lemma unfiltered_stop s : unfiltered s0 s → unfiltered s0 (stop s).2.
Proof.
  intros Hs. unfold stop. destruct (child (this s)) as [| |pid]; cbn [snd].
  - by eapply unfiltered_eq.
  - done.
  - apply unfiltered_kill. apply unfiltered_update_proc; [done|].
    by eapply unfiltered_eq.
Qed.

Lemma unfiltered_handle ev s : unfiltered s0 s → unfiltered s0 (handle ev s).
Proof.
  intros Hs. destruct ev as [| |pid r|pid b|pid code sg]; cbn [handle].
  - by apply unfiltered_start.
  - by apply unfiltered_stop.
  - destruct (spawned pid s); [|done]. by apply unfiltered_on_log.
  - destruct (spawned pid s); [|done]. by eapply unfiltered_eq.
  - by apply unfiltered_deliver_exit.
Qed.

Lemma unfiltered_run tr s : unfiltered s0 s → unfiltered s0 (run tr s).
Proof.
  revert s. induction tr as [|e tr IH]; intros s Hs; [done|].
  cbn [run foldl]. apply IH. unfold step.
  by apply unfiltered_handle, unfiltered_advance.
Qed.
End unfiltered.

(** X13. When the level of the constructed configuration is absent, empty
    or anything but warn, warning, error or fatal (in any case), the
    supervisor never writes to the configuration: in every state it
    reaches, each process it has spawned was written exactly one document,
    the one assembled by the constructor, carries no filter, and every log
    record that the output stream of a spawned process delivers to the log
    handler is printed (the stream delivers the records it decodes, none
    after output that is not JSON). *)
Theorem unfiltered_levels (host : Host) (sc : SideloadConfig) (h0 : Heap)
    (s0 : State) (tr : list (N * Event)) :
  construct host sc h0 = Constructed s0 →
  (∀ l, get_level s0 = Some l → hack_filter l = None) →
  let s := run tr s0 in
  heap s = heap s0 ∧ get_level s = get_level s0 ∧
  Forall (λ p, p_stdin p = [stringify (heap s0) (engineConfig (this s0))] ∧
               p_filter p = FltUndefined) (procs s) ∧
  ∀ dt pid r, spawned pid s = true →
    console_log (step s (dt, StdoutRecord pid r)) = console_log s ++ [r].
Proof.
  intros Hc Hlvl. cbv zeta.
  destruct (construct_initial _ _ _ _ Hc) as (Hp & Ht & _).
  assert (H0 : unfiltered s0 s0).
  { unfold unfiltered. rewrite Hp, Ht. by split_and!. }
  pose proof (unfiltered_run s0 Hlvl tr s0 H0) as Hs.
  split_and!.
  - by destruct Hs.
  - by apply unfiltered_level.
  - destruct Hs as (_ & _ & _ & D). eapply Forall_impl; [exact D|].
    by intros p (? & _ & ?).
  - intros dt pid r Ha. unfold step. cbn [fst snd handle].
    rewrite advance_spawned, Ha.
    destruct (unfiltered_on_log s0 pid r (advance dt (run tr s0))) as [_ H].
    { by apply unfiltered_advance. }
    rewrite H. by rw_frame (advance_frame dt (run tr s0)).
Qed.

(** * [stop()] with a live child *)

(** ** The promises that are referred to exist *)

Lemma refs_ok_mono s s' :
  refs_ok s → length (promises s) ≤ length (promises s') →
  start_listeners s' = start_listeners s → timers s' = timers s →
  p_exit_waiters <$> procs s' = p_exit_waiters <$> procs s → refs_ok s'.
Proof.
  intros (H1 & H2 & H3) Hl E1 E2 E3. unfold refs_ok. rewrite E1, E2. split_and!.
  - eapply Forall_impl; [exact H1|]. simpl. intros; lia.
  - eapply Forall_impl; [exact H2|]. simpl. intros t Ht pr Hpr.
    specialize (Ht pr Hpr). lia.
  - cut (Forall (λ ws, Forall (λ w, w < length (promises s')) ws)
           (p_exit_waiters <$> procs s')).
    { by rewrite Forall_fmap. }
    rewrite E3, Forall_fmap. eapply Forall_impl; [exact H3|]. simpl.
    intros p Hp. eapply Forall_impl; [exact Hp|]. simpl. intros; lia.
Qed.

Lemma refs_ok_timers (Q : Timer → Prop) `{∀ t, Decision (Q t)} s s' :
  refs_ok s → length (promises s) ≤ length (promises s') →
  start_listeners s' = start_listeners s → timers s' = filter Q (timers s) →
  p_exit_waiters <$> procs s' = p_exit_waiters <$> procs s → refs_ok s'.
Proof.
  intros Hs Hl E1 E2 E3.
  apply (refs_ok_mono (set_timers (filter Q (timers s)) s)); try done.
  destruct Hs as (H1 & H2 & H3). unfold refs_ok. simpl. split_and!; try done.
  by apply clear_only_filter.
Qed.

Lemma refs_ok_settle pr v s : refs_ok s → refs_ok (settle pr v s).
Proof.
  intros Hs. pose proof (settle_frame pr v s) as H.
  eapply refs_ok_mono; [exact Hs|..]; rw_conj H; try done; lia.
Qed.

Lemma refs_ok_settle_all v ws s :
  refs_ok s → refs_ok (foldl (λ st pr, settle pr v st) s ws).
Proof.
  revert s. induction ws as [|w ws IH]; intros s Hs; simpl; [done|].
  by apply IH, refs_ok_settle.
Qed.

Lemma refs_ok_start_listener s l : refs_ok s → refs_ok (start_listener s l).
Proof.
  intros Hs. unfold start_listener. apply refs_ok_settle.
  by eapply (refs_ok_timers (λ t, t_id t ≠ l.1)).
Qed.

Lemma refs_ok_fold_listeners ls s : refs_ok s → refs_ok (foldl start_listener s ls).
Proof.
  revert s. induction ls as [|l ls IH]; intros s Hs; simpl; [done|].
  by apply IH, refs_ok_start_listener.
Qed.

Lemma refs_ok_emit_start s : refs_ok s → refs_ok (emit_start s).
Proof. apply refs_ok_fold_listeners. Qed.

Lemma refs_ok_spawnChild s : refs_ok s → refs_ok (spawnChild s).
Proof.
  intros (H1 & H2 & H3).
  destruct (spawnChild_procs s) as (q & Hq & _ & _ & Hw & _).
  unfold refs_ok. frames. rewrite Hq. split_and!; try done.
  apply Forall_app. split; [done|]. apply Forall_singleton. by rewrite Hw.
Qed.

Lemma refs_ok_clear_timer pid d s :
  refs_ok s → refs_ok (setTimeout (ClearFilter pid) d s).
Proof.
  intros (H1 & H2 & H3). unfold refs_ok. frames. simpl. split_and!; try done.
  apply Forall_app. split; [done|]. by apply Forall_singleton.
Qed.

Lemma refs_ok_on_log pid r s : refs_ok s → refs_ok (on_log pid r s).
Proof.
  intros Hs. unfold on_log.
  set (s1 := if is_ready r then _ else s).
  assert (H1 : refs_ok s1).
  { unfold s1. destruct (is_ready r); [|done].
    set (s2 := emit_start _).
    assert (H2 : refs_ok s2).
    { apply refs_ok_emit_start. by eapply refs_ok_mono. }
    destruct (procs s2 !! pid) as [p|]; [|done].
    destruct (p_filter p); try done.
    apply refs_ok_clear_timer.
    eapply refs_ok_mono; [exact H2|frames..]; try done.
    by rewrite stdin_write_fmap; frames. }
  destruct (should_print _ r); [|done]. by eapply refs_ok_mono.
Qed.

Lemma refs_ok_on_exit code sg s : refs_ok s → refs_ok (on_exit code sg s).
Proof.
  intros Hs. unfold on_exit. cbn [set_uri]. destruct (negb _).
  { by eapply refs_ok_mono. }
  case_bool_decide.
  { by eapply refs_ok_mono. }
  apply refs_ok_spawnChild. by eapply refs_ok_mono.
Qed.

Lemma refs_ok_deliver_exit pid code sg s :
  refs_ok s → refs_ok (deliver_exit pid code sg s).
Proof.
  intros Hs. unfold deliver_exit. destruct (procs s !! pid) as [p|]; [|done].
  destruct (p_alive p); [|done].
  apply refs_ok_settle_all, refs_ok_on_exit.
  eapply refs_ok_mono; [exact Hs|frames..]; try done.
  by apply update_proc_fmap.
Qed.

Lemma refs_ok_fire_timer s t : refs_ok s → refs_ok (fire_timer s t).
Proof.
  intros Hs. pose proof (fire_timer_frame s t) as H.
  eapply refs_ok_mono; [exact Hs|..].
  - rw_conj H. lia.
  - by rw_conj H.
  - by rw_conj H.
  - by apply fire_timer_fmap.
Qed.

Lemma refs_ok_fold_fire ts s : refs_ok s → refs_ok (foldl fire_timer s ts).
Proof.
  revert s. induction ts as [|t ts IH]; intros s Hs; simpl; [done|].
  by apply IH, refs_ok_fire_timer.
Qed.

Lemma refs_ok_advance dt s : refs_ok s → refs_ok (advance dt s).
Proof.
  intros Hs. unfold advance. cbv zeta. apply refs_ok_fold_fire.
  by eapply (refs_ok_timers (λ tm, is_due (now s + dt) tm = false)).
Qed.

Lemma refs_ok_start s : refs_ok s → refs_ok (start s).2.
Proof.
  intros Hs. unfold start. destruct (running (this s)); cbn [snd]; [done|].
  set (s1 := spawnChild _).
  assert (H1 : refs_ok s1).
  { apply refs_ok_spawnChild. by eapply refs_ok_mono. }
  destruct H1 as (A & B & C). unfold refs_ok. frames. simpl.
  rewrite length_app. simpl. split_and!.
  - apply Forall_app. split.
    + eapply Forall_impl; [exact A|]. simpl. intros; lia.
    + apply Forall_singleton. simpl. lia.
  - apply Forall_app. split.
    + eapply Forall_impl; [exact B|]. simpl. intros t Ht pr Hpr.
      specialize (Ht pr Hpr). lia.
    + apply Forall_singleton. simpl. intros pr [= <-]. lia.
  - eapply Forall_impl; [exact C|]. simpl.
    intros p Hp. eapply Forall_impl; [exact Hp|]. simpl. intros; lia.
Qed.

Lemma refs_ok_stop s : refs_ok s → refs_ok (stop s).2.
Proof.
  intros Hs. unfold stop. destruct (child (this s)) as [| |pid]; cbn [snd].
  - eapply refs_ok_mono; [exact Hs|simpl..]; try done. rewrite length_app. lia.
  - done.
  - set (s2 := set_promises _ _).
    assert (H2 : refs_ok s2).
    { eapply refs_ok_mono; [exact Hs|unfold s2; simpl..]; try done.
      rewrite length_app. lia. }
    assert (Hl : length (promises s2) = S (length (promises s))).
    { unfold s2. simpl. rewrite length_app. simpl. lia. }
    set (s3 := update_proc _ _ s2).
    assert (H3 : refs_ok s3).
    { destruct H2 as (A & B & C). unfold refs_ok, s3. frames. fold s2.
      split_and!; try done.
      apply update_proc_Forall; [|done]. simpl. intros p Hp.
      apply Forall_app. split; [done|]. apply Forall_singleton.
      unfold s2. simpl. rewrite length_app. simpl. lia. }
    eapply refs_ok_mono; [exact H3|frames..]; try done.
    by apply kill_fmap.
Qed.

Lemma refs_ok_handle ev s : refs_ok s → refs_ok (handle ev s).
Proof.
  intros Hs. destruct ev as [| |pid r|pid b|pid code sg]; cbn [handle].
  - by apply refs_ok_start.
  - by apply refs_ok_stop.
  - destruct (spawned pid s); [|done]. by apply refs_ok_on_log.
  - destruct (spawned pid s); [|done]. by eapply refs_ok_mono.
  - by apply refs_ok_deliver_exit.
Qed.

Lemma refs_ok_run tr s : refs_ok s → refs_ok (run tr s).
Proof.
  revert s. induction tr as [|e tr IH]; intros s Hs; [done|].
  cbn [run foldl]. apply IH. unfold step.
  by apply refs_ok_handle, refs_ok_advance.
Qed.

Lemma refs_ok_constructed host sc h0 s :
  construct host sc h0 = Constructed s → refs_ok s.
Proof.
  intros Hc. destruct (construct_initial _ _ _ _ Hc) as (Hp & Ht & _ & Hl & _).
  unfold refs_ok. rewrite Hp, Ht, Hl. by split_and!.
Qed.

(** ** The promise of [stop()] *)

Lemma waits_on_view pr pid (ps ps' : list Proc) :
  exit_view <$> ps' = exit_view <$> ps → waits_on pr pid ps → waits_on pr pid ps'.
Proof.
  intros E ((p & Hp & Ha & Hw) & Hu).
  assert (L : ∀ q p', ps' !! q = Some p' →
                ∃ p0, ps !! q = Some p0 ∧ exit_view p0 = exit_view p').
  { intros q p' Hq.
    assert (H : (exit_view <$> ps) !! q = Some (exit_view p')).
    { by rewrite <- E, list_lookup_fmap, Hq. }
    rewrite list_lookup_fmap in H. destruct (ps !! q) as [p0|]; [|done].
    exists p0. split; [done|].
    change (Some (exit_view p0) = Some (exit_view p')) in H. congruence. }
  split.
  - assert (H : (exit_view <$> ps') !! pid = Some (exit_view p)).
    { by rewrite E, list_lookup_fmap, Hp. }
    rewrite list_lookup_fmap in H. destruct (ps' !! pid) as [p'|]; [|done].
    exists p'. split; [done|].
    change (Some (exit_view p') = Some (exit_view p)) in H.
    unfold exit_view in H. injection H as H1 H2. by rewrite H1, H2.
  - intros q p' Hq Ha' Hw'. destruct (L q p' Hq) as (p0 & Hp0 & Hv).
    unfold exit_view in Hv. injection Hv as H1 H2.
    apply (Hu q p0 Hp0); congruence.
Qed.

Lemma waits_on_snoc pr pid (ps : list Proc) q :
  p_exit_waiters q = [] → waits_on pr pid ps → waits_on pr pid (ps ++ [q]).
Proof.
  intros Hq ((p & Hp & Ha & Hw) & Hu). split.
  - exists p. split; [by apply lookup_app_l_Some|done].
  - intros k p' Hk Ha' Hw'. apply lookup_app_Some in Hk as [Hk|[_ Hk]].
    + by apply (Hu k p').
    + apply list_lookup_singleton_Some in Hk as [_ <-]. rewrite Hq in Hw'.
      by apply elem_of_nil in Hw'.
Qed.

(** Another process is changed, or this one without touching what counts. *)
Lemma waits_on_insert pr pid (ps : list Proc) k p p' :
  ps !! k = Some p →
  (p_alive p' = true → p_alive p = true) →
  (pr ∈ p_exit_waiters p' ↔ pr ∈ p_exit_waiters p) →
  (k = pid → p_alive p' = p_alive p) →
  waits_on pr pid ps → waits_on pr pid (<[k := p']> ps).
Proof.
  intros Hk Ha Hw Hpid ((p0 & Hp0 & Ha0 & Hw0) & Hu). split.
  - destruct (decide (k = pid)) as [->|Hne].
    + exists p'. rewrite list_lookup_insert_eq by (by eapply lookup_lt_Some).
      simplify_eq. split_and!; [done| |by apply Hw]. by rewrite Hpid.
    + exists p0. by rewrite list_lookup_insert_ne.
  - intros q x Hq Hax Hwx. destruct (decide (q = k)) as [->|Hne].
    + rewrite list_lookup_insert_eq in Hq by (by eapply lookup_lt_Some).
      simplify_eq. apply (Hu k p Hk); [by apply Ha|by apply Hw].
    + rewrite list_lookup_insert_ne in Hq by done. by apply (Hu q x).
Qed.

Lemma awaited_lt pr pid s : awaited pr pid s → pr < length (promises s).
Proof. intros (H & _). by eapply lookup_lt_Some. Qed.

Lemma awaited_frame pr pid s s' :
  awaited pr pid s →
  promises s' !! pr = promises s !! pr →
  start_listeners s' = start_listeners s →
  Forall (λ t, t_action t ≠ StartupTimeout pr) (timers s') →
  exit_view <$> procs s' = exit_view <$> procs s →
  awaited pr pid s'.
Proof.
  intros (H1 & H2 & H3 & H4) E1 E2 E3 E4. unfold awaited.
  rewrite E1, E2. split_and!; try done. by eapply waits_on_view.
Qed.

Lemma awaited_emit_start pr pid s : awaited pr pid s → awaited pr pid (emit_start s).
Proof.
  intros Hs. pose proof Hs as (Hp & Hl & Ht & Hv).
  eapply awaited_frame; [exact Hs|..].
  - unfold emit_start. rewrite fold_listeners_promise, Hp.
    by rewrite bool_decide_eq_false_2.
  - by frames.
  - by apply emit_start_timers.
  - by frames.
Qed.

Lemma awaited_on_log pr pid k r s : awaited pr pid s → awaited pr pid (on_log k r s).
Proof.
  intros Hs. pose proof Hs as (Hp & Hl & Ht & Hv).
  assert (H1 : awaited pr pid
                 (if is_ready r
                  then emit_start (set_uri ("http://" +:+ show_field (address r)) s)
                  else s)).
  { destruct (is_ready r); [|done]. apply awaited_emit_start.
    by eapply awaited_frame. }
  eapply awaited_frame; [exact Hs|..].
  - rewrite on_log_promises. destruct H1 as (-> & _). done.
  - by rw_frame (on_log_frame k r s).
  - apply on_log_timers; [|done]. by destruct H1 as (_ & _ & ? & _).
  - by apply on_log_fmap.
Qed.

Lemma awaited_spawnChild pr pid s : awaited pr pid s → awaited pr pid (spawnChild s).
Proof.
  intros (Hp & Hl & Ht & Hv).
  destruct (spawnChild_procs s) as (q & Hq & _ & _ & Hw & _).
  unfold awaited. frames. rewrite Hq. split_and!; try done.
  by apply waits_on_snoc.
Qed.

Lemma awaited_on_exit pr pid code sg s :
  awaited pr pid s → awaited pr pid (on_exit code sg s).
Proof.
  intros Hs. unfold on_exit. cbn [set_uri]. destruct (negb _).
  { eapply awaited_frame; [exact Hs|try done..]. by destruct Hs as (_ & _ & ? & _). }
  case_bool_decide.
  { eapply awaited_frame; [exact Hs|try done..]. by destruct Hs as (_ & _ & ? & _). }
  apply awaited_spawnChild.
  eapply awaited_frame; [exact Hs|try done..]. by destruct Hs as (_ & _ & ? & _).
Qed.

Lemma awaited_settle_all pr pid v ws s :
  pr ∉ ws → awaited pr pid s →
  awaited pr pid (foldl (λ st w, settle w v st) s ws).
Proof.
  intros Hw Hs. pose proof Hs as (Hp & Hl & Ht & Hv).
  pose proof (settle_all_frame v ws s) as H. cbv zeta in H.
  eapply awaited_frame; [exact Hs|..].
  - rewrite Hp. by apply settle_all_other.
  - by rw_conj H.
  - by rw_conj H.
  - by rw_conj H.
Qed.

Lemma settle_all_resolves pr v ws s :
  v ≠ Pending → pr ∈ ws → promises s !! pr = Some Pending →
  promises (foldl (λ st w, settle w v st) s ws) !! pr = Some v.
Proof.
  intros Hv. revert s. induction ws as [|w ws IH]; intros s Hw Hp; simpl.
  { by apply elem_of_nil in Hw. }
  destruct (decide (pr = w)) as [->|Hne].
  - apply (settle_all_keeps v ws (settle w v s) w v); [|done].
    by rewrite settle_lookup, Hp, decide_True.
  - apply elem_of_cons in Hw as [?|Hw]; [done|]. apply IH; [done|].
    by apply settle_other.
Qed.

(** The exit of another process, or of a process that has exited. *)
Lemma awaited_deliver_exit_other pr pid q code sg s :
  q ≠ pid ∨ alive q s = false →
  awaited pr pid s → awaited pr pid (deliver_exit q code sg s).
Proof.
  intros Hq Hs. unfold deliver_exit. unfold alive in Hq.
  destruct (procs s !! q) as [p|] eqn:Hp; [|done].
  destruct (p_alive p) eqn:Ha; [|done].
  destruct Hq as [Hq|?]; [|done].
  pose proof Hs as (Hpr & Hl & Ht & Hv).
  assert (Hw : pr ∉ p_exit_waiters p).
  { intros Hin. destruct Hv as [_ Hu]. by apply Hq, (Hu q p). }
  apply awaited_settle_all; [done|]. apply awaited_on_exit.
  unfold awaited. frames. split_and!; try done.
  unfold update_proc. rewrite Hp. simpl.
  by eapply waits_on_insert.
Qed.

(** The exit of the process that is waited for. *)
Lemma awaited_deliver_exit_self pr pid code sg s :
  awaited pr pid s →
  let s' := deliver_exit pid code sg s in
  (∃ p, procs s' !! pid = Some p ∧ p_alive p = false) ∧
  promises s' !! pr = Some (Resolved VUndefined).
Proof.
  intros (Hpr & Hl & Ht & (p & Hp & Ha & Hw) & Hu). cbv zeta.
  unfold deliver_exit. rewrite Hp, Ha.
  set (s1 := update_proc pid (proc_set_p_alive false) s).
  assert (H1 : procs s1 !! pid = Some (proc_set_p_alive false p)).
  { unfold s1. by rewrite update_proc_lookup, decide_True, Hp. }
  assert (G : grows s1 (foldl (λ st w, settle w (Resolved VUndefined) st)
                          (on_exit code sg s1) (p_exit_waiters p))).
  { eapply grows_trans; [apply grows_on_exit|apply grows_settle_all]. }
  split.
  - destruct G as (_ & _ & _ & _ & _ & G).
    destruct (G pid _ H1) as (p' & Hp' & _ & _ & _ & _ & Hd).
    exists p'. split; [done|]. by apply Hd.
  - apply settle_all_resolves; [done|done|].
    unfold on_exit. cbn [set_uri]. destruct (negb _); [by unfold s1; frames|].
    case_bool_decide; unfold s1; by frames.
Qed.

Lemma awaited_fire_timer pr pid s t :
  t_action t ≠ StartupTimeout pr → awaited pr pid s → awaited pr pid (fire_timer s t).
Proof.
  intros Hne Hs. pose proof Hs as (Hp & Hl & Ht & Hv).
  pose proof (fire_timer_frame s t) as H.
  eapply awaited_frame; [exact Hs|..].
  - rewrite Hp. by apply fire_timer_abandoned.
  - by rw_conj H.
  - by rw_conj H.
  - by apply fire_timer_fmap.
Qed.

Lemma awaited_fold_fire pr pid ts s :
  Forall (λ t, t_action t ≠ StartupTimeout pr) ts →
  awaited pr pid s → awaited pr pid (foldl fire_timer s ts).
Proof.
  revert s. induction ts as [|t ts IH]; intros s Hts Hs; simpl; [done|].
  apply Forall_cons in Hts as [Ht Hts]. by apply IH, awaited_fire_timer.
Qed.

Lemma awaited_advance pr pid dt s : awaited pr pid s → awaited pr pid (advance dt s).
Proof.
  intros Hs. pose proof Hs as (Hp & Hl & Ht & Hv). unfold advance. cbv zeta.
  apply awaited_fold_fire; [by apply clear_only_filter|].
  eapply awaited_frame; [exact Hs|simpl..]; try done.
  by apply clear_only_filter.
Qed.

Lemma awaited_start pr pid s : awaited pr pid s → awaited pr pid (start s).2.
Proof.
  intros Hs. pose proof (awaited_lt _ _ _ Hs) as Hlt.
  unfold start. destruct (running (this s)); cbn [snd]; [done|].
  set (s1 := spawnChild _).
  assert (H1 : awaited pr pid s1).
  { apply awaited_spawnChild. eapply awaited_frame; [exact Hs|try done..].
    by destruct Hs as (_ & _ & ? & _). }
  assert (Hl1 : length (promises s1) = length (promises s)) by (unfold s1; by frames).
  destruct H1 as (A & B & C & D). unfold awaited. frames. simpl.
  split_and!; try done.
  - by apply lookup_app_l_Some.
  - rewrite fmap_app. intros [?|Hin]%elem_of_app; [done|].
    apply list_elem_of_singleton in Hin. simpl in Hin. lia.
  - apply Forall_app. split; [done|]. apply Forall_singleton. simpl.
    intros [= ?]. lia.
Qed.

Lemma awaited_stop pr pid s : awaited pr pid s → awaited pr pid (stop s).2.
Proof.
  intros Hs. pose proof (awaited_lt _ _ _ Hs) as Hlt.
  pose proof Hs as (Hp & Hl & Ht & Hv).
  unfold stop. destruct (child (this s)) as [| |k]; cbn [snd]; [|done|].
  - eapply awaited_frame; [exact Hs|simpl; try done..]. by apply lookup_app_l.
  - unfold awaited. frames. split_and!; try done.
    + by apply lookup_app_l_Some.
    + apply (waits_on_view pr pid
               (procs (update_proc k
                  (λ p, proc_set_p_exit_waiters
                          (p_exit_waiters p ++ [length (promises s)]) p)
                  (set_promises (promises s ++ [Pending])
                     (set_this (eng_set_running false (eng_set_child CNull (this s))) s))))).
      { by apply kill_fmap. }
      unfold update_proc. simpl. destruct (procs s !! k) as [p|] eqn:Hk; [|done].
      simpl. eapply waits_on_insert; try done. simpl. split.
      * intros [?|Hin]%elem_of_app; [done|].
        apply list_elem_of_singleton in Hin. lia.
      * intros ?. apply elem_of_app. by left.
Qed.

Lemma stop_promise_advance pr pid dt s :
  stop_promise pr pid s → stop_promise pr pid (advance dt s).
Proof.
  intros [Hs|((p & Hp & Ha) & Hr)]; [left; by apply awaited_advance|right].
  split.
  - destruct (grows_advance dt s) as (_ & _ & _ & _ & _ & G).
    destruct (G pid p Hp) as (p' & Hp' & _ & _ & _ & _ & Hd). eauto.
  - by apply (advance_keeps dt s pr).
Qed.

Lemma stop_promise_handle pr pid ev s :
  stop_promise pr pid s → stop_promise pr pid (handle ev s).
Proof.
  intros [Hs|((p & Hp & Ha) & Hr)].
  - destruct ev as [| |k r|k b|k code sg]; cbn [handle].
    + left. by apply awaited_start.
    + left. by apply awaited_stop.
    + left. destruct (spawned k s); [|done]. by apply awaited_on_log.
    + left. destruct (spawned k s); [|done]. eapply awaited_frame; [exact Hs|try done..].
      by destruct Hs as (_ & _ & ? & _).
    + destruct (decide (k = pid)) as [->|Hne].
      * right. by apply awaited_deliver_exit_self.
      * left. apply awaited_deliver_exit_other; [by left|done].
  - right. split.
    + destruct (grows_handle ev s) as (_ & _ & _ & _ & _ & G).
      destruct (G pid p Hp) as (p' & Hp' & _ & _ & _ & _ & Hd). eauto.
    + by apply (handle_keeps ev s pr).
Qed.

Lemma stop_promise_run pr pid tr s :
  stop_promise pr pid s → stop_promise pr pid (run tr s).
Proof.
  revert s. induction tr as [|e tr IH]; intros s Hs; [done|].
  cbn [run foldl]. apply IH. unfold step.
  by apply stop_promise_handle, stop_promise_advance.
Qed.

Lemma stop_promise_lookup pr pid s :
  stop_promise pr pid s →
  promises s !! pr = Some (if alive pid s then Pending else Resolved VUndefined).
Proof.
  unfold alive.
  intros [(Hp & _ & _ & (p & -> & -> & _) & _)|((p & -> & ->) & Hr)]; done.
Qed.

(** What [stop()] does when [this.child] is a live process. *)
Lemma stop_awaited pid s :
  refs_ok s → child (this s) = CHandle pid → alive pid s = true →
  awaited (length (promises s)) pid (stop s).2.
Proof.
  intros (R1 & R2 & R3) Hc Ha. unfold stop. rewrite Hc. cbn [snd].
  unfold alive in Ha. destruct (procs s !! pid) as [p|] eqn:Hp; [|done].
  unfold awaited. frames. split_and!.
  - apply lookup_snoc.
  - intros Hin. apply list_elem_of_fmap in Hin as (l & Heq & Hin).
    rewrite Forall_forall in R1. specialize (R1 l Hin). simpl in R1. lia.
  - eapply Forall_impl; [exact R2|]. simpl. intros t Ht Heq.
    specialize (Ht _ Heq). lia.
  - set (pr := length (promises s)).
    assert (W : waits_on pr pid
                  (<[pid := proc_set_p_exit_waiters (p_exit_waiters p ++ [pr]) p]>
                     (procs s))).
    { split.
      - eexists. rewrite list_lookup_insert_eq by (by eapply lookup_lt_Some).
        split; [done|]. simpl. split; [done|]. apply elem_of_app. right. by left.
      - intros q x Hq Hax Hwx. destruct (decide (q = pid)) as [|Hne]; [done|].
        rewrite list_lookup_insert_ne in Hq by done.
        rewrite Forall_lookup in R3. specialize (R3 q x Hq).
        rewrite Forall_forall in R3. specialize (R3 pr Hwx). unfold pr in R3. lia. }
    eapply waits_on_view; [|exact W].
    rewrite kill_fmap by done. unfold update_proc. simpl. by rewrite Hp.
Qed.

(** X14. [stop()] in a state the engine can reach, with [this.child] a
    live process: the call returns a new pending promise, sets [running] to
    false and [this.child] to null, and sends SIGTERM to the process,
    spawning nothing; a second [stop()] throws and changes nothing. From
    then on, whatever happens, the promise is pending as long as the
    process lives and is resolved with [undefined] once its exit event has
    been delivered; and unless [start()] is called again, nothing is
    spawned, not even when the process exits. *)
Theorem stop_live_child (host : Host) (sc : SideloadConfig) (h0 : Heap)
    (s0 : State) (tr0 : list (N * Event)) (pid : nat) :
  construct host sc h0 = Constructed s0 →
  let s := run tr0 s0 in
  child (this s) = CHandle pid → alive pid s = true →
  let pr := length (promises s) in
  let s1 := (stop s).2 in
  (stop s).1 = Return pr ∧
  running (this s1) = false ∧ child (this s1) = CNull ∧
  field_at p_signals pid s1 = (λ sg, sg ++ [SIGTERM]) <$> field_at p_signals pid s ∧
  length (procs s1) = length (procs s) ∧
  stop s1 = (Throw "No engine instance running...", s1) ∧
  ∀ tr, let s2 := run tr s1 in
    promises s2 !! pr = Some (if alive pid s2 then Pending else Resolved VUndefined) ∧
    (Forall (λ e, not_start e.2 = true) tr →
     running (this s2) = false ∧ length (procs s2) = length (procs s)).
Proof.
  intros Hc s Hch Ha pr s1.
  assert (Hr : refs_ok s) by (by eapply refs_ok_run, refs_ok_constructed).
  pose proof (stop_awaited pid s Hr Hch Ha) as Hw. fold pr s1 in Hw.
  assert (H1 : running (this s1) = false ∧ child (this s1) = CNull).
  { unfold s1, stop. rewrite Hch. cbn [snd]. by frames. }
  destruct H1 as [Hr1 Hc1].
  assert (Hl1 : length (procs s1) = length (procs s)) by apply stop_procs_length.
  split_and!; try done.
  - unfold stop. by rewrite Hch.
  - unfold s1, stop, field_at. rewrite Hch. cbn [snd]. unfold kill.
    rewrite update_proc_lookup, decide_True by done.
    rewrite update_proc_lookup, decide_True by done. simpl.
    unfold alive in Ha. destruct (procs s !! pid) as [p|]; [|done]. simpl.
    by rewrite Ha.
  - unfold stop. by rewrite Hc1.
  - intros tr s2. split.
    + apply stop_promise_lookup, stop_promise_run. by left.
    + intros Htr. destruct (run_stopped tr s1 Hr1 Htr) as (? & Hl & _).
      split; [done|]. unfold s2. by rewrite Hl.
Qed.

(** * Addresses and ports *)

(** ** Decimal numerals *)

Lemma uint_val_acc d (a : positive) :
  uint_val d (Z.pos a) = Z.pos (Pos.of_uint_acc d a).
Proof.
  revert a. induction d; intros a; simpl; try done.
  all: match goal with
       | |- uint_val _ ?x = Z.pos (Pos.of_uint_acc _ ?y) =>
           replace x with (Z.pos y) by lia; apply IHd
       end.
Qed.

Lemma uint_val_of_uint d : uint_val d 0 = Z.of_N (Pos.of_uint d).
Proof.
  induction d; cbn [uint_val Pos.of_uint]; try done.
  all: match goal with
       | |- uint_val _ ?x = Z.of_N (N.pos (Pos.of_uint_acc _ ?y)) =>
           change x with (Z.pos y); apply uint_val_acc
       end.
Qed.

Lemma digits_prefix_numeral d a :
  digits_prefix (NilEmpty.string_of_uint d) (Some a) = Some (uint_val d a).
Proof. revert a. induction d; intros a; simpl; try done; apply IHd. Qed.

Lemma all_digits_numeral d : all_digits (NilEmpty.string_of_uint d) = true.
Proof. induction d; simpl; done. Qed.

Lemma numeral_no_colon d : string_forall (λ c, negb (Ascii.eqb c ":")) (NilEmpty.string_of_uint d) = true.
Proof. induction d; simpl; done. Qed.

Lemma numeral_host_chars d :
  string_forall (λ c, negb (ascii_in non_host_chars c)) (NilEmpty.string_of_uint d) = true.
Proof. induction d; simpl; done. Qed.

(** The numeral of a natural number: its digits, and what [parseInt] reads. *)
Lemma numeral_of_nonneg n :
  (0 ≤ n)%Z →
  ∃ d, num_to_string (Num n) = NilEmpty.string_of_uint d ∧ d ≠ Decimal.Nil ∧
       uint_val d 0 = n.
Proof.
  intros Hn. destruct n as [|p|p]; [| |lia].
  - by exists (Decimal.D0 Decimal.Nil).
  - exists (Pos.to_uint p). split_and!.
    + simpl. unfold NilZero.string_of_uint.
      pose proof (Unsigned.to_uint_nonnil p).
      by destruct (Pos.to_uint p).
    + apply Unsigned.to_uint_nonnil.
    + by rewrite uint_val_of_uint, Unsigned.of_to.
Qed.

Lemma parseInt10_numeral d :
  d ≠ Decimal.Nil → parseInt10 (NilEmpty.string_of_uint d) = Num (uint_val d 0).
Proof.
  intros Hd. destruct d; [done|..].
  all: cbn [NilEmpty.string_of_uint uint_val].
  all: match goal with
       | |- parseInt10 (String _ ?r) = Num (uint_val _ ?a) =>
           transitivity (match digits_prefix r (Some a) with
                         | Some v => Num v
                         | None => NaN
                         end);
           [reflexivity|by rewrite digits_prefix_numeral]
       end.
Qed.

(** [parseInt(String(n), 10)] is [n]. *)
Lemma parseInt10_decimal z : parseInt10 (num_to_string (Num z)) = Num z.
Proof.
  destruct z as [|p|p]; [done| |].
  - destruct (numeral_of_nonneg (Z.pos p)) as (d & -> & Hd & Hv); [lia|].
    by rewrite parseInt10_numeral, Hv.
  - destruct (numeral_of_nonneg (Z.pos p)) as (d & Hs & Hd & Hv); [lia|].
    assert (E : num_to_string (Num (Z.neg p)) = String "-" (NilEmpty.string_of_uint d)).
    { simpl in *. by rewrite Hs. }
    rewrite E. destruct d; [done|..].
    all: cbn [NilEmpty.string_of_uint uint_val] in *.
    all: match goal with
         | H : uint_val _ ?a = _ |- parseInt10 (String _ (String _ ?r)) = _ =>
             transitivity (match digits_prefix r (Some a) with
                           | Some v => Num (- v)
                           | None => NaN
                           end);
             [reflexivity|rewrite digits_prefix_numeral, H; done]
         end.
Qed.

(** ** Strings *)

Lemma append_cons c s t : String c s +:+ t = String c (s +:+ t).
Proof. reflexivity. Qed.

Lemma append_empty_l s : "" +:+ s = s.
Proof. reflexivity. Qed.

Lemma append_empty_r s : s +:+ "" = s.
Proof. induction s as [|c s IH]; [done|]. by rewrite append_cons, IH. Qed.

Lemma append_assoc (s t u : string) : (s +:+ t) +:+ u = s +:+ (t +:+ u).
Proof. induction s as [|c s IH]; [done|]. by rewrite !append_cons, IH. Qed.

Lemma rev_app_append s t a :
  String.rev_app (s +:+ t) a = String.rev_app t (String.rev_app s a).
Proof.
  revert a. induction s as [|c s IH]; intros a; [done|].
  rewrite append_cons. simpl. apply IH.
Qed.

Lemma rev_app_twice s a b :
  String.rev_app (String.rev_app s a) b = String.rev_app a (s +:+ b).
Proof.
  revert a b. induction s as [|c s IH]; intros a b; [done|].
  simpl. by rewrite IH.
Qed.

Lemma string_snoc s : s ≠ "" → ∃ s' c, s = s' +:+ String c "".
Proof.
  induction s as [|c s IH]; intros Hs; [done|].
  destruct s as [|c' s].
  - by exists "", c.
  - destruct IH as (s' & d & E); [done|]. exists (String c s'), d.
    by rewrite append_cons, <- E.
Qed.

Lemma string_forall_append P s t :
  string_forall P (s +:+ t) = string_forall P s && string_forall P t.
Proof.
  induction s as [|c s IH]; [done|]. rewrite append_cons. simpl.
  rewrite IH. by destruct (P c).
Qed.

Lemma string_forall_impl (P Q : ascii → bool) s :
  (∀ c, P c = true → Q c = true) →
  string_forall P s = true → string_forall Q s = true.
Proof.
  intros H. induction s as [|c s IH]; simpl; [done|].
  intros [Hc Hs]%andb_true_iff. by rewrite (H c Hc), IH.
Qed.

(** A string with no white space at its ends is its own [trim]. *)
Lemma trim_ends c s d :
  is_js_space c = false → is_js_space d = false →
  trim (String c (s +:+ String d "")) = String c (s +:+ String d "").
Proof.
  intros Hc Hd. unfold trim. cbn [skip_ws]. rewrite Hc.
  unfold String.rev. cbn [String.rev_app]. rewrite rev_app_append.
  cbn [String.rev_app skip_ws]. rewrite Hd. cbn [String.rev_app].
  by rewrite rev_app_twice.
Qed.

Lemma take_until_all p s :
  string_forall (λ c, negb (p c)) s = true → take_until p s = s.
Proof.
  induction s as [|c s IH]; simpl; [done|].
  intros [Hc Hs]%andb_true_iff. apply negb_true_iff in Hc. rewrite Hc.
  by rewrite IH.
Qed.

Lemma after_last_none a s :
  string_forall (λ c, negb (Ascii.eqb c a)) s = true → after_last a s = None.
Proof.
  induction s as [|c s IH]; simpl; [done|].
  intros [Hc Hs]%andb_true_iff. apply negb_true_iff in Hc. by rewrite IH, Hc.
Qed.

Lemma after_last_append a x y :
  after_last a (x +:+ y) =
  match after_last a y with
  | Some t => Some t
  | None => (λ t, t +:+ y) <$> after_last a x
  end.
Proof.
  induction x as [|c x IH].
  - rewrite append_empty_l. simpl. by destruct (after_last a y).
  - rewrite append_cons. simpl. rewrite IH. destruct (after_last a y) as [t|]; [done|].
    destruct (after_last a x) as [t|]; simpl; [done|].
    by destruct (Ascii.eqb c a).
Qed.

Lemma after_last_forall P a s t :
  after_last a s = Some t → string_forall P s = true → string_forall P t = true.
Proof.
  revert t. induction s as [|c s IH]; intros t; simpl; [done|].
  intros H [Hc Hs]%andb_true_iff. destruct (after_last a s) as [t'|].
  - simplify_eq. by apply IH.
  - destruct (Ascii.eqb c a); by simplify_eq.
Qed.

(** ** The port of [http://] followed by an address *)

Lemma host_char_spec c :
  host_char c = true →
  ascii_in non_host_chars c = false ∧ ascii_in host_ending_chars c = false ∧
  Ascii.eqb c ":" = false ∧ is_js_space c = false.
Proof.
  unfold host_char. intros [[H1 H2]%andb_true_iff H3]%andb_true_iff.
  apply negb_true_iff in H1, H2, H3. split_and!; try done.
  revert H1. unfold ascii_in, non_host_chars, host_ending_chars. simpl.
  intros H. repeat (apply orb_false_iff in H as [? H]).
  repeat (apply orb_false_iff; split); done.
Qed.

Lemma numeral_tail d :
  d ≠ Decimal.Nil →
  ∃ s c, NilEmpty.string_of_uint d = s +:+ String c "" ∧ is_js_space c = false.
Proof.
  intros Hd.
  destruct (string_snoc (NilEmpty.string_of_uint d)) as (s & c & E).
  { by destruct d. }
  exists s, c. split; [done|].
  pose proof (all_digits_numeral d) as Ha. rewrite E in Ha.
  assert (Hc : is_digit c = true).
  { clear E. induction s as [|x s IH]; simpl in Ha.
    - by apply andb_true_iff in Ha as [? _].
    - apply andb_true_iff in Ha as [_ Ha]. by apply IH. }
  revert Hc. unfold is_digit, is_js_space. cbv zeta.
  generalize (nat_of_ascii c). intros n [H1 H2]%andb_true_iff.
  apply Nat.leb_le in H1, H2.
  apply orb_false_iff. split.
  - apply Nat.eqb_neq. lia.
  - apply andb_false_iff. right. apply Nat.leb_gt. lia.
Qed.

(** The host part of [http://] followed by an address made of host
    characters and, possibly, a colon and a numeral. *)
Lemma url_host_address hst tl :
  string_forall host_char hst = true →
  tl = "" ∨ (∃ d, d ≠ Decimal.Nil ∧ tl = String ":" (NilEmpty.string_of_uint d)) →
  ∃ hst', string_forall host_char hst' = true ∧
          url_host ("http://" +:+ hst +:+ tl) = Some (hst' +:+ tl).
Proof.
  intros Hh Htl.
  assert (Hsp : ∀ P, (∀ c, host_char c = true → P c = true) →
                     P ":"%char = true →
                     (∀ d, string_forall P (NilEmpty.string_of_uint d) = true) →
                     string_forall P tl = true).
  { intros P HP Hc Hd. destruct Htl as [->|(d & _ & ->)]; [done|].
    simpl. by rewrite Hc, Hd. }
  assert (Htrim : trim ("http://" +:+ hst +:+ tl) = "http://" +:+ hst +:+ tl).
  { destruct Htl as [->|(d & Hd & ->)].
    - rewrite append_empty_r. destruct (decide (hst = "")) as [->|Hne]; [done|].
      destruct (string_snoc hst Hne) as (s & c & ->).
      rewrite string_forall_append in Hh. apply andb_true_iff in Hh as [_ Hc].
      simpl in Hc. apply andb_true_iff in Hc as [Hc _].
      apply host_char_spec in Hc as (_ & _ & _ & Hc).
      change ("http://" +:+ s +:+ String c "")
        with (String "h" ("ttp://" +:+ s +:+ String c "")).
      rewrite <- append_assoc. by apply trim_ends.
    - destruct (numeral_tail d Hd) as (s & c & E & Hc). rewrite E.
      change ("http://" +:+ hst +:+ String ":" (s +:+ String c ""))
        with (String "h" ("ttp://" +:+ hst +:+ String ":" s +:+ String c "")).
      replace ("ttp://" +:+ hst +:+ String ":" s +:+ String c "")
        with (("ttp://" +:+ hst +:+ String ":" s) +:+ String c "").
      + by apply trim_ends.
      + by rewrite !append_assoc. }
  unfold url_host. rewrite Htrim.
  change (strip_prefix "http://" ("http://" +:+ hst +:+ tl)) with (Some (hst +:+ tl)).
  cbn [mbind option_bind].
  assert (Hend : string_forall (λ c, negb (ascii_in host_ending_chars c)) (hst +:+ tl) = true).
  { rewrite string_forall_append. apply andb_true_iff. split.
    - eapply string_forall_impl; [|exact Hh]. intros c Hc.
      apply host_char_spec in Hc as (_ & -> & _). done.
    - apply Hsp; [|done|].
      + intros c Hc. apply host_char_spec in Hc as (_ & -> & _). done.
      + intros d. eapply string_forall_impl; [|apply numeral_host_chars].
        intros c Hc. apply negb_true_iff in Hc. apply negb_true_iff.
        revert Hc. unfold ascii_in, non_host_chars, host_ending_chars. simpl.
        intros H. repeat (apply orb_false_iff in H as [? H]).
        repeat (apply orb_false_iff; split); done. }
  rewrite (take_until_all _ _ Hend).
  assert (Hat : after_last "@" tl = None).
  { apply after_last_none. destruct Htl as [->|(d & _ & ->)]; [done|].
    simpl. clear. induction d; simpl; done. }
  rewrite after_last_append, Hat.
  set (hst' := default hst (after_last "@" hst)).
  assert (Hh' : string_forall host_char hst' = true).
  { unfold hst'. destruct (after_last "@" hst) as [t|] eqn:Et; [|done].
    by eapply after_last_forall. }
  assert (E : default (hst +:+ tl) ((λ t, t +:+ tl) <$> after_last "@" hst)
              = hst' +:+ tl).
  { unfold hst'. by destruct (after_last "@" hst). }
  rewrite E. exists hst'. split; [done|]. f_equal. apply take_until_all.
  rewrite string_forall_append. apply andb_true_iff. split.
  - eapply string_forall_impl; [|exact Hh']. intros c Hc.
    apply host_char_spec in Hc as (-> & _). done.
  - apply Hsp; [|done|apply numeral_host_chars].
    intros c Hc. apply host_char_spec in Hc as (-> & _). done.
Qed.

Lemma host_no_colon hst :
  string_forall host_char hst = true → after_last ":" hst = None.
Proof.
  intros H. apply after_last_none. eapply string_forall_impl; [|exact H].
  intros c Hc. apply host_char_spec in Hc as (_ & _ & -> & _). done.
Qed.

(** [url.parse('http://' + host + ':' + n).port] is the numeral of [n]. *)
Lemma url_port_numeral hst n :
  string_forall host_char hst = true → (0 ≤ n)%Z →
  url_port ("http://" +:+ hst +:+ ":" +:+ num_to_string (Num n))
  = Some (num_to_string (Num n)).
Proof.
  intros Hh Hn. destruct (numeral_of_nonneg n Hn) as (d & -> & Hd & _).
  destruct (url_host_address hst (String ":" (NilEmpty.string_of_uint d)) Hh)
    as (hst' & Hh' & E); [right; by exists d|].
  unfold url_port.
  change (":" +:+ NilEmpty.string_of_uint d) with (String ":" (NilEmpty.string_of_uint d)).
  rewrite E. cbn [mbind option_bind].
  rewrite after_last_append. cbn [after_last].
  rewrite (after_last_none ":" (NilEmpty.string_of_uint d)) by apply numeral_no_colon.
  change (Ascii.eqb ":" ":") with true. cbn [mbind option_bind].
  rewrite all_digits_numeral. by destruct d.
Qed.

(** Without a colon there is no port. *)
Lemma url_port_none hst :
  string_forall host_char hst = true → url_port ("http://" +:+ hst) = None.
Proof.
  intros Hh. destruct (url_host_address hst "" Hh) as (hst' & Hh' & E); [by left|].
  rewrite !append_empty_r in E. unfold url_port. rewrite E.
  cbn [mbind option_bind]. by rewrite host_no_colon.
Qed.

(** X15. The start-up record settles the promise of [start()] by the
    address it carries. For an address made of a host, a colon and the
    decimal numeral of a number below 2^53 (up to there the number that
    [parseInt] returns is the one the numeral denotes), the promise is
    resolved with that number;
    for an address without a colon, or a record without address, no port
    is found and the promise is rejected with ['unknown url']. *)
Theorem start_settles_by_address (s : State) (pid : nat) (r : LogRecord)
    (tid pr : nat) :
  alive pid s = true → is_ready r = true →
  (tid, pr) ∈ start_listeners s → promises s !! pr = Some Pending →
  let s' := handle (StdoutRecord pid r) s in
  (∀ hst n, address r = Some (hst +:+ ":" +:+ num_to_string (Num n)) →
            string_forall host_char hst = true → (0 ≤ n < 2 ^ 53)%Z →
            promises s' !! pr = Some (Resolved (VNum (Num n)))) ∧
  (∀ hst, address r = Some hst → string_forall host_char hst = true →
          promises s' !! pr = Some (Rejected (VStr "unknown url"))) ∧
  (address r = None →
   promises s' !! pr = Some (Rejected (VStr "unknown url"))).
Proof.
  intros Ha Hr Hl Hp. cbv zeta. cbn [handle]. rewrite (alive_spawned _ _ Ha).
  rewrite on_log_promises, Hr. unfold emit_start.
  assert (E1 : ∀ u, promises (set_uri u s) = promises s) by done.
  assert (E2 : ∀ u, start_listeners (set_uri u s) = start_listeners s) by done.
  rewrite fold_listeners_promise, E1, E2, Hp, bool_decide_eq_true_2.
  2: { apply list_elem_of_fmap. by exists (tid, pr). }
  rewrite uri_set_uri. unfold start_outcome. split_and!.
  - intros hst n -> Hh [Hn _]. cbn [show_field].
    by rewrite url_port_numeral, parseInt10_decimal.
  - intros hst -> Hh. cbn [show_field]. by rewrite url_port_none.
  - by intros ->.
Qed.

(** * The order among due timers

    [advance] fires the due timers in the order in which they were set.  Node
    keeps one list per delay and may run them in another order; the actions
    of this program commute, so the order does not matter. *)

Lemma alter_absent {A} (f : A → A) (l : list A) i :
  l !! i = None → alter f i l = l.
Proof.
  revert i. induction l as [|a l IH]; intros [|i] E; simplify_eq/=; try done.
  f_equal. by apply IH.
Qed.

Lemma alter_present {A} (f : A → A) (l : list A) i x :
  l !! i = Some x → alter f i l = <[i := f x]> l.
Proof.
  intros E. rewrite list_insert_alter. apply list_alter_ext; [|done].
  intros y Hy. by simplify_eq.
Qed.

Lemma update_proc_alter pid f s :
  update_proc pid f s = set_procs (alter f pid (procs s)) s.
Proof.
  unfold update_proc. destruct s as [e h n ps ts nt ls prs ee cl ce]; simpl.
  destruct (ps !! pid) as [p|] eqn:E.
  - by rewrite (alter_present _ _ _ _ E).
  - by rewrite (alter_absent _ _ _ E).
Qed.

Lemma settle_alter pr v s :
  settle pr v s = set_promises (settle_in pr v (promises s)) s.
Proof.
  unfold settle, settle_in. destruct s as [e h n ps ts nt ls prs ee cl ce]; simpl.
  destruct (prs !! pr) as [x|] eqn:E.
  - rewrite (alter_present _ _ _ _ E).
    destruct x; try done; by rewrite list_insert_id.
  - by rewrite (alter_absent _ _ _ E).
Qed.

Lemma settle_in_comm a b v l :
  settle_in a v (settle_in b v l) = settle_in b v (settle_in a v l).
Proof.
  unfold settle_in. destruct (decide (a = b)) as [->|Hab]; [done|].
  by apply list_alter_alter_ne.
Qed.

Lemma fire_timer_alter s t :
  fire_timer s t =
  match t_action t with
  | StartupTimeout pr =>
      let ps :=
        match child (this s) with
        | CHandle pid =>
            alter (fun p => if p_alive p
                            then proc_set_p_signals (p_signals p ++ [SIGKILL]) p
                            else p) pid (procs s)
        | _ => procs s
        end in
      let c := match child (this s) with CHandle _ => CNull | c => c end in
      set_promises (settle_in pr (Rejected (VError "timed out")) (promises s))
        (set_procs ps
           (set_this (eng_set_child c (eng_set_running false (this s))) s))
  | ClearFilter pid =>
      set_procs (alter (proc_set_p_filter FltNull) pid (procs s)) s
  end.
Proof.
  unfold fire_timer. destruct (t_action t) as [pr|pid].
  - cbv zeta. rewrite settle_alter.
    destruct s as [[ch gp bn ec mp rn st op fp] h n ps ts nt ls prs ee cl ce]; simpl.
    destruct ch; try done.
    unfold kill. rewrite update_proc_alter. done.
  - apply update_proc_alter.
Qed.

Lemma fire_timer_comm s t1 t2 :
  fire_timer (fire_timer s t1) t2 = fire_timer (fire_timer s t2) t1.
Proof.
  rewrite !fire_timer_alter.
  destruct s as [[ch gp bn ec mp rn st op fp] h n ps ts nt ls prs ee cl ce].
  destruct (t_action t1) as [a|p], (t_action t2) as [b|q]; simpl.
  - destruct ch; simpl; by rewrite settle_in_comm.
  - destruct ch as [| |pid]; simpl; try done.
    f_equal.
    destruct (decide (q = pid)) as [->|Hne].
    + rewrite !list_alter_alter_eq. apply list_alter_ext; [|done].
      intros [[] ? ? ? ? ?] _; done.
    + by apply list_alter_alter_ne.
  - destruct ch as [| |pid]; simpl; try done.
    f_equal.
    destruct (decide (p = pid)) as [->|Hne].
    + rewrite !list_alter_alter_eq. apply list_alter_ext; [|done].
      intros [[] ? ? ? ? ?] _; done.
    + symmetry. by apply list_alter_alter_ne.
  - f_equal.
    destruct (decide (p = q)) as [->|Hne]; [done|].
    symmetry. by apply list_alter_alter_ne.
Qed.

Lemma fold_fire_permutation ts ts' s :
  ts ≡ₚ ts' → foldl fire_timer s ts = foldl fire_timer s ts'.
Proof.
  intros Hp. revert s.
  induction Hp as [|t ts ts' _ IH|t1 t2 ts|ts1 ts2 ts3 _ IH1 _ IH2]; intros s.
  - done.
  - simpl. apply IH.
  - simpl. by rewrite fire_timer_comm.
  - by rewrite IH1.
Qed.

(** X16. The callbacks of the start-up timer and of the grace timers
    commute: when several timers are due at once, the state after they
    have fired does not depend on the order in which they fire. *)
Theorem firing_order_immaterial (dt : N) (s : State) (due : list Timer) :
  due ≡ₚ filter (fun tm => is_due (now s + dt)%N tm = true) (timers s) →
  advance dt s =
  foldl fire_timer
    (set_timers (filter (fun tm => is_due (now s + dt)%N tm = false) (timers s))
       (set_now (now s + dt)%N s)) due.
Proof.
  intros Hp. unfold advance. cbv zeta. symmetry.
  by apply fold_fire_permutation.
Qed.

(** * The level patterns *)

Lemma lower_ascii_idem c : lower_ascii (lower_ascii c) = lower_ascii c.
Proof. by destruct c as [[] [] [] [] [] [] [] []]. Qed.

Lemma lower_idem s : lower (lower s) = lower s.
Proof.
  induction s as [|c s IH]; simpl; [done|]. by rewrite lower_ascii_idem, IH.
Qed.

Lemma hack_filter_cases l F :
  hack_filter l = Some F →
  (F = FWarn ∧ (lower l = "warn" ∨ lower l = "warning")) ∨
  (F = FError ∧ lower l = "error") ∨ (F = FFatal ∧ lower l = "fatal").
Proof.
  unfold hack_filter. cbv zeta.
  destruct (String.eqb (lower l) "warn") eqn:E1.
  { apply String.eqb_eq in E1. intros [= <-]. left. auto. }
  destruct (String.eqb (lower l) "warning") eqn:E2.
  { apply String.eqb_eq in E2. intros [= <-]. left. auto. }
  destruct (String.eqb (lower l) "error") eqn:E3.
  { apply String.eqb_eq in E3. intros [= <-]. right. left. auto. }
  destruct (String.eqb (lower l) "fatal") eqn:E4; [|done].
  apply String.eqb_eq in E4. intros [= <-]. right. right. auto.
Qed.

Lemma filter_matches_cases F l :
  filter_matches F l = true → l ∈ ["warn"; "warning"; "error"; "fatal"].
Proof.
  intros H.
  assert (H' : filter_matches FWarn l = true).
  { destruct F; simpl in *; [done|..].
    - apply orb_true_iff in H as [->| ->]; by rewrite ?orb_true_r.
    - rewrite H. by rewrite ?orb_true_r. }
  simpl in H'. repeat (apply orb_true_iff in H' as [H'|H']).
  all: apply String.eqb_eq in H'; subst l.
  all: repeat (first [by left|right]).
Qed.

(** X17. The patterns of [spawnChild]. The requested level is matched
    without regard to case; the filter it installs lets the requested
    level itself through (in lower case), lets through everything a filter
    for a more severe level does, and lets through nothing but the levels
    warn, warning, error and fatal, spelled so. A record without level, or
    with an empty one, is printed under every filter. *)
Theorem filters_by_severity (l : string) (F : LevelFilter) (r : LogRecord) :
  hack_filter (lower l) = hack_filter l ∧
  (hack_filter l = Some F → filter_matches F (lower l) = true) ∧
  (filter_matches FFatal l = true → filter_matches FError l = true) ∧
  (filter_matches FError l = true → filter_matches FWarn l = true) ∧
  (filter_matches F l = true → l ∈ ["warn"; "warning"; "error"; "fatal"]) ∧
  (str_or (rec_level r) "" = "" → should_print (FltRegex F) r = true) ∧
  (rec_level r = Some l → l ≠ "" →
   should_print (FltRegex F) r = filter_matches F l).
Proof.
  split_and!.
  - unfold hack_filter. by rewrite lower_idem.
  - intros H. destruct (hack_filter_cases l F H)
      as [[-> [-> | ->]]|[[-> ->]|[-> ->]]]; done.
  - simpl. intros ->. by rewrite orb_true_r.
  - simpl. intros [-> | ->]%orb_true_iff; by rewrite ?orb_true_r.
  - apply filter_matches_cases.
  - unfold should_print. destruct (rec_level r) as [[|c x]|]; done.
  - intros Hr Hl. unfold should_print. rewrite Hr. by destruct l.
Qed.

(** * One child at a time *)

Lemma fire_timer_running s t :
  running (this (fire_timer s t)) = true → this (fire_timer s t) = this s.
Proof.
  unfold fire_timer. destruct (t_action t) as [pr|pid].
  - frames. by destruct (child (this s)); frames.
  - by frames.
Qed.

Lemma fold_fire_running ts s :
  running (this (foldl fire_timer s ts)) = true →
  this (foldl fire_timer s ts) = this s.
Proof.
  revert s. induction ts as [|t ts IH]; intros s Hr; simpl in *; [done|].
  rewrite (IH _ Hr). apply fire_timer_running.
  destruct (running (this (fire_timer s t))) eqn:E; [done|].
  by rewrite (fold_fire_stopped ts _ E) in Hr.
Qed.

Lemma advance_running dt s :
  running (this (advance dt s)) = true → this (advance dt s) = this s.
Proof. intros Hr. unfold advance in *. by rewrite (fold_fire_running _ _ Hr). Qed.

Lemma last_only_alive s n b pid :
  p_alive <$> procs s = replicate n false ++ [b] →
  alive pid s = true → pid = n ∧ b = true.
Proof.
  intros Hv Ha. unfold alive in Ha.
  destruct (procs s !! pid) as [p|] eqn:Hp; [|done].
  assert (H : (p_alive <$> procs s) !! pid = Some true).
  { by rewrite list_lookup_fmap, Hp, <- Ha. }
  rewrite Hv in H. apply lookup_app_Some in H as [H|[Hl H]].
  - by apply lookup_replicate in H as [? _].
  - rewrite length_replicate in *. apply list_lookup_singleton_Some in H as [? ->].
    split; [lia|done].
Qed.

Lemma last_only_eq s s' :
  last_only s → p_alive <$> procs s' = p_alive <$> procs s →
  (running (this s') = true →
   running (this s) = true ∧ child (this s') = child (this s)) →
  last_only s'.
Proof.
  intros (n & b & Hv & Hc) E H. exists n, b. rewrite E. split; [done|].
  intros Hr. destruct (H Hr) as [Hr' ->]. by apply Hc.
Qed.

Lemma last_only_advance dt s : last_only s → last_only (advance dt s).
Proof.
  intros Hs. eapply last_only_eq; [exact Hs|by apply advance_fmap|].
  intros Hr. pose proof (advance_running dt s Hr) as E. rewrite E in Hr.
  by rewrite E.
Qed.

Lemma last_only_deliver_exit pid code sg s :
  last_only s → last_only (deliver_exit pid code sg s).
Proof.
  intros Hs. pose proof Hs as (n & b & Hv & Hc).
  destruct (alive pid s) eqn:Ha; [|by rewrite deliver_exit_dead].
  destruct (last_only_alive s n b pid Hv Ha) as [-> ->].
  unfold deliver_exit. unfold alive in Ha.
  destruct (procs s !! n) as [p|] eqn:Hp; [|done]. rewrite Ha.
  set (s1 := update_proc n (proc_set_p_alive false) s).
  assert (Hl : length (procs s) = S n).
  { rewrite <- (length_fmap p_alive), Hv, length_app, length_replicate. simpl. lia. }
  assert (Hv1 : p_alive <$> procs s1 = replicate (S n) false).
  { unfold s1, update_proc. rewrite Hp. simpl. rewrite list_fmap_insert, Hv.
    simpl. rewrite insert_app_r_alt by (rewrite length_replicate; lia).
    rewrite length_replicate, Nat.sub_diag. simpl.
    change (false :: replicate n false) with (replicate (S n) false).
    by rewrite replicate_S_end. }
  assert (Ht1 : this s1 = this s) by (unfold s1; by frames).
  assert (Hl1 : length (procs s1) = S n) by (unfold s1; frames; done).
  assert (H1 : last_only (on_exit code sg s1)).
  { unfold on_exit.
    set (s2 := set_uri "" s1).
    assert (Hr2 : running (this s2) = running (this s)) by (by rewrite <- Ht1).
    assert (Hp2 : procs s2 = procs s1) by done.
    destruct (running (this s2)) eqn:Hr; cbn [negb].
    2: { exists n, false. rewrite Hp2, Hv1. split; [by rewrite replicate_S_end|].
         intros Hx. congruence. }
    case_bool_decide.
    { exists n, false. simpl. rewrite Hv1. split; [by rewrite replicate_S_end|].
      intros _. rewrite Ht1. apply Hc. congruence. }
    match goal with
    | |- last_only (spawnChild ?x) =>
        destruct (spawnChild_fmap p_alive x) as (q & Hq & Hqa & _);
        exists (S n), true; rewrite Hq, Hqa; frames
    end.
    simpl. rewrite Hv1. split; [done|]. intros _. by rewrite Hl1. }
  eapply last_only_eq; [exact H1|..].
  - by rewrite settle_all_procs.
  - by rw_frame (settle_all_frame (Resolved VUndefined) (p_exit_waiters p)
                   (on_exit code sg s1)).
Qed.

Lemma last_only_handle ev s :
  not_start ev = true → last_only s → last_only (handle ev s).
Proof.
  intros Hev Hs. destruct ev as [| |pid r|pid b|pid code sg]; cbn [handle].
  - done.
  - eapply last_only_eq; [exact Hs|by apply stop_fmap|].
    intros Hr. destruct (stop_frame s) as [E|E].
    + by rewrite E in Hr.
    + rewrite E in *. done.
  - destruct (spawned pid s); [|done].
    eapply last_only_eq; [exact Hs|by apply on_log_fmap|].
    rewrite on_log_this. by destruct (is_ready r).
  - destruct (spawned pid s); [|done]. by eapply last_only_eq.
  - by apply last_only_deliver_exit.
Qed.

Lemma last_only_run tr s :
  Forall (λ e, not_start e.2 = true) tr → last_only s → last_only (run tr s).
Proof.
  revert s. induction tr as [|e tr IH]; intros s Htr Hs; [done|].
  apply Forall_cons in Htr as [He Htr]. cbn [run foldl]. apply IH; [done|].
  unfold step. by apply last_only_handle, last_only_advance.
Qed.

(** X18. After [start()] on a new engine, and until [start()] is called
    again, the supervisor has at most one live process at any time, and
    while it is running that process is [this.child]: a replacement is
    spawned only once the exit of its predecessor has been delivered. *)
Theorem one_child_at_a_time (host : Host) (sc : SideloadConfig) (h0 : Heap)
    (s0 : State) (tr : list (N * Event)) :
  construct host sc h0 = Constructed s0 →
  Forall (λ e, not_start e.2 = true) tr →
  let s := run tr (start s0).2 in
  (∀ p q, alive p s = true → alive q s = true → p = q) ∧
  (∀ p, alive p s = true → running (this s) = true → child (this s) = CHandle p).
Proof.
  intros Hc Htr. cbv zeta.
  destruct (construct_initial _ _ _ _ Hc) as (Hp & _ & _ & _ & _ & _ & _ & _ & Hr & _).
  assert (H0 : last_only (start s0).2).
  { unfold start. rewrite Hr. cbn [snd].
    set (s1 := spawnChild (set_this (eng_set_running true (this s0)) s0)).
    destruct (spawnChild_fmap p_alive (set_this (eng_set_running true (this s0)) s0))
      as (q & Hq & Hqa & _).
    fold s1 in Hq. exists 0, true. split.
    - change (p_alive <$> procs s1 = replicate 0 false ++ [true]).
      rewrite Hq, Hqa. simpl. by rewrite Hp.
    - intros _. frames. unfold s1. frames. by rewrite Hp. }
  destruct (last_only_run tr _ Htr H0) as (n & b & Hv & Hch).
  split.
  - intros p q Ha Hb.
    destruct (last_only_alive _ n b p Hv Ha) as [-> _].
    by destruct (last_only_alive _ n b q Hv Hb) as [-> _].
  - intros p Ha Hrun. destruct (last_only_alive _ n b p Hv Ha) as [-> _].
    by apply Hch.
Qed.

(** * [start()] after [stop()] *)

Lemma alive_lookup pid s :
  alive pid s = true ↔ ∃ p, procs s !! pid = Some p ∧ p_alive p = true.
Proof.
  unfold alive. destruct (procs s !! pid) as [p|]; split.
  - intros H. by exists p.
  - by intros (? & [= <-] & ?).
  - done.
  - by intros (? & ? & _).
Qed.

Lemma alive_view pid s :
  alive pid s = default false ((p_alive <$> procs s) !! pid).
Proof. unfold alive. rewrite list_lookup_fmap. by destruct (procs s !! pid). Qed.

(** X19. [stop()] does not wait for the process to exit, and [start()]
    may be called right after it. If it is, and the stopped process exits
    afterwards with a code other than 78, the exit handler finds the
    supervisor running and takes the exit for a crash: it spawns one more
    process and makes it [this.child]. Two processes are then alive, of
    which the one spawned by [start()] is no longer referred to by the
    supervisor; the promise of [stop()] is resolved. *)
Theorem restart_before_exit (s : State) (pid : nat) (code : option Z)
    (sg : option string) :
  child (this s) = CHandle pid → alive pid s = true → code ≠ Some 78%Z →
  let n := length (procs s) in
  let pr := length (promises s) in
  let s1 := (stop s).2 in
  let s2 := (start s1).2 in
  let s3 := handle (Exit pid code sg) s2 in
  (stop s).1 = Return pr ∧ (start s1).1 = Return (S pr) ∧
  child (this s2) = CHandle n ∧
  length (procs s3) = n + 2 ∧
  alive pid s3 = false ∧ alive n s3 = true ∧ alive (S n) s3 = true ∧
  running (this s3) = true ∧ child (this s3) = CHandle (S n) ∧
  promises s3 !! pr = Some (Resolved VUndefined).
Proof.
  intros Hch Ha Hcode n pr s1 s2 s3.
  apply alive_lookup in Ha as (p & Hp & Hpa).
  assert (Hlt : pid < n) by by eapply lookup_lt_Some.
  (* stop() *)
  assert (Hstop : stop s = (Return pr, s1)).
  { unfold s1, stop. by rewrite Hch. }
  assert (Hr1 : running (this s1) = false ∧ length (promises s1) = S pr ∧
                promises s1 !! pr = Some Pending ∧ length (procs s1) = n ∧
                error_events s1 = error_events s).
  { unfold s1, stop. rewrite Hch. cbn [snd]. frames. split_and!; try done.
    - rewrite length_app. simpl. unfold pr. lia.
    - apply lookup_snoc. }
  destruct Hr1 as (Hr1 & Hl1 & Hpr1 & Hn1 & _).
  assert (Hp1 : ∃ p1, procs s1 !! pid = Some p1 ∧ p_alive p1 = true ∧
                      pr ∈ p_exit_waiters p1).
  { unfold s1, stop. rewrite Hch. cbn [snd]. unfold kill.
    rewrite update_proc_lookup, decide_True by done.
    rewrite update_proc_lookup, decide_True by done. simpl. rewrite Hp. simpl.
    rewrite Hpa. eexists. split; [done|]. simpl. split; [done|].
    apply elem_of_app. right. by left. }
  destruct Hp1 as (p1 & Hp1 & Hpa1 & Hw1).
  (* start() *)
  assert (Hstart : (start s1).1 = Return (S pr)).
  { rewrite start_return by done. by rewrite Hl1. }
  assert (H2 : running (this s2) = true ∧ child (this s2) = CHandle n ∧
               promises s2 !! pr = Some Pending ∧
               ∃ q, procs s2 = procs s1 ++ [q] ∧ p_alive q = true).
  { unfold s2, start. rewrite Hr1. cbn [snd].
    set (x := set_this (eng_set_running true (this s1)) s1).
    destruct (spawnChild_procs x) as (q & Hq & Hqa & _).
    frames. split_and!; try done.
    - unfold x. simpl. by rewrite Hn1.
    - apply lookup_app_l_Some. unfold x. by frames.
    - exists q. by rewrite Hq. }
  destruct H2 as (Hr2 & Hc2 & Hpr2 & q & Hq & Hqa).
  (* the exit of the stopped process *)
  assert (Hp2 : procs s2 !! pid = Some p1).
  { rewrite Hq. by apply lookup_app_l_Some. }
  unfold s3. cbn [handle]. unfold deliver_exit. rewrite Hp2, Hpa1.
  set (s2' := update_proc pid (proc_set_p_alive false) s2).
  assert (Hs2' : procs s2' = <[pid := proc_set_p_alive false p1]> (procs s1) ++ [q]).
  { unfold s2', update_proc. rewrite Hp2. simpl. rewrite Hq.
    by rewrite insert_app_l by lia. }
  set (s2'' := on_exit code sg s2').
  assert (H3 : running (this s2'') = true ∧ child (this s2'') = CHandle (S n) ∧
               promises s2'' = promises s2 ∧
               ∃ q', procs s2'' = procs s2' ++ [q'] ∧ p_alive q' = true).
  { unfold s2'', on_exit. cbn [set_uri].
    assert (E : negb (running (this (set_this
                  (eng_set_middlewareParams
                     {| mp_endpoint := mp_endpoint (middlewareParams (this s2'));
                        mp_psk := mp_psk (middlewareParams (this s2'));
                        mp_uri := "";
                        mp_dumpTraffic := mp_dumpTraffic (middlewareParams (this s2')) |}
                     (this s2')) s2'))) = false).
    { unfold s2'. frames. by rewrite Hr2. }
    rewrite E. rewrite bool_decide_eq_false_2 by done.
    match goal with
    | |- context [spawnChild ?x] => set (y := x)
    end.
    destruct (spawnChild_procs y) as (q' & Hq' & Hqa' & _).
    pose proof (spawnChild_frame y) as (Fth & _ & _ & _ & _ & Fpr & _).
    assert (Hy : procs y = procs s2' ∧ running (this y) = true ∧
                 promises y = promises s2).
    { unfold y, s2'. frames. by rewrite Hr2. }
    destruct Hy as (Hy1 & Hy2 & Hy3).
    rewrite Fth, Fpr, Hq', Hy1, Hy3. split_and!.
    - exact Hy2.
    - change (CHandle (length (procs s2')) = CHandle (S n)).
      rewrite Hs2', length_app, length_insert. simpl. f_equal. lia.
    - done.
    - by exists q'. }
  destruct H3 as (Hr3 & Hc3 & Hpr3 & q' & Hq' & Hqa').
  pose proof (settle_all_frame (Resolved VUndefined) (p_exit_waiters p1) s2'') as F.
  cbv zeta in F.
  set (s3' := foldl (λ st w, settle w (Resolved VUndefined) st) s2'' (p_exit_waiters p1)) in *.
  destruct F as (Ft & _ & _ & Fp & _).
  assert (Hprocs : procs s3' =
            (<[pid := proc_set_p_alive false p1]> (procs s1) ++ [q]) ++ [q']).
  { by rewrite Fp, Hq', Hs2'. }
  assert (Hli : length (<[pid := proc_set_p_alive false p1]> (procs s1)) = n).
  { by rewrite length_insert. }
  split_and!; try done.
  - by rewrite Hstop.
  - rewrite Hprocs, !length_app, Hli. simpl. lia.
  - unfold alive. rewrite Hprocs.
    rewrite lookup_app_l by (rewrite length_app, Hli; simpl; lia).
    rewrite lookup_app_l by lia.
    by rewrite list_lookup_insert_eq by lia.
  - unfold alive. rewrite Hprocs.
    rewrite lookup_app_l by (rewrite length_app, Hli; simpl; lia).
    rewrite lookup_app_r by lia. rewrite Hli, Nat.sub_diag. simpl. done.
  - unfold alive. rewrite Hprocs.
    rewrite lookup_app_r by (rewrite length_app, Hli; simpl; lia).
    rewrite length_app, Hli. simpl.
    replace (S n - (n + 1)) with 0 by lia. done.
  - by rewrite Ft.
  - by rewrite Ft.
  - apply settle_all_resolves; [done|done|]. by rewrite Hpr3.
Qed.

(** * The level a replacement is spawned with *)

Lemma get_level_eq s s' :
  heap s' = heap s → engineConfig (this s') = engineConfig (this s) →
  get_level s' = get_level s.
Proof. intros Hh Hc. unfold get_level, logging_loc. by rewrite Hh, Hc. Qed.

Section levels.
Context (s0 : State) (d0 : DocVal) (lvl : string) (F : LevelFilter).
Hypothesis Hd0 : stringify (heap s0) (engineConfig (this s0)) = Some d0.
Hypothesis HF : hack_filter lvl = Some F.

Lemma get_set_level v s : level_only s0 s → get_level (set_level v s) = v.
Proof.
  intros Hs. destruct (level_only_state s0 s d0 Hs Hd0) as (lv & _ & _ & H).
  by destruct (H v) as (_ & ? & _).
Qed.

Lemma levels_ok_eq s s' :
  levels_ok lvl s → heap s' = heap s →
  engineConfig (this s') = engineConfig (this s) →
  p_logLevel <$> procs s' = p_logLevel <$> procs s → levels_ok lvl s'.
Proof.
  intros (H1 & H2) Hh Hc Hp. unfold levels_ok.
  rewrite (get_level_eq s s') by done. split; [done|].
  cut (Forall (λ l, l = Some lvl ∨ l = Some "info") (p_logLevel <$> procs s')).
  { by rewrite Forall_fmap. }
  rewrite Hp. by rewrite Forall_fmap.
Qed.

(** What [spawnChild] makes of the level it finds. *)
Lemma spawnChild_level s :
  level_only s0 s → levels_ok lvl s →
  ∃ q, procs (spawnChild s) = procs s ++ [q] ∧
       p_stdin q = [Some (with_level (Some "info") d0)] ∧
       p_logLevel q = get_level s ∧
       p_filter q = (if bool_decide (get_level s = Some lvl)
                     then FltRegex F else FltUndefined) ∧
       get_level (spawnChild s) = Some "info".
Proof.
  intros Hlo ([Hl|Hl] & Hps).
  - rewrite (spawnChild_hacked s0 d0 s lvl F Hd0 Hlo Hl HF).
    eexists. split; [done|]. simpl. rewrite Hl.
    rewrite bool_decide_eq_true_2 by done. split_and!; try done.
    unfold spawnChild. rewrite Hl, HF, (hack_filter_truthy _ _ HF).
    rewrite (get_level_eq (set_level (Some "info") s)) by done.
    by apply get_set_level.
  - destruct (level_only_state s0 s d0 Hlo Hd0) as (lv & Hlv & Hstr & _).
    rewrite Hl in Hlv. subst lv.
    assert (Hne : lvl ≠ "info").
    { intros ->. by vm_compute in HF. }
    assert (E : spawnChild s =
      set_this (eng_set_child (CHandle (length (procs s))) (this s))
        (set_procs (procs s ++
           [ {| p_alive := true;
                p_stdin := [stringify (heap s) (engineConfig (this s))];
                p_signals := []; p_logLevel := get_level s;
                p_filter := FltUndefined; p_exit_waiters := [] |} ]) s)).
    { unfold spawnChild. by rewrite Hl. }
    rewrite E. eexists. split; [reflexivity|]. cbn [p_stdin p_logLevel p_filter].
    rewrite Hstr. rewrite bool_decide_eq_false_2 by congruence.
    by split_and!.
Qed.

Lemma levels_ok_spawnChild s :
  level_only s0 s → levels_ok lvl s → levels_ok lvl (spawnChild s).
Proof.
  intros Hlo Hs. destruct (spawnChild_level s Hlo Hs) as (q & Hq & _ & Hql & _ & Hg).
  destruct Hs as (H1 & H2). split; [by right|]. rewrite Hq.
  apply Forall_app. split; [done|]. apply Forall_singleton. by rewrite Hql.
Qed.

Lemma levels_ok_on_log pid r s :
  level_only s0 s → levels_ok lvl s → levels_ok lvl (on_log pid r s).
Proof.
  intros Hlo Hs. pose proof Hs as (H1 & H2). split.
  2: { cut (Forall (λ l, l = Some lvl ∨ l = Some "info")
              (p_logLevel <$> procs (on_log pid r s))).
       { by rewrite Forall_fmap. }
       rewrite on_log_fmap by done. by rewrite Forall_fmap. }
  unfold on_log.
  set (s1 := if is_ready r then _ else s).
  cut (get_level s1 = Some lvl ∨ get_level s1 = Some "info").
  { by destruct (should_print _ r). }
  unfold s1. destruct (is_ready r); [|done].
  set (s2 := emit_start _).
  assert (Hlo2 : level_only s0 s2).
  { apply (level_only_eq s0 s); [done|unfold s2; by frames..]. }
  assert (Hg2 : get_level s2 = get_level s).
  { apply get_level_eq; unfold s2; by frames. }
  assert (Hp2 : procs s2 = procs s) by (unfold s2; by frames).
  destruct (procs s2 !! pid) as [p|] eqn:Hp; [|by rewrite Hg2].
  destruct (p_filter p); [by rewrite Hg2..|].
  match goal with
  | |- get_level ?x = _ ∨ _ =>
      rewrite (get_level_eq (set_level (p_logLevel p) s2) x)
        by (frames; by rewrite ?stdin_write_frame)
  end.
  rewrite get_set_level by done.
  rewrite Hp2 in Hp. rewrite Forall_lookup in H2. by apply (H2 pid p).
Qed.

Lemma levels_ok_on_exit code sg s :
  level_only s0 s → levels_ok lvl s → levels_ok lvl (on_exit code sg s).
Proof.
  intros Hlo Hs. unfold on_exit. cbn [set_uri]. destruct (negb _).
  { by eapply levels_ok_eq. }
  case_bool_decide.
  { by eapply levels_ok_eq. }
  apply levels_ok_spawnChild.
  - by apply (level_only_eq s0 s).
  - by eapply levels_ok_eq.
Qed.

Lemma levels_ok_deliver_exit pid code sg s :
  level_only s0 s → levels_ok lvl s → levels_ok lvl (deliver_exit pid code sg s).
Proof.
  intros Hlo Hs. unfold deliver_exit. destruct (procs s !! pid) as [p|]; [|done].
  destruct (p_alive p); [|done].
  set (s1 := update_proc pid (proc_set_p_alive false) s).
  assert (Hlo1 : level_only s0 s1).
  { apply (level_only_eq s0 s); [done|unfold s1; by frames..]. }
  assert (H1 : levels_ok lvl s1).
  { eapply levels_ok_eq; [exact Hs|unfold s1; frames; try done..].
    by apply update_proc_fmap. }
  pose proof (levels_ok_on_exit code sg s1 Hlo1 H1) as H2.
  eapply levels_ok_eq; [exact H2|..];
    by rw_frame (settle_all_frame (Resolved VUndefined) (p_exit_waiters p)
                   (on_exit code sg s1)).
Qed.

Lemma levels_ok_handle ev s :
  level_only s0 s → levels_ok lvl s → levels_ok lvl (handle ev s).
Proof.
  intros Hlo Hs. destruct ev as [| |pid r|pid b|pid code sg]; cbn [handle].
  - unfold start. destruct (running (this s)); cbn [snd]; [done|].
    set (s1 := spawnChild _).
    assert (H1 : levels_ok lvl s1).
    { apply levels_ok_spawnChild.
      - by apply (level_only_eq s0 s).
      - by eapply levels_ok_eq. }
    eapply levels_ok_eq; [exact H1|by frames..].
  - eapply levels_ok_eq; [exact Hs|..].
    + unfold stop. destruct (child (this s)); cbn [snd]; try done. by frames.
    + unfold stop. destruct (child (this s)); cbn [snd]; try done. by frames.
    + by apply stop_fmap.
  - destruct (spawned pid s); [|done]. by apply levels_ok_on_log.
  - destruct (spawned pid s); [|done]. by eapply levels_ok_eq.
  - by apply levels_ok_deliver_exit.
Qed.

Lemma levels_ok_advance dt s : levels_ok lvl s → levels_ok lvl (advance dt s).
Proof.
  intros Hs. pose proof (advance_frame dt s) as H.
  eapply levels_ok_eq; [exact Hs|..].
  - by rw_conj H.
  - by rw_conj H.
  - by apply advance_fmap.
Qed.

Lemma levels_ok_run tr s :
  level_only s0 s → levels_ok lvl s → levels_ok lvl (run tr s).
Proof.
  revert s. induction tr as [|e tr IH]; intros s Hlo Hs; [done|].
  cbn [run foldl]. apply IH.
  - unfold step. apply (handle_level_only s0 d0 Hd0).
    by apply advance_level_only.
  - unfold step. apply levels_ok_handle.
    + by apply advance_level_only.
    + by apply levels_ok_advance.
Qed.
End levels.

(** X20. For a requested level [lvl] that [spawnChild] rewrites. The level
    of the configuration is, in every state, [lvl] or "info". A replacement
    is spawned from the configuration as it reads when its predecessor
    exits: the document written to it carries "info" in either case; when
    the level reads [lvl] (the predecessor's start-up record has restored
    it) the closure holds [lvl] and the filter, and when it reads "info"
    (no start-up record has restored it) the closure holds "info" and no
    filter, so that the start-up record of the replacement will restore
    nothing. *)
Theorem respawn_level (host : Host) (sc : SideloadConfig) (h0 : Heap)
    (s0 : State) (lvl : string) (F : LevelFilter) (tr : list (N * Event))
    (pid : nat) (code : option Z) (sg : option string) :
  construct host sc h0 = Constructed s0 →
  get_level s0 = Some lvl → hack_filter lvl = Some F →
  let s := run tr s0 in
  alive pid s = true → running (this s) = true → code ≠ Some 78%Z →
  let s' := handle (Exit pid code sg) s in
  let k := length (procs s) in
  ∃ d0, stringify (heap s0) (engineConfig (this s0)) = Some d0 ∧
    (get_level s = Some lvl ∨ get_level s = Some "info") ∧
    field_at p_stdin k s' = Some [Some (with_level (Some "info") d0)] ∧
    field_at p_logLevel k s' = Some (get_level s) ∧
    field_at p_filter k s' =
      Some (if bool_decide (get_level s = Some lvl)
            then FltRegex F else FltUndefined) ∧
    get_level s' = Some "info".
Proof.
  intros Hc Hlvl HF s Ha Hrun Hcode s' k.
  destruct (construct_initial _ _ _ _ Hc) as (Hp0 & _).
  destruct (construct_wf _ _ _ _ Hc) as (lg & g & d0 & Hlg & Hg & _ & _ & Hd0 & _).
  assert (Hlo0 : level_only s0 s0) by by apply (level_only_refl s0 lg g).
  assert (Hok0 : levels_ok lvl s0).
  { split; [by left|]. by rewrite Hp0. }
  assert (Hlo : level_only s0 s) by by apply (run_level_only s0 d0 Hd0).
  assert (Hok : levels_ok lvl s) by by apply (levels_ok_run s0 d0 lvl F Hd0 HF).
  exists d0. split; [done|]. split; [by destruct Hok|].
  unfold s'. cbn [handle]. unfold deliver_exit. unfold alive in Ha.
  destruct (procs s !! pid) as [p|] eqn:Hp; [|done]. rewrite Ha.
  set (s1 := update_proc pid (proc_set_p_alive false) s).
  unfold on_exit. cbn [set_uri].
  assert (E : negb (running (this (set_this
                (eng_set_middlewareParams
                   {| mp_endpoint := mp_endpoint (middlewareParams (this s1));
                      mp_psk := mp_psk (middlewareParams (this s1));
                      mp_uri := "";
                      mp_dumpTraffic := mp_dumpTraffic (middlewareParams (this s1)) |}
                   (this s1)) s1))) = false).
  { unfold s1. frames. by rewrite Hrun. }
  rewrite E, bool_decide_eq_false_2 by done.
  match goal with
  | |- context [spawnChild ?x] => set (y := x)
  end.
  assert (Hy : heap y = heap s ∧ engineConfig (this y) = engineConfig (this s) ∧
               length (procs y) = k ∧
               p_logLevel <$> procs y = p_logLevel <$> procs s).
  { unfold y, s1. frames. split_and!; try done. by apply update_proc_fmap. }
  destruct Hy as (Hy1 & Hy2 & Hy3 & Hy4).
  assert (Hloy : level_only s0 y) by by apply (level_only_eq s0 s).
  assert (Hoky : levels_ok lvl y) by by eapply levels_ok_eq.
  assert (Hgy : get_level y = get_level s) by by apply get_level_eq.
  destruct (spawnChild_level s0 d0 lvl F Hd0 HF y Hloy Hoky)
    as (q & Hq & Hq1 & Hq2 & Hq3 & Hq4).
  pose proof (settle_all_frame (Resolved VUndefined) (p_exit_waiters p) (spawnChild y)) as Fr.
  cbv zeta in Fr. destruct Fr as (Ft & Fh & _ & Fp & _).
  unfold field_at. rewrite Fp, Hq, <- Hy3, lookup_snoc. simpl.
  rewrite Hq1, Hq2, Hq3, Hgy. split_and!; try done.
  rewrite <- Hq4. apply get_level_eq; [done|by rewrite Ft].
Qed.

(** ** The theorems at concrete inputs *)

Lemma level_hack_witness :
  construct example_host (example_sideload example_source.1) example_source.2
    = Constructed example_engine ∧
  get_level example_engine = Some "error" ∧
  hack_filter "error" = Some FError ∧
  let s1 := (start example_engine).2 in
  let s2 := step s1 (10%N, StdoutRecord 0 (ready_record "127.0.0.1:54321")) in
  stdin_levels 0 s1 = Some [Some "info"] ∧
  stdin_levels 0 s2 = Some [Some "info"; Some "error"] ∧
  ∀ tr2, proc_filter 0 (run tr2 s2) =
         if (now (run tr2 s2) <? 1010)%N then FltRegex FError else FltNull.
Proof.
  split_and!; [reflexivity..|].
  destruct (level_hack example_host (example_sideload example_source.1)
              example_source.2 example_engine "error" FError
              example_constructed eq_refl eq_refl)
    as (d0 & g & Hd0 & Hg & Hl & H & _).
  destruct (H [] (Forall_nil_2 _)) as (Hs1 & _ & H2).
  cbv zeta. split_and!.
  - unfold stdin_levels.
    change (run [] (start example_engine).2) with (start example_engine).2 in Hs1.
    rewrite Hs1. simpl. by rewrite Hg.
  - destruct (H2 10%N (ready_record "127.0.0.1:54321") [] eq_refl eq_refl) as [Hs2 _].
    unfold stdin_levels.
    change (run [] (start example_engine).2) with (start example_engine).2 in Hs2.
    cbv zeta in Hs2. rewrite Hs2. simpl. by rewrite Hg.
  - intros tr2.
    exact (proj2 (H2 10%N (ready_record "127.0.0.1:54321") tr2 eq_refl eq_refl)).
Defined.

Lemma uri_empty_if_punctual_witness :
  construct example_host (example_sideload example_source.1) example_source.2
    = Constructed example_engine ∧
  let tr := [ (0%N, CallStart);
              (10%N, StdoutRecord 0 (ready_record "127.0.0.1:54321"));
              (10%N, CallStop);
              (5%N, Exit 0 None (Some "SIGTERM")) ] in
  let s := run tr example_engine in
  punctual tr example_engine = true ∧ (∀ pid, alive pid s = false) ∧
  uri s = "".
Proof.
  split; [reflexivity|]. cbv zeta.
  assert (Hp : punctual [ (0%N, CallStart);
                          (10%N, StdoutRecord 0 (ready_record "127.0.0.1:54321"));
                          (10%N, CallStop);
                          (5%N, Exit 0 None (Some "SIGTERM")) ] example_engine
               = true) by (vm_compute; reflexivity).
  assert (Hd : ∀ pid, alive pid
    (run [ (0%N, CallStart);
           (10%N, StdoutRecord 0 (ready_record "127.0.0.1:54321"));
           (10%N, CallStop);
           (5%N, Exit 0 None (Some "SIGTERM")) ] example_engine) = false).
  { intros [|pid]; vm_compute; reflexivity. }
  split; [exact Hp|]. split; [exact Hd|].
  exact (proj1 (uri_empty_if_punctual example_host
                  (example_sideload example_source.1) example_source.2
                  example_engine _ example_constructed) Hp Hd).
Defined.

Lemma readiness_settles_start_witness :
  let s := (start example_engine).2 in
  let r := ready_record "127.0.0.1:54321" in
  alive 0 s = true ∧ is_ready r = true ∧ address r = Some "127.0.0.1:54321" ∧
  promises s !! 0 = Some Pending ∧
  uri (handle (StdoutRecord 0 r) s) = "http://127.0.0.1:54321" ∧
  promises (handle (StdoutRecord 0 r) s) !! 0 = Some (Resolved (VNum (Num 54321))).
Proof.
  cbv zeta. split_and!; [reflexivity..| |].
  - exact (proj1 (readiness_settles_start (start example_engine).2 0
                    (ready_record "127.0.0.1:54321") "127.0.0.1:54321"
                    eq_refl eq_refl eq_refl)).
  - destruct (readiness_settles_start (start example_engine).2 0
                (ready_record "127.0.0.1:54321") "127.0.0.1:54321"
                eq_refl eq_refl eq_refl) as (_ & H & _).
    apply (H 0 0); [|reflexivity]. vm_compute. by left.
Defined.

Lemma startup_timeout_witness :
  construct example_host (example_sideload example_source.1) example_source.2
    = Constructed example_engine ∧
  let tr := [ (100%N, StdoutRecord 0 (info_record "starting"));
              (200%N, Exit 0 (Some 1%Z) None) ] in
  let s1 := run tr (start example_engine).2 in
  let s2 := advance 700 s1 in
  Forall (λ e, quiet_event e.2 = true) tr ∧
  (now s1 < timer_delay (startupTimeout (this example_engine)))%N ∧
  (timer_delay (startupTimeout (this example_engine)) ≤ now s1 + 700)%N ∧
  promises s2 !! 0 = Some (Rejected (VError "timed out")) ∧
  running (this s2) = false ∧ child (this s2) = CNull.
Proof.
  split; [reflexivity|]. cbv zeta.
  assert (Htr : Forall (λ e : N * Event, quiet_event e.2 = true)
                  [ (100%N, StdoutRecord 0 (info_record "starting"));
                    (200%N, Exit 0 (Some 1%Z) None) ]).
  { by repeat constructor. }
  assert (H1 : (now (run [ (100%N, StdoutRecord 0 (info_record "starting"));
                           (200%N, Exit 0 (Some 1%Z) None) ]
                       (start example_engine).2)
                < timer_delay (startupTimeout (this example_engine)))%N)
    by (vm_compute; reflexivity).
  assert (H2 : (timer_delay (startupTimeout (this example_engine))
                ≤ now (run [ (100%N, StdoutRecord 0 (info_record "starting"));
                             (200%N, Exit 0 (Some 1%Z) None) ]
                         (start example_engine).2) + 700)%N)
    by (vm_compute; discriminate).
  destruct (startup_timeout example_host (example_sideload example_source.1)
              example_source.2 example_engine _ 700%N
              example_constructed Htr H1 H2)
    as (_ & _ & _ & Hrej & Hrun & Hch & _).
  by split_and!.
Defined.


Lemma origins_after_construction_witness :
  load_source example_host (example_sideload caller_source.1) caller_source.2
    = Some caller_source ∧
  stringify caller_source.2 caller_source.1 = Some caller_doc ∧
  construct example_host (example_sideload caller_source.1) caller_source.2
    = Constructed caller_engine ∧
  ∃ d, stringify (heap caller_engine) (engineConfig (this caller_engine)) = Some d ∧
       d_origins d = d_origins caller_doc_after.
Proof.
  split_and!; [reflexivity..|].
  destruct (origins_after_construction example_host
              (example_sideload caller_source.1) caller_source.2 caller_source.2
              caller_source.1 caller_doc caller_engine eq_refl eq_refl eq_refl)
    as (_ & d & Hd & Ho).
  exists d. split; [exact Hd|]. exact Ho.
Defined.

Lemma start_only_once_witness :
  let s := (start example_engine).2 in
  running (this s) = true ∧
  start s = (Throw "Only call start() on an engine object once", s).
Proof.
  cbv zeta. split; [reflexivity|].
  exact (proj1 (start_only_once (start example_engine).2 eq_refl)).
Defined.

(** ** The further theorems at concrete inputs *)

Lemma missing_port_throws_witness :
  ∃ c, read_config example_source.2 example_source.1 = Some c ∧
       construct portless_host (portless_sideload example_source.1) example_source.2
       = Threw missing_port_message (example_source.2 ++ [CConfig c]).
Proof.
  eexists. split; [reflexivity|].
  apply (missing_port_throws portless_host (portless_sideload example_source.1)
           example_source.2 example_source.2 example_source.1).
  - reflexivity.
  - reflexivity.
  - intros n [= <-]. reflexivity.
  - intros p. discriminate.
Defined.

Lemma graphqlPort_resolution_witness :
  ∃ s, construct example_host (env_sideload example_source.1) example_source.2
       = Constructed s ∧
       env_PORT example_host = Some "3000" ∧ graphqlPort (this s) = Num 3000.
Proof.
  eexists. split; [vm_compute; reflexivity|]. split; [reflexivity|].
  match goal with
  | |- graphqlPort (this ?s) = _ =>
      destruct (graphqlPort_resolution example_host
                  (env_sideload example_source.1) example_source.2 s eq_refl)
        as (p & Hp & _ & ->)
  end.
  injection Hp as <-. reflexivity.
Defined.

Lemma binary_of_platform_witness :
  platform example_host ∈ supported_platforms ∧
  ∃ pkg, binary_package (platform example_host) = Some pkg ∧
         require_resolve example_host pkg = Some (binary (this example_engine)).
Proof.
  destruct (binary_of_platform example_host (example_sideload example_source.1)
              example_source.2 example_engine example_constructed)
    as (H & pkg & H1 & H2 & _).
  split; [exact H|]. by exists pkg.
Defined.

Lemma frontend_appended_witness :
  ∃ d, stringify (heap caller_engine) (engineConfig (this caller_engine)) = Some d ∧
       d_frontends d = Some
         [ {| fe_extensions := None; fe_host := "0.0.0.0"; fe_endpoint := "/api";
              fe_port := Num 8080 |};
           {| fe_extensions := None; fe_host := "127.0.0.1";
              fe_endpoint := "/graphql"; fe_port := Num 0 |} ].
Proof.
  destruct (frontend_appended example_host (example_sideload caller_source.1)
              caller_source.2 caller_source.2 caller_source.1 caller_doc
              caller_engine eq_refl eq_refl caller_constructed)
    as (d & Hd & _ & Hf).
  by exists d.
Defined.

Lemma logging_forced_witness :
  get_level example_engine = Some "error" ∧
  ∃ d, stringify (heap example_engine) (engineConfig (this example_engine)) = Some d ∧
       d_logging d = Some {| level := Some "error"; format := Some "JSON";
                             destination := Some "STDOUT" |}.
Proof.
  destruct (logging_forced example_host (example_sideload example_source.1)
              example_source.2 example_source.2 example_source.1
              (example_doc (Some "error")) example_engine
              eq_refl eq_refl example_constructed)
    as (d & Hd & Hl & Hg).
  split; [exact Hg|]. by exists d.
Defined.

Lemma construction_warnings_witness : console_error example_engine = [].
Proof.
  apply (proj1 (construction_warnings example_host
                  (example_sideload example_source.1)
                  example_source.2 example_source.2 example_source.1
                  (example_doc (Some "error")) example_engine
                  eq_refl eq_refl example_constructed)).
  intros g [= <-]. split; reflexivity.
Defined.

Lemma no_spawn_while_stopped_witness :
  let tr := [ (0%N, CallStop); (5%N, StdoutGarbage 0 "panic") ] in
  running (this example_engine) = false ∧
  running (this (run tr example_engine)) = false ∧
  length (procs (run tr example_engine)) = 0.
Proof.
  cbv zeta. split; [reflexivity|].
  destruct (no_spawn_while_stopped example_engine
              [ (0%N, CallStop); (5%N, StdoutGarbage 0 "panic") ] eq_refl)
    as (H1 & H2 & _).
  - repeat constructor.
  - split; [exact H1|exact H2].
Defined.

Lemma unfiltered_levels_witness :
  get_level caller_engine = Some "info" ∧
  ∀ tr, heap (run tr caller_engine) = heap caller_engine ∧
        get_level (run tr caller_engine) = Some "info".
Proof.
  split; [reflexivity|]. intros tr.
  destruct (unfiltered_levels example_host (example_sideload caller_source.1)
              caller_source.2 caller_engine tr caller_constructed)
    as (H1 & H2 & _).
  - intros l H. vm_compute in H. injection H as <-. reflexivity.
  - split; [exact H1|exact H2].
Defined.

Lemma stop_live_child_witness :
  let s := run [ (0%N, CallStart) ] example_engine in
  child (this s) = CHandle 0 ∧ alive 0 s = true ∧
  (stop s).1 = Return 1 ∧
  promises (run [ (20%N, Exit 0 None (Some "SIGTERM")) ] (stop s).2) !! 1
  = Some (Resolved VUndefined).
Proof.
  cbv zeta. split; [reflexivity|]. split; [reflexivity|].
  destruct (stop_live_child example_host (example_sideload example_source.1)
              example_source.2 example_engine [ (0%N, CallStart) ] 0
              example_constructed eq_refl eq_refl)
    as (H1 & _ & _ & _ & _ & _ & H).
  split; [exact H1|].
  exact (proj1 (H [ (20%N, Exit 0 None (Some "SIGTERM")) ])).
Defined.

Lemma start_settles_by_address_witness :
  let s := (start example_engine).2 in
  let r := ready_record "127.0.0.1:54321" in
  alive 0 s = true ∧ is_ready r = true ∧ promises s !! 0 = Some Pending ∧
  promises (handle (StdoutRecord 0 r) s) !! 0 = Some (Resolved (VNum (Num 54321))).
Proof.
  cbv zeta. split_and!; [reflexivity..|].
  destruct (start_settles_by_address (start example_engine).2 0
              (ready_record "127.0.0.1:54321") 0 0 eq_refl eq_refl)
    as (H & _).
  - vm_compute. by left.
  - reflexivity.
  - apply (H "127.0.0.1" 54321%Z); [reflexivity|reflexivity|lia].
Defined.

Lemma top_level_object_kept_witness :
  ∃ c, read_config caller_source.2 caller_source.1 = Some c ∧
       read_config (heap caller_engine) caller_source.1 = Some c ∧
       engineConfig (this caller_engine) ≠ caller_source.1.
Proof.
  eexists. split; [reflexivity|].
  destruct (top_level_object_kept example_host (example_sideload caller_source.1)
              caller_source.2 caller_source.2 caller_source.1 _ caller_engine
              eq_refl eq_refl caller_constructed)
    as (H1 & H2 & _).
  split; [exact H2|exact H1].
Defined.

Lemma nested_objects_shared_witness :
  ∃ d_src d_eng,
    stringify (heap caller_engine) caller_source.1 = Some d_src ∧
    stringify (heap caller_engine) (engineConfig (this caller_engine)) = Some d_eng ∧
    d_frontends d_src = d_frontends d_eng ∧
    d_origins d_src = d_origins d_eng ∧
    d_logging d_src = d_logging d_eng.
Proof.
  destruct (nested_objects_shared example_host (example_sideload caller_source.1)
              caller_source.2 caller_source.2 caller_source.1 _ caller_engine
              eq_refl eq_refl caller_constructed)
    as (d1 & d2 & H1 & H2 & Hf & Ho & Hl).
  exists d1, d2. split_and!; [exact H1|exact H2|..].
  - apply Hf. by eexists.
  - apply Ho. by eexists.
  - apply Hl. by eexists.
Defined.

Lemma firing_order_immaterial_witness :
  let t := (now two_timers + 1000)%N in
  length (filter (fun tm => is_due t tm = true) (timers two_timers)) = 2 ∧
  advance 1000 two_timers =
  foldl fire_timer
    (set_timers (filter (fun tm => is_due t tm = false) (timers two_timers))
       (set_now t two_timers))
    (reverse (filter (fun tm => is_due t tm = true) (timers two_timers))).
Proof.
  cbv zeta. split; [reflexivity|].
  apply (firing_order_immaterial 1000 two_timers). apply reverse_Permutation.
Defined.

Lemma one_child_at_a_time_witness :
  let s := run [ (10%N, Exit 0 (Some 1%Z) None) ] (start example_engine).2 in
  alive 1 s = true ∧ running (this s) = true ∧ child (this s) = CHandle 1 ∧
  ∀ p, alive p s = true → p = 1.
Proof.
  cbv zeta.
  destruct (one_child_at_a_time example_host (example_sideload example_source.1)
              example_source.2 example_engine
              [ (10%N, Exit 0 (Some 1%Z) None) ] example_constructed)
    as (H1 & H2).
  - repeat constructor.
  - split_and!; [reflexivity|reflexivity|..].
    + apply H2; reflexivity.
    + intros p Hp. apply H1; [exact Hp|reflexivity].
Defined.

Lemma config_file_is_parsed_witness :
  ∃ src h1 k, load_source file_host file_sideload [] = Some (src, h1) ∧
              h1 = [] ++ k ∧ 0 ≤ src ∧ stringify h1 src = Some caller_doc.
Proof.
  exact (config_file_is_parsed file_host file_sideload [] "engine.json" eq_refl).
Defined.

Lemma restart_before_exit_witness :
  let s := (start example_engine).2 in
  let s3 := handle (Exit 0 None (Some "SIGTERM")) (start (stop s).2).2 in
  child (this s) = CHandle 0 ∧ alive 0 s = true ∧
  alive 1 s3 = true ∧ alive 2 s3 = true ∧ child (this s3) = CHandle 2.
Proof.
  cbv zeta. split; [reflexivity|]. split; [reflexivity|].
  destruct (restart_before_exit (start example_engine).2 0 None (Some "SIGTERM")
              eq_refl eq_refl)
    as (_ & _ & _ & _ & _ & H1 & H2 & _ & H3 & _).
  - discriminate.
  - split_and!; [exact H1|exact H2|exact H3].
Defined.

Lemma respawn_level_witness :
  let s := run [ (0%N, CallStart) ] example_engine in
  let s' := handle (Exit 0 (Some 1%Z) None) s in
  alive 0 s = true ∧ running (this s) = true ∧
  field_at p_logLevel 1 s' = Some (Some "info") ∧
  field_at p_filter 1 s' = Some FltUndefined.
Proof.
  cbv zeta. split; [reflexivity|]. split; [reflexivity|].
  destruct (respawn_level example_host (example_sideload example_source.1)
              example_source.2 example_engine "error" FError
              [ (0%N, CallStart) ] 0 (Some 1%Z) None
              example_constructed eq_refl eq_refl eq_refl eq_refl)
    as (d0 & _ & _ & _ & H1 & H2 & _).
  - discriminate.
  - split; [exact H1|exact H2].
Defined.
